(** * Intent classifier: model selection and confidence-threshold policy

    A shallow embedding of the training and evaluation scripts
    [scripts/train_intent_classifier.py] and [scripts/evaluate_combined.py].

    Conventions of the embedding.
    - Python integers are [Z]; list positions and lengths are [nat].
    - Accuracies and confidences are floats holding ratios of counts and
      probabilities, and thresholds and [min_delta] are floats holding
      decimals; they are embedded as the rationals [Q] they stand for.  The
      float that the program holds is [float64] of the rational for a Python
      float and [float32] of it for an entry of a tensor, where [float64]
      and [float32] round as IEEE 754 does, to nearest with ties to even.
      Where the program adds floats, or compares a float with a configured
      decimal, the embedding rounds.  Two accuracies are compared as the
      ratios they stand for: ratios of counts below 2^26 that differ are
      held by different Python floats, in the same order.  A loss is the one
      float of the program that can be non-finite, and has its own type
      [fl].
    - A function that can raise returns a [res]: [Ok v] or [Raise e].
    - The classifier (MobileBERT, tokenizer, optimizer, scheduler) is an
      external collaborator: it is a record of operations, [Classifier]. *)

From Stdlib Require Import ZArith QArith Qminmax Qround Qpower.
From Stdlib Require Import String DecimalString List Bool Lia Lqa.
From Stdlib Require Import Sorted.
Import ListNotations.

Set Implicit Arguments.

(** ** Python exceptions and fallible computations *)

Inductive exn : Type :=
| ZeroDivisionError
| TypeError (msg : string)
| ValueError (msg : string)
| KeyError (key : string).

Inductive res (A : Type) : Type :=
| Ok (a : A)
| Raise (e : exn).

Arguments Ok {A} a.
Arguments Raise {A} e.

Definition bind {A B : Type} (m : res A) (k : A -> res B) : res B :=
  match m with
  | Ok a => k a
  | Raise e => Raise e
  end.

Notation "x <- m ;; k" := (bind m (fun x => k))
  (at level 61, m at next level, right associativity).
Notation "' p <- m ;; k" := (bind m (fun x => let p := x in k))
  (at level 61, p pattern, m at next level, right associativity).

Definition is_ok {A : Type} (m : res A) : bool :=
  match m with Ok _ => true | Raise _ => false end.

(** [[f(x) for x in xs]] where [f] can raise: the first exception wins. *)
Fixpoint mapM {A B : Type} (f : A -> res B) (xs : list A) : res (list B) :=
  match xs with
  | [] => Ok []
  | x :: xs' => y <- f x ;; ys <- mapM f xs' ;; Ok (y :: ys)
  end.

(** ** Floats *)

(** [a < b] on floats that hold rationals. *)
Definition Qltb (a b : Q) : bool := negb (Qle_bool b a).

(** Rounding to a binary floating-point format, to nearest with ties to
    even.  [pow2 k] is [2^k]; [flog2 x] is the exponent of the binade of a
    positive [x], the [k] with [2^k <= x < 2^(k+1)]; [rne x] is the integer
    nearest to [x], the even one of two that are equally near.  A format has
    [prec] significant bits and [2^emin] as its smallest positive number, so
    a positive [x] is rounded on the grid of step [2^e] with
    [e = max emin (flog2 x - (prec - 1))].  There is no overflow to infinity:
    the numbers rounded here are accuracies, probabilities, [min_delta] and
    thresholds. *)
Definition pow2 (k : Z) : Q := Qpower 2 k.

Definition flog2 (x : Q) : Z :=
  let k := (Z.log2 (Qnum x) - Z.log2 (Zpos (Qden x)))%Z in
  if Qle_bool (pow2 k) x then k else (k - 1)%Z.

Definition rne (x : Q) : Z :=
  let f := Qfloor x in
  match Qcompare (x - inject_Z f) (1 # 2) with
  | Lt => f
  | Gt => (f + 1)%Z
  | Eq => if Z.even f then f else (f + 1)%Z
  end.

Definition round_pos (prec emin : Z) (x : Q) : Q :=
  let e := Z.max emin (flog2 x - (prec - 1)) in
  inject_Z (rne (x / pow2 e)) * pow2 e.

Definition round (prec emin : Z) (x : Q) : Q :=
  match Qcompare x 0 with
  | Eq => 0
  | Gt => round_pos prec emin x
  | Lt => - round_pos prec emin (- x)
  end.

(** A Python float and a [numpy.float64] (binary64), and a [torch.float32]
    or [numpy.float32] (binary32). *)
Definition float64 (x : Q) : Q := round 53 (-1074) x.

Definition float32 (x : Q) : Q := round 24 (-149) x.

(** [a + b] on two Python floats. *)
Definition add64 (a b : Q) : Q := float64 (float64 a + float64 b).

(** A loss value: a finite number, or one of [nan], [inf], [-inf]. *)
Inductive fl : Type :=
| Finite (q : Q)
| NonFinite.

Definition is_finite (x : fl) : bool :=
  match x with Finite _ => true | NonFinite => false end.

(** [x + y]: a non-finite operand gives a non-finite sum. *)
Definition fl_add (x y : fl) : fl :=
  match x, y with
  | Finite a, Finite b => Finite (a + b)
  | _, _ => NonFinite
  end.

(** [x / n] for an integer [n]; Python raises on [n = 0]. *)
Definition fl_div_len (x : fl) (n : nat) : res fl :=
  match n with
  | O => Raise ZeroDivisionError
  | S _ =>
      Ok match x with
         | Finite a => Finite (a / inject_Z (Z.of_nat n))
         | NonFinite => NonFinite
         end
  end.

(** ** Configuration *)

(** [Config.LABEL2ID], the same dictionary in both scripts. *)
Definition LABEL2ID : list (string * Z) :=
  [ ("save", 0); ("search", 1); ("reminder", 2);
    ("cancel_all", 3); ("cancel_specific", 4); ("unclear", 5) ]%string%Z.

Fixpoint dict_get (d : list (string * Z)) (k : string) : res Z :=
  match d with
  | [] => Raise (KeyError k)
  | (k', v) :: d' => if String.eqb k k' then Ok v else dict_get d' k
  end.

(** [config.LABEL2ID["unclear"]] *)
Definition UNCLEAR : Z := 5.

(** The class attributes of [Config] that the orchestration reads. *)
Record Config : Type := {
  NUM_LABELS : Z;
  BATCH_SIZE : nat;
  MAX_EPOCHS : Z;
  EARLY_STOPPING_PATIENCE : Z;
  N_FOLDS : Z;
  CONFIDENCE_THRESHOLD : Q;
  SEED : Z
}.

Definition default_config : Config := {|
  NUM_LABELS := 6;
  BATCH_SIZE := 16;
  MAX_EPOCHS := 15;
  EARLY_STOPPING_PATIENCE := 3;
  N_FOLDS := 5;
  CONFIDENCE_THRESHOLD := 7 # 10;
  SEED := 42
|}.

(** ** Library functions the scripts call *)

(** [sklearn.metrics.accuracy_score(y_true, y_pred)]: the fraction of
    positions where the two sequences agree.  Sequences of different lengths
    are refused with a [ValueError].  On empty input the library gives [nan];
    the embedding gives [0/0], which [Q] evaluates to [0], and every caller
    here divides by the same zero length and raises. *)
Definition count_equal (y_true y_pred : list Z) : nat :=
  length (filter (fun p => Z.eqb (fst p) (snd p)) (combine y_true y_pred)).

Definition ratio (k n : nat) : Q :=
  inject_Z (Z.of_nat k) / inject_Z (Z.of_nat n).

Definition accuracy_score (y_true y_pred : list Z) : res Q :=
  if Nat.eqb (length y_true) (length y_pred)
  then Ok (ratio (count_equal y_true y_pred) (length y_true))
  else Raise (ValueError "Found input variables with inconsistent numbers of samples").

(** [torch.max(probs, dim=-1)] on one row: the largest entry and the position
    of its first occurrence.  [torch_max_from i best rest] scans [rest], whose
    first entry has position [i], with [best] the running (value, position). *)
Fixpoint torch_max_from (i : Z) (best : Q * Z) (rest : list Q) : Q * Z :=
  match rest with
  | [] => best
  | p :: rest' =>
      torch_max_from (i + 1) (if Qltb (fst best) p then (p, i) else best) rest'
  end.

Definition torch_max (probs : list Q) : Q * Z :=
  match probs with
  | [] => (0, 0%Z)
  | p :: rest => torch_max_from 1 (p, 0%Z) rest
  end.

(** ** The confidence-threshold fallback

    The same loop appears in [evaluate] (training script) and in
    [evaluate_dataset] and [evaluate_combined] (evaluation script):
<<
    for pred, conf in zip(all_preds, all_confidences):
        if conf < config.CONFIDENCE_THRESHOLD:
            adjusted_preds.append(config.LABEL2ID["unclear"])
        else:
            adjusted_preds.append(pred)
>>
    The threshold is a Python float.  The two scripts differ in what [conf]
    is, and with it in the comparison that [<] makes.

    In [evaluate] the confidences come from
    [all_confidences.extend(confidence.cpu().numpy())] and are
    [numpy.float32] scalars.  Comparing one with a Python float, NumPy
    (version 2, where a Python scalar takes the precision of the other
    operand) converts the threshold to single precision and compares there.

    In the evaluation script the confidences come from [confidence.item()]
    and are Python floats holding single-precision values: the comparison is
    the one of two Python floats.

    [float32 conf] is the single-precision number that the tensor holds; it
    is [conf] itself when [conf] is such a number. *)
Definition below_threshold32 (conf threshold : Q) : bool :=
  Qltb (float32 conf) (float32 (float64 threshold)).

Definition below_threshold64 (conf threshold : Q) : bool :=
  Qltb (float32 conf) (float64 threshold).

(** The loop of [evaluate]. *)
Definition adjust (threshold : Q) (pred : Z) (conf : Q) : Z :=
  if below_threshold32 conf threshold then UNCLEAR else pred.

Definition adjusted_preds (threshold : Q) (preds : list Z) (confs : list Q)
  : list Z :=
  map (fun pc => adjust threshold (fst pc) (snd pc)) (combine preds confs).

(** The loop of [evaluate_dataset] and [evaluate_combined]. *)
Definition adjust_prediction (threshold : Q) (pred : Z) (conf : Q) : Z :=
  if below_threshold64 conf threshold then UNCLEAR else pred.

Definition adjusted_predictions (threshold : Q) (preds : list Z)
    (confs : list Q) : list Z :=
  map (fun pc => adjust_prediction threshold (fst pc) (snd pc))
      (combine preds confs).

(** The number of entries of a list of labels that are [UNCLEAR]. *)
Definition count_unclear (ls : list Z) : nat :=
  length (filter (Z.eqb UNCLEAR) ls).

(** A row of [softmax] output: one probability per label, summing to 1. *)
Definition Qsum (l : list Q) : Q := fold_right Qplus 0 l.

Definition is_distribution (n : nat) (probs : list Q) : Prop :=
  length probs = n /\ Qsum probs == 1.

(** ** The classifier boundary

    Everything the scripts ask of PyTorch and of the MobileBERT model.  [X] is
    a tokenized input (ids and attention mask), [T] the live training state
    (module parameters together with optimizer and scheduler), [M] a
    [state_dict], a detached copy of the parameters. *)
Record Classifier : Type := {
  X : Type;
  T : Type;
  M : Type;
  (** the tokenizer with [max_length], padding and truncation *)
  tokenize : string -> X;
  (** [IntentClassifier(config)] with a fresh optimizer and scheduler; the
      argument tells the successive constructions apart *)
  new_model : Z -> T;
  (** one optimisation step on a batch: the new state, [loss.item()] and
      [argmax(logits)] per sample *)
  train_step : T -> list X -> list Z -> T * fl * list Z;
  (** inference on a batch: the criterion's [loss.item()] and the rows of
      [softmax(logits)] *)
  forward : T -> list X -> list Z -> fl * list (list Q);
  (** [{k: v.clone() for k, v in model.state_dict().items()}] *)
  state_dict : T -> M;
  (** [model.load_state_dict] on a dictionary *)
  load_params : T -> M -> T
}.

(** One batch yielded by a [DataLoader]. *)
Record batch (A : Type) : Type := {
  input_ids : list A;
  label : list Z
}.

(** [history] of [train_fold]: five lists, one entry per epoch run. *)
Record History : Type := {
  h_train_loss : list fl;
  h_train_acc : list Q;
  h_val_loss : list fl;
  h_val_acc : list Q;
  h_val_acc_adjusted : list Q
}.

Definition empty_history : History :=
  {| h_train_loss := []; h_train_acc := []; h_val_loss := [];
     h_val_acc := []; h_val_acc_adjusted := [] |}.

(** What [evaluate] returns. *)
Record EvalResult : Type := {
  avg_loss : fl;
  accuracy : Q;
  adjusted_accuracy : Q;
  all_preds : list Z;
  all_labels : list Z;
  all_confidences : list Q
}.

(** [class EarlyStopping]: the attributes of one instance. *)
Record EarlyStopping (S : Type) : Type := {
  patience : Z;
  min_delta : Q;
  counter : Z;
  best_score : option Q;
  early_stop : bool;
  best_model_state : option S
}.

(** [EarlyStopping.__init__(patience=3, min_delta=0.001)] *)
Definition EarlyStopping_init (S : Type) (patience : Z) (min_delta : Q)
  : EarlyStopping S :=
  {| patience := patience; min_delta := min_delta; counter := 0;
     best_score := None; early_stop := false; best_model_state := None |}.

Definition default_min_delta : Q := 1 # 1000.

(** [EarlyStopping.__call__(val_accuracy, model)], with [snapshot] the copy of
    the model's [state_dict] it would store.  Returns the updated instance and
    the value of [self.early_stop].  The test
    [score < self.best_score + self.min_delta] adds and compares Python
    floats: the sum is rounded to double precision. *)
Definition EarlyStopping_call (S : Type) (es : EarlyStopping S)
    (val_accuracy : Q) (snapshot : S) : EarlyStopping S * bool :=
  let score := val_accuracy in
  let es' :=
    match best_score es with
    | None =>
        {| patience := patience es; min_delta := min_delta es;
           counter := counter es;
           best_score := Some score;
           early_stop := early_stop es;
           best_model_state := Some snapshot |}
    | Some best =>
        if Qltb (float64 score) (add64 best (min_delta es)) then
          let c := (counter es + 1)%Z in
          {| patience := patience es; min_delta := min_delta es;
             counter := c;
             best_score := best_score es;
             early_stop := if (c >=? patience es)%Z then true else early_stop es;
             best_model_state := best_model_state es |}
        else
          {| patience := patience es; min_delta := min_delta es;
             counter := 0;
             best_score := Some score;
             early_stop := early_stop es;
             best_model_state := Some snapshot |}
    end in
  (es', early_stop es').

(** What holds of an instance between two calls of the epoch loop: it has not
    stopped, and as long as no score was recorded its counter is 0 and it
    holds no snapshot. *)
Definition es_between (S : Type) (p : Z) (d : Q) (es : EarlyStopping S) : Prop :=
  patience es = p /\ min_delta es = d /\ early_stop es = false /\
  (best_score es = None -> counter es = 0%Z /\ best_model_state es = None).

(** [model.load_state_dict(x)] where [x] may be [None]. *)
Definition load_state_dict (cls : Classifier) (t : T cls) (x : option (M cls))
  : res (T cls) :=
  match x with
  | Some sd => Ok (load_params cls t sd)
  | None => Raise (TypeError "Expected state_dict to be dict-like, got NoneType")
  end.

Section Training.

Variable cls : Classifier.
Variable config : Config.

(** The running totals of the batch loops of [train_epoch] and [evaluate]. *)
Definition train_batch (acc : T cls * fl * list Z * list Z) (b : batch (X cls))
  : T cls * fl * list Z * list Z :=
  let '(t, total_loss, preds_acc, labels_acc) := acc in
  let '(t', loss, preds) := train_step cls t (input_ids b) (label b) in
  (t', fl_add total_loss loss, preds_acc ++ preds, labels_acc ++ label b).

(** [train_epoch(model, dataloader, ...)]: the updated model, [avg_loss] and
    [accuracy]. *)
Definition train_epoch (t : T cls) (dataloader : list (batch (X cls)))
  : res (T cls * fl * Q) :=
  let '(t', total_loss, preds_acc, labels_acc) :=
    fold_left train_batch dataloader (t, Finite 0, [], []) in
  avg <- fl_div_len total_loss (length dataloader) ;;
  acc <- accuracy_score labels_acc preds_acc ;;
  Ok (t', avg, acc).

Definition eval_batch (t : T cls)
    (acc : fl * list Z * list Z * list Q) (b : batch (X cls))
  : fl * list Z * list Z * list Q :=
  let '(total_loss, preds_acc, labels_acc, confs_acc) := acc in
  let '(loss, probs) := forward cls t (input_ids b) (label b) in
  let cp := map torch_max probs in
  (fl_add total_loss loss, preds_acc ++ map snd cp,
   labels_acc ++ label b, confs_acc ++ map fst cp).

(** [evaluate(model, dataloader, criterion, config)] *)
Definition evaluate (t : T cls) (dataloader : list (batch (X cls)))
  : res EvalResult :=
  let '(total_loss, preds_acc, labels_acc, confs_acc) :=
    fold_left (eval_batch t) dataloader (Finite 0, [], [], []) in
  avg <- fl_div_len total_loss (length dataloader) ;;
  acc <- accuracy_score labels_acc preds_acc ;;
  let adjusted :=
    adjusted_preds (CONFIDENCE_THRESHOLD config) preds_acc confs_acc in
  adj <- accuracy_score labels_acc adjusted ;;
  Ok {| avg_loss := avg; accuracy := acc; adjusted_accuracy := adj;
        all_preds := preds_acc; all_labels := labels_acc;
        all_confidences := confs_acc |}.

(** The variables of [train_fold] that change from epoch to epoch. *)
Record FoldState : Type := {
  model : T cls;
  early_stopping : EarlyStopping (M cls);
  history : History;
  best_val_acc : Q
}.

Definition fold_start (fold : Z) : FoldState :=
  {| model := new_model cls fold;
     early_stopping :=
       EarlyStopping_init (M cls) (EARLY_STOPPING_PATIENCE config)
                          default_min_delta;
     history := empty_history;
     best_val_acc := 0 |}.

(** The body of [for epoch in range(config.MAX_EPOCHS)]; the boolean tells
    whether the body ended in [break]. *)
Definition epoch_body (train_loader val_loader : list (batch (X cls)))
    (st : FoldState) : res (FoldState * bool) :=
  '(t, train_loss, train_acc) <- train_epoch (model st) train_loader ;;
  ev <- evaluate t val_loader ;;
  let h := history st in
  let h' :=
    {| h_train_loss := h_train_loss h ++ [train_loss];
       h_train_acc := h_train_acc h ++ [train_acc];
       h_val_loss := h_val_loss h ++ [avg_loss ev];
       h_val_acc := h_val_acc h ++ [accuracy ev];
       h_val_acc_adjusted := h_val_acc_adjusted h ++ [adjusted_accuracy ev] |} in
  let best :=
    if Qltb (best_val_acc st) (accuracy ev) then accuracy ev
    else best_val_acc st in
  let '(es, stop) :=
    EarlyStopping_call (early_stopping st) (accuracy ev) (state_dict cls t) in
  Ok ({| model := t; early_stopping := es; history := h';
         best_val_acc := best |}, stop).

(** The epoch loop.  [train_loader epoch] is what iterating the shuffling
    training loader yields in that epoch. *)
Fixpoint epoch_loop (train_loader : nat -> list (batch (X cls)))
    (val_loader : list (batch (X cls))) (epochs : list nat) (st : FoldState)
  : res FoldState :=
  match epochs with
  | [] => Ok st
  | epoch :: rest =>
      '(st', stop) <- epoch_body (train_loader epoch) val_loader st ;;
      if stop then Ok st' else epoch_loop train_loader val_loader rest st'
  end.

(** [range(n)] *)
Definition range (n : Z) : list nat := seq 0 (Z.to_nat n).

(** [train_fold(fold, train_loader, val_loader, config, logger)]: the model
    with the early-stopping snapshot loaded, the history, and
    [early_stopping.best_score]. *)
Definition train_fold (fold : Z) (train_loader : nat -> list (batch (X cls)))
    (val_loader : list (batch (X cls)))
  : res (T cls * History * option Q) :=
  st <- epoch_loop train_loader val_loader (range (MAX_EPOCHS config))
                   (fold_start fold) ;;
  t <- load_state_dict cls (model st) (best_model_state (early_stopping st)) ;;
  Ok (t, history st, best_score (early_stopping st)).

End Training.

(** ** Stratified k-fold splitting

    [StratifiedKFold(n_splits, shuffle=True, random_state=SEED).split(texts,
    labels)] is scikit-learn's; the embedding follows the library's
    [_BaseKFold.__init__], [StratifiedKFold.split], [_BaseKFold.split] and
    [StratifiedKFold._make_test_folds], whose checks run in this order: the
    constructor refuses [n_splits <= 1] when [run_cross_validation] builds
    the splitter; [split] validates [y] and refuses an empty one when the
    loop header calls it; the generator it returns refuses more splits than
    samples, and more splits than members of every class, when the loop asks
    for the first fold.  All of it is over before the body of the loop runs
    for the first time.  [rng_shuffle seed k] is the permutation that the
    seeded generator applies to the fold numbers of class [k]. *)

(** An integer as [str.format] and [%d] print it. *)
Definition decimal (z : Z) : string := NilZero.string_of_int (Z.to_int z).

(** The messages of the four [ValueError]s, as the library words them. *)
Definition msg_one_split (n_splits : Z) : string :=
  ("k-fold cross-validation requires at least one train/test split by "
   ++ "setting n_splits=2 or more, got n_splits=" ++ decimal n_splits
   ++ ".")%string.

Definition msg_no_samples : string :=
  ("Found array with 0 sample(s) (shape=(0,)) while a minimum of 1 is "
   ++ "required.")%string.

Definition msg_more_splits_than_samples (n_splits : Z) (n_samples : nat)
  : string :=
  ("Cannot have number of splits n_splits=" ++ decimal n_splits
   ++ " greater than the number of samples: n_samples="
   ++ decimal (Z.of_nat n_samples) ++ ".")%string.

Definition msg_more_splits_than_members (n_splits : Z) : string :=
  ("n_splits=" ++ decimal n_splits
   ++ " cannot be greater than the number of members in each class.")%string.

Section Splitting.

Variable rng_shuffle : Z -> nat -> list nat -> list nat.

Local Open Scope nat_scope.

(** The distinct values of [y] in order of first appearance, and the
    position of a value among them. *)
Definition classes_of (y : list Z) : list Z :=
  fold_left (fun acc c => if existsb (Z.eqb c) acc then acc else acc ++ [c])
            y [].

Fixpoint index_of (c : Z) (classes : list Z) : nat :=
  match classes with
  | [] => 0
  | c' :: rest => if Z.eqb c c' then 0 else S (index_of c rest)
  end.

Definition y_encoded (y : list Z) : list nat :=
  map (fun c => index_of c (classes_of y)) y.

(** [np.bincount] *)
Definition bincount (n_classes : nat) (ys : list nat) : list nat :=
  map (fun k => count_occ Nat.eq_dec ys k) (seq 0 n_classes).

(** [l[i::n]] *)
Definition stride (A : Type) (i n : nat) (l : list A) : list A :=
  map snd
      (filter (fun jx => Nat.leb i (fst jx) && Nat.eqb ((fst jx - i) mod n) 0)
              (combine (seq 0 (length l)) l)).

(** [np.sort(y_encoded)] *)
Definition y_order (n_classes : nat) (counts : list nat) : list nat :=
  concat (map (fun k => repeat k (nth k counts 0)) (seq 0 n_classes)).

(** [allocation[i][k]] *)
Definition allocation (n_splits n_classes : nat) (counts : list nat)
    (i k : nat) : nat :=
  count_occ Nat.eq_dec (stride i n_splits (y_order n_classes counts)) k.

(** [np.arange(n_splits).repeat(allocation[:, k])], shuffled *)
Definition folds_for_class (seed : Z) (n_splits n_classes : nat)
    (counts : list nat) (k : nat) : list nat :=
  rng_shuffle seed k
    (concat (map (fun i => repeat i (allocation n_splits n_classes counts i k))
                 (seq 0 n_splits))).

(** [test_folds]: the sample at position [pos] of class [k] takes the entry
    of [folds_for_class k] whose rank is the number of earlier samples of
    class [k]. *)
Definition test_folds (seed : Z) (n_splits : nat) (y : list Z) : list nat :=
  let enc := y_encoded y in
  let n_classes := length (classes_of y) in
  let counts := bincount n_classes enc in
  map (fun pos =>
         let k := nth pos enc 0 in
         let rank := count_occ Nat.eq_dec (firstn pos enc) k in
         nth rank (folds_for_class seed n_splits n_classes counts k) 0)
      (seq 0 (length y)).

Definition StratifiedKFold_split (n_splits seed : Z) (y : list Z)
  : res (list (list nat * list nat)) :=
  if (n_splits <=? 1)%Z then Raise (ValueError (msg_one_split n_splits))
  else if Nat.eqb (length y) 0 then Raise (ValueError msg_no_samples)
  else if (Z.of_nat (length y) <? n_splits)%Z then
    Raise (ValueError (msg_more_splits_than_samples n_splits (length y)))
  else
    let k := Z.to_nat n_splits in
    let counts := bincount (length (classes_of y)) (y_encoded y) in
    if forallb (fun c => Nat.ltb c k) counts then
      Raise (ValueError (msg_more_splits_than_members n_splits))
    else
      let tf := test_folds seed k y in
      let positions := combine (seq 0 (length y)) tf in
      Ok (map (fun i =>
                 (map fst (filter (fun pf => negb (Nat.eqb (snd pf) i)) positions),
                  map fst (filter (fun pf => Nat.eqb (snd pf) i) positions)))
              (seq 0 k)).

End Splitting.

(** ** Data loading *)

(** [texts[idx]], [labels[idx]]: the rows at the given positions. *)
Definition take_rows (A : Type) (rows : list A) (idx : list nat) : list A :=
  flat_map (fun i => match nth_error rows i with
                     | Some r => [r]
                     | None => []
                     end) idx.

(** Consecutive groups of [n] items, the last one possibly shorter. *)
Fixpoint chunks (A : Type) (fuel n : nat) (l : list A) : list (list A) :=
  match fuel, l with
  | S fuel', _ :: _ => firstn n l :: chunks fuel' n (skipn n l)
  | _, _ => []
  end.

Definition to_batch (A : Type) (samples : list (A * Z)) : batch A :=
  {| input_ids := map fst samples; label := map snd samples |}.

(** [DataLoader(IntentDataset(texts, labels, tokenizer, max_length),
    batch_size, shuffle)].  The result gives the batches of each successive
    iteration over the loader; [order n] is the order in which the [n]-th
    iteration visits the samples (the identity when [shuffle=False]). *)
Definition DataLoader (cls : Classifier) (rows : list (string * Z))
    (batch_size : nat) (order : nat -> list (string * Z) -> list (string * Z))
  : res (nat -> list (batch (X cls))) :=
  if Nat.eqb batch_size 0%nat then
    Raise (ValueError "batch_size should be a positive integer value")
  else
    Ok (fun n =>
          let visited := order n rows in
          map (fun c => to_batch (map (fun r => (tokenize cls (fst r), snd r)) c))
              (chunks (length visited) batch_size visited)).

Definition in_order (A : Type) (n : nat) (l : list A) : list A := l.

(** ** Cross-validation *)

(** One entry of [fold_results]. *)
Record FoldResult : Type := {
  fold : Z;
  best_val_accuracy : option Q;
  epochs_trained : nat
}.

Section CrossValidation.

Variable cls : Classifier.
Variable config : Config.
Variable rng_shuffle : Z -> nat -> list nat -> list nat.

(** [loader_order fold n]: the order in which the training loader of a fold
    visits its samples at its [n]-th iteration. *)
Variable loader_order : Z -> nat -> list (string * Z) -> list (string * Z).

(** The variables of [run_cross_validation] that change from fold to fold. *)
Record CVState : Type := {
  fold_results : list FoldResult;
  all_histories : list History;
  best_fold : Z;
  best_fold_acc : Q;
  cv_best_model_state : option (M cls)
}.

Definition cv_start : CVState :=
  {| fold_results := []; all_histories := []; best_fold := (-1)%Z;
     best_fold_acc := 0; cv_best_model_state := None |}.

(** The body of the loop over [enumerate(skf.split(texts, labels))], in two
    parts.  [fold_run] builds the datasets and the loaders of a fold and
    trains it.  ([torch.save] of the fold checkpoint writes a file and is
    left out.) *)
Definition fold_run (cv_df : list (string * Z)) (fold_no : Z)
    (train_idx val_idx : list nat) : res (T cls * History * option Q) :=
  train_loader <- DataLoader cls (take_rows cv_df train_idx)
                             (BATCH_SIZE config) (loader_order fold_no) ;;
  val_loader <- DataLoader cls (take_rows cv_df val_idx)
                           (BATCH_SIZE config) (@in_order _) ;;
  train_fold cls config fold_no train_loader (val_loader 0%nat).

(** [record_fold] stores the results of the fold and tracks the best one. *)
Definition record_fold (st : CVState) (fold_no : Z)
    (trained : T cls * History * option Q) : res CVState :=
  let '(t, h, best_acc) := trained in
  let results :=
    fold_results st ++
    [ {| fold := (fold_no + 1)%Z; best_val_accuracy := best_acc;
         epochs_trained := length (h_train_loss h) |} ] in
  let histories := all_histories st ++ [h] in
  match best_acc with
  | None =>
      Raise (TypeError "'>' not supported between instances of 'NoneType' and 'int'")
  | Some acc =>
      if Qltb (best_fold_acc st) acc then
        Ok {| fold_results := results; all_histories := histories;
              best_fold := fold_no; best_fold_acc := acc;
              cv_best_model_state := Some (state_dict cls t) |}
      else
        Ok {| fold_results := results; all_histories := histories;
              best_fold := best_fold st; best_fold_acc := best_fold_acc st;
              cv_best_model_state := cv_best_model_state st |}
  end.

Definition cv_body (cv_df : list (string * Z)) (st : CVState)
    (fold_no : Z) (train_idx val_idx : list nat) : res CVState :=
  trained <- fold_run cv_df fold_no train_idx val_idx ;;
  record_fold st fold_no trained.

Fixpoint cv_loop (cv_df : list (string * Z)) (fold_no : Z)
    (splits : list (list nat * list nat)) (st : CVState) : res CVState :=
  match splits with
  | [] => Ok st
  | (train_idx, val_idx) :: rest =>
      st' <- cv_body cv_df st fold_no train_idx val_idx ;;
      cv_loop cv_df (fold_no + 1)%Z rest st'
  end.

(** [run_cross_validation(cv_df, tokenizer, config, logger)]; the returned
    state holds [fold_results], [all_histories], [best_fold] and
    [best_model_state]. *)
Definition run_cross_validation (cv_df : list (string * Z)) : res CVState :=
  splits <- StratifiedKFold_split rng_shuffle (N_FOLDS config) (SEED config)
                                  (map snd cv_df) ;;
  cv_loop cv_df 0%Z splits cv_start.

(** [main()], up to [torch.save(best_model_state, best_model_path)]: the
    cross-validation state, the model that received the best parameters, and
    the content written to [best_model.pt].  The test evaluation, the plots
    and the JSON report follow. *)
Record Selected : Type := {
  cv_state : CVState;
  best_model : T cls;
  best_model_pt : option (M cls)
}.

Definition main (cv_df : list (string * Z)) : res Selected :=
  cv <- run_cross_validation cv_df ;;
  t <- load_state_dict cls (new_model cls (N_FOLDS config))
                       (cv_best_model_state cv) ;;
  Ok {| cv_state := cv; best_model := t;
        best_model_pt := cv_best_model_state cv |}.

End CrossValidation.

(** ** Combined evaluation ([evaluate_combined.py]) *)

(** [Config.ID2LABEL] *)
Definition ID2LABEL : list (Z * string) :=
  map (fun kv => (snd kv, fst kv)) LABEL2ID.

Fixpoint id2label (d : list (Z * string)) (k : Z) : res string :=
  match d with
  | [] => Raise (KeyError "ID2LABEL")
  | (k', v) :: d' => if Z.eqb k k' then Ok v else id2label d' k
  end.

(** One entry of an error list. *)
Record ErrorRow : Type := {
  e_text : string;
  e_true : string;
  e_predicted : string;
  e_confidence : Q
}.

(** What [evaluate_dataset] returns. *)
Record DatasetResult : Type := {
  texts : list string;
  labels : list Z;
  predictions : list Z;
  confidences : list Q;
  raw_accuracy : Q;
  ds_adjusted_accuracy : Q;
  errors : list ErrorRow
}.

(** What [evaluate_combined] returns. *)
Record CombinedResult : Type := {
  combined_raw_accuracy : Q;
  combined_adjusted_accuracy : Q;
  total_samples : nat;
  total_errors : nat;
  per_dataset : list (string * (Q * Q))
}.

(** The error list: one row per position where label and prediction differ. *)
Definition zip4 (ts : list string) (ls ps : list Z) (cs : list Q)
  : list (string * Z * Z * Q) :=
  combine (combine (combine ts ls) ps) cs.

Definition error_rows (ts : list string) (ls ps : list Z) (cs : list Q)
  : res (list ErrorRow) :=
  mapM (fun r : string * Z * Z * Q =>
          let '(text, true_label, pred, conf) := r in
          t <- id2label ID2LABEL true_label ;;
          p <- id2label ID2LABEL pred ;;
          Ok {| e_text := text; e_true := t; e_predicted := p;
                e_confidence := conf |})
       (filter (fun r : string * Z * Z * Q =>
                  let '(_, true_label, pred, _) := r in
                  negb (Z.eqb true_label pred))
               (zip4 ts ls ps cs)).

(** [unique_labels(y_true, y_pred)] has as many entries as there are distinct
    values; [classification_report] with [target_names] of another length
    raises. *)
Definition classification_report_check (y_true y_pred : list Z) : res unit :=
  if Nat.eqb (length (nodup Z.eq_dec (y_true ++ y_pred))) (length LABEL2ID)
  then Ok tt
  else Raise (ValueError "Number of classes does not match size of target_names").

Section CombinedEvaluation.

Variable cls : Classifier.
Variable threshold : Q.

(** The model loaded by [load_model]. *)
Variable loaded : T cls.

(** [predict(model, tokenizer, texts, config)]: one forward pass per text;
    the prediction and the confidence of each. *)
Definition predict (ts : list string) : list Z * list Q :=
  let outs :=
    map (fun text =>
           let '(_, probs) := forward cls loaded [tokenize cls text] [] in
           torch_max (hd [] probs)) ts in
  (map snd outs, map fst outs).

(** [evaluate_dataset(model, tokenizer, df, dataset_name, config)] *)
Definition evaluate_dataset (df : list (string * string)) : res DatasetResult :=
  let ts := map fst df in
  ls <- mapM (dict_get LABEL2ID) (map snd df) ;;
  let '(ps, cs) := predict ts in
  raw <- accuracy_score ls ps ;;
  adj <- accuracy_score ls (adjusted_predictions threshold ps cs) ;;
  errs <- error_rows ts ls ps cs ;;
  (* print(f"Errors: ... ({len(errors)/len(texts)*100:.1f}%)") *)
  if Nat.eqb (length ts) 0%nat then Raise ZeroDivisionError
  else
    Ok {| texts := ts; labels := ls; predictions := ps; confidences := cs;
          raw_accuracy := raw; ds_adjusted_accuracy := adj; errors := errs |}.

(** [evaluate_combined(config)], given the datasets that were loaded, in the
    order of their insertion into [datasets]. *)
Definition evaluate_combined (datasets : list (string * list (string * string)))
  : res CombinedResult :=
  results <- mapM (fun nd => r <- evaluate_dataset (snd nd) ;; Ok (fst nd, r))
                  datasets ;;
  let all_labels := flat_map (fun nr => labels (snd nr)) results in
  let all_predictions := flat_map (fun nr => predictions (snd nr)) results in
  let all_confidences := flat_map (fun nr => confidences (snd nr)) results in
  let all_texts := flat_map (fun nr => texts (snd nr)) results in
  let total := length all_labels in
  raw <- accuracy_score all_labels all_predictions ;;
  adj <- accuracy_score all_labels
           (adjusted_predictions threshold all_predictions
                                 all_confidences) ;;
  _ <- classification_report_check all_labels all_predictions ;;
  all_errors <- error_rows all_texts all_labels all_predictions
                           all_confidences ;;
  (* print(f"Total errors: ... ({len(all_errors)/total_samples*100:.1f}%)") *)
  if Nat.eqb total 0%nat then Raise ZeroDivisionError
  else
    Ok {| combined_raw_accuracy := raw;
          combined_adjusted_accuracy := adj;
          total_samples := total;
          total_errors := length all_errors;
          per_dataset :=
            map (fun nr => (fst nr, (raw_accuracy (snd nr),
                                      ds_adjusted_accuracy (snd nr))))
                results |}.

End CombinedEvaluation.

(** ** Reference runs

    [es_run] makes the calls that the epoch loop makes on an
    [EarlyStopping] instance: one call per epoch, in order, until a call
    returns [True].  [epoch_model] is the model after [n] epochs of training
    when no epoch stops the loop. *)
Fixpoint es_run (S : Type) (es : EarlyStopping S) (epochs : list (Q * S))
  : EarlyStopping S * bool :=
  match epochs with
  | [] => (es, false)
  | (score, snapshot) :: rest =>
      let '(es', stop) := EarlyStopping_call es score snapshot in
      if stop then (es', true) else es_run es' rest
  end.

Fixpoint epoch_model (cls : Classifier)
    (train_loader : nat -> list (batch (X cls))) (t0 : T cls) (n : nat)
  : res (T cls) :=
  match n with
  | O => Ok t0
  | S n' =>
      t <- epoch_model cls train_loader t0 n' ;;
      '(t', _, _) <- train_epoch cls t (train_loader n') ;;
      Ok t'
  end.

(** The early-stopping instance [es] holds the checkpoint of one of the
    epochs whose validation accuracies are [scores]: the snapshot is the
    [state_dict] of the model after epoch [e] (counted from 0), [best_score]
    is the validation accuracy of that model, no epoch up to [e] scored more
    (as double-precision numbers), and every later epoch scored less than
    [best_score + min_delta], the sum being the one of Python floats. *)
Definition holds_checkpoint (cls : Classifier) (config : Config)
    (train_loader : nat -> list (batch (X cls)))
    (val_loader : list (batch (X cls))) (t0 : T cls)
    (scores : list Q) (es : EarlyStopping (M cls)) : Prop :=
  exists e te ev,
    epoch_model cls train_loader t0 (S e) = Ok te /\
    evaluate cls config te val_loader = Ok ev /\
    best_score es = Some (accuracy ev) /\
    best_model_state es = Some (state_dict cls te) /\
    nth_error scores e = Some (accuracy ev) /\
    (forall a, In a (firstn (S e) scores) ->
               float64 a <= float64 (accuracy ev)) /\
    (forall i a, (e < i)%nat -> nth_error scores i = Some a ->
                 float64 a < add64 (accuracy ev) (min_delta es)).

(** [scores] are the validation accuracies of the successive epochs. *)
Definition scores_of_epochs (cls : Classifier) (config : Config)
    (train_loader : nat -> list (batch (X cls)))
    (val_loader : list (batch (X cls))) (t0 : T cls) (scores : list Q) : Prop :=
  forall i a, nth_error scores i = Some a ->
    exists ti evi,
      epoch_model cls train_loader t0 (S i) = Ok ti /\
      evaluate cls config ti val_loader = Ok evi /\
      accuracy evi = a.

(** The state of [train_fold] after [k] epochs. *)
Definition after_epochs (cls : Classifier) (config : Config)
    (train_loader : nat -> list (batch (X cls)))
    (val_loader : list (batch (X cls))) (t0 : T cls) (d : Q)
    (k : nat) (st : FoldState cls) : Prop :=
  epoch_model cls train_loader t0 k = Ok (model st) /\
  length (h_val_acc (history st)) = k /\
  min_delta (early_stopping st) = d /\
  scores_of_epochs cls config train_loader val_loader t0
                   (h_val_acc (history st)) /\
  ((k = 0%nat /\ best_score (early_stopping st) = None /\
    best_model_state (early_stopping st) = None) \/
   holds_checkpoint cls config train_loader val_loader t0
                    (h_val_acc (history st)) (early_stopping st)).

(** ** What the fold loop has established

    [done] are the splits already consumed by the loop of
    [run_cross_validation] and [st] is its state. *)
Section SelectionSpec.

Variable cls : Classifier.
Variable config : Config.
Variable loader_order : Z -> nat -> list (string * Z) -> list (string * Z).
Variable cv_df : list (string * Z).

(** Every fold of [done] was trained and its result stored at its
    position. *)
Definition folds_recorded (done : list (list nat * list nat))
    (st : CVState cls) : Prop :=
  length (fold_results st) = length done /\
  forall i tr va, nth_error done i = Some (tr, va) ->
    exists t h a,
      fold_run cls config loader_order cv_df (Z.of_nat i) tr va
        = Ok (t, h, Some a) /\
      nth_error (fold_results st) i
        = Some {| fold := (Z.of_nat i + 1)%Z; best_val_accuracy := Some a;
                  epochs_trained := length (h_train_loss h) |}.

(** No fold was selected. *)
Definition no_winner (st : CVState cls) : Prop :=
  best_fold st = (-1)%Z /\ cv_best_model_state st = None /\
  best_fold_acc st = 0 /\
  forall r a, In r (fold_results st) -> best_val_accuracy r = Some a ->
              a <= 0.

(** Fold [w] was selected: its accuracy is positive, at least that of every
    fold and above that of every earlier fold, and the kept parameters are
    those of its model. *)
Definition winner (done : list (list nat * list nat)) (st : CVState cls)
    (w : nat) : Prop :=
  best_fold st = Z.of_nat w /\ 0 < best_fold_acc st /\
  (exists tr va t h,
      nth_error done w = Some (tr, va) /\
      fold_run cls config loader_order cv_df (Z.of_nat w) tr va
        = Ok (t, h, Some (best_fold_acc st)) /\
      cv_best_model_state st = Some (state_dict cls t)) /\
  (forall i r a, nth_error (fold_results st) i = Some r ->
                 best_val_accuracy r = Some a ->
                 a <= best_fold_acc st /\
                 ((i < w)%nat -> a < best_fold_acc st)).

Definition selection (done : list (list nat * list nat)) (st : CVState cls)
  : Prop :=
  folds_recorded done st /\ (no_winner st \/ exists w, winner done st w).

End SelectionSpec.

(** ** A scripted classifier

    The concrete runs below use a classifier whose behaviour is written down
    in full: its state counts the optimisation steps taken so far, a
    tokenized text is the length of the text, and in state [t] it answers
    input [x] with the row [answer t x].  Training always predicts the given
    labels and reports loss [loss t]. *)
Definition one_hot (k : nat) : list Q :=
  map (fun i => if Nat.eqb i k then 1 else 0) (seq 0 6).

Definition scripted (loss : nat -> fl) (answer : nat -> nat -> list Q)
  : Classifier :=
  {| X := nat; T := nat; M := nat;
     tokenize := String.length;
     new_model := fun _ => 0%nat;
     train_step := fun t _ ls => (S t, loss t, ls);
     forward := fun t xs _ => (loss t, map (answer t) xs);
     state_dict := fun t => t;
     load_params := fun _ sd => sd |}.

(** A classifier that is equally unsure about every input. *)
Definition uniform_row : list Q := repeat (1 # 6) 6.

Definition unsure : Classifier :=
  scripted (fun _ => Finite 1) (fun _ _ => uniform_row).

Definition low_threshold_config : Config := {|
  NUM_LABELS := 6; BATCH_SIZE := 16; MAX_EPOCHS := 15;
  EARLY_STOPPING_PATIENCE := 3; N_FOLDS := 5;
  CONFIDENCE_THRESHOLD := 1 # 6; SEED := 42
|}.

Definition two_samples : list (batch nat) :=
  [ {| input_ids := [4; 7]%nat; label := [0; 1]%Z |} ].

(** A classifier that is right on the inputs below 1 and wrong on the
    others, whatever its state; on [half_right_val] its validation accuracy is
    0.5 in every epoch. *)
Definition stuck : Classifier :=
  scripted (fun _ => Finite 1)
           (fun _ x => if Nat.ltb x 1 then one_hot 0 else one_hot 1).

Definition half_right_val : list (batch nat) :=
  [ {| input_ids := [0; 1]%nat; label := [0; 0]%Z |} ].

Definition one_train_batch (epoch : nat) : list (batch nat) :=
  [ {| input_ids := [0; 1]%nat; label := [0; 0]%Z |} ].

Definition patience_2_config : Config := {|
  NUM_LABELS := 6; BATCH_SIZE := 16; MAX_EPOCHS := 15;
  EARLY_STOPPING_PATIENCE := 2; N_FOLDS := 5;
  CONFIDENCE_THRESHOLD := 7 # 10; SEED := 42
|}.

(** The validation scores 0.5, 0.5, 0.5, 0.5 of four epochs, each with the
    number of the epoch as its snapshot. *)
Definition four_halves : list (Q * nat) :=
  [ (1 # 2, 1%nat); (1 # 2, 2%nat); (1 # 2, 3%nat); (1 # 2, 4%nat) ].

(** A classifier whose validation accuracy on [val_2000] is 1000/2000 after
    the first epoch, 1001/2000 after the second and 1000/2000 afterwards: in
    state [t] it is right on the inputs below 1000, and in state 2 also on
    input 1000. *)
Definition plateau : Classifier :=
  scripted (fun _ => Finite 1)
           (fun t x => if Nat.ltb x (1000 + (if Nat.eqb t 2 then 1 else 0))
                       then one_hot 0 else one_hot 1).

Definition val_2000 : list (batch nat) :=
  [ {| input_ids := seq 0 2000; label := repeat 0%Z 2000 |} ].

(** A classifier whose validation accuracy on [val_1000] is 937/1000 after
    the first epoch and 938/1000 after every later one. *)
Definition creeping : Classifier :=
  scripted (fun _ => Finite 1)
           (fun t x => if Nat.ltb x (937 + (if Nat.eqb t 1 then 0 else 1))
                       then one_hot 0 else one_hot 1).

Definition val_1000 : list (batch nat) :=
  [ {| input_ids := seq 0 1000; label := repeat 0%Z 1000 |} ].

(** The classifier [stuck] with a non-finite loss in state 1, that is, in the
    validation pass of the first epoch and in the training pass of the
    second. *)
Definition diverging : Classifier :=
  scripted (fun t => if Nat.eqb t 1 then NonFinite else Finite 1)
           (fun _ x => if Nat.ltb x 1 then one_hot 0 else one_hot 1).

(** Small corpora and the settings of the concrete cross-validation runs:
    two folds, a generator that leaves every order as it is. *)
Definition no_shuffle (seed : Z) (k : nat) (l : list nat) : list nat := l.

Definition same_order (fold_no : Z) (n : nat) (l : list (string * Z))
  : list (string * Z) := l.

Definition two_folds_config : Config := {|
  NUM_LABELS := 6; BATCH_SIZE := 16; MAX_EPOCHS := 15;
  EARLY_STOPPING_PATIENCE := 3; N_FOLDS := 2;
  CONFIDENCE_THRESHOLD := 7 # 10; SEED := 42
|}.

Definition small_corpus : list (string * Z) :=
  [ ("a", 0); ("bb", 1); ("ccc", 0); ("dddd", 1) ]%string%Z.


(** A classifier that answers "unclear" to everything, and one that answers
    label 1 to the texts of even length and label 0 to the others, which is
    right on every row of [small_corpus]. *)
Definition always_unclear : Classifier :=
  scripted (fun _ => Finite 1) (fun _ _ => one_hot 5).

Definition by_length : Classifier :=
  scripted (fun _ => Finite 1)
           (fun _ x => if Nat.even x then one_hot 1 else one_hot 0).

(** Two test sets for the combined evaluation and a classifier that answers
    with the label whose id is the length of the text modulo 6.  It is right
    on 8 of the 10 rows of [dataset_A] and on all 5 rows of [dataset_B]. *)
Definition by_text : Classifier :=
  scripted (fun _ => Finite 1) (fun _ x => one_hot (x mod 6)).

Definition dataset_A : list (string * string) :=
  [ ("aaaaaa", "save"); ("a", "search"); ("aa", "reminder");
    ("aaa", "cancel_all"); ("aaaa", "cancel_specific"); ("aaaaa", "unclear");
    ("b", "search"); ("bb", "reminder");
    ("bbb", "save"); ("bbbb", "search") ]%string.

Definition dataset_B : list (string * string) :=
  [ ("c", "search"); ("cc", "reminder"); ("ccc", "cancel_all");
    ("cccc", "cancel_specific"); ("ccccc", "unclear") ]%string.

Definition two_datasets : list (string * list (string * string)) :=
  [ ("intent_test", dataset_A); ("adversarial_test", dataset_B) ]%string.

(** The numbers of right answers and of examples over a list of per-dataset
    results. *)
Definition pooled_correct (results : list DatasetResult) : nat :=
  list_sum (map (fun r => count_equal (labels r) (predictions r)) results).

Definition pooled_size (results : list DatasetResult) : nat :=
  list_sum (map (fun r => length (labels r)) results).

(** ** Further functions of the scripts *)

(** [IntentClassifier.predict_with_confidence(input_ids, attention_mask)]:
    the predictions, their confidences and the probability rows. *)
Definition predict_with_confidence (cls : Classifier) (t : T cls)
    (xs : list (X cls)) : list Z * list Q * list (list Q) :=
  let '(_, probs) := forward cls t xs [] in
  let cp := map torch_max probs in
  (map snd cp, map fst cp, probs).

(** The losses that the batches of a loader report to [evaluate]. *)
Definition batch_losses (cls : Classifier) (t : T cls)
    (dataloader : list (batch (X cls))) : list fl :=
  map (fun b => fst (forward cls t (input_ids b) (label b))) dataloader.

(** The losses that the successive steps of [train_epoch] report. *)
Fixpoint step_losses (cls : Classifier) (t : T cls)
    (dataloader : list (batch (X cls))) : list fl :=
  match dataloader with
  | [] => []
  | b :: rest =>
      let '(t', loss, _) := train_step cls t (input_ids b) (label b) in
      loss :: step_losses cls t' rest
  end.

(** ** What the epoch loop keeps

    [st] is the state of [train_fold] after [k] epochs, with patience [p] and
    [min_delta] [d]. *)

(** The five columns of the history have one entry per epoch, the validation
    accuracies lie in [0,1], and [best_val_acc] is their running maximum,
    started at 0. *)
Definition fold_shape (cls : Classifier) (k : nat) (st : FoldState cls) : Prop :=
  let h := history st in
  length (h_train_loss h) = k /\ length (h_train_acc h) = k /\
  length (h_val_loss h) = k /\ length (h_val_acc h) = k /\
  length (h_val_acc_adjusted h) = k /\
  Forall (fun a => 0 <= a <= 1) (h_val_acc h) /\
  0 <= best_val_acc st /\
  (forall a, In a (h_val_acc h) -> a <= best_val_acc st) /\
  (best_val_acc st = 0 \/ In (best_val_acc st) (h_val_acc h)).

(** Either no epoch has run, or the snapshot was taken in epoch [e] (counted
    from 0) with score [s], no epoch up to [e] scored more as a Python float,
    every later epoch scored below the Python float [s + d], and the counter
    is the number of epochs run since. *)
Definition snapshot_timing (cls : Classifier) (d : Q) (k : nat)
    (st : FoldState cls) : Prop :=
  let h := history st in
  let es := early_stopping st in
  (k = 0%nat /\ best_score es = None /\ best_model_state es = None) \/
  exists e s,
    nth_error (h_val_acc h) e = Some s /\
    best_score es = Some s /\
    best_model_state es <> None /\
    Z.of_nat k = (Z.of_nat e + 1 + counter es)%Z /\
    (0 <= counter es)%Z /\
    (forall a, In a (firstn (S e) (h_val_acc h)) ->
               float64 a <= float64 s) /\
    (forall i a, (e < i)%nat -> nth_error (h_val_acc h) i = Some a ->
                 float64 a < add64 s d).

(** The loop goes on: the instance has not stopped and its counter is below
    the patience, or 0. *)
Definition still_running (cls : Classifier) (p : Z) (d : Q)
    (st : FoldState cls) : Prop :=
  es_between p d (early_stopping st) /\
  (counter (early_stopping st) = 0%Z \/ (counter (early_stopping st) < p)%Z).

(** The history of the three epochs that [stuck] runs with patience 2, and a
    configuration that asks for no epoch at all. *)
Definition stuck_history : History :=
  {| h_train_loss := [Finite 1; Finite 1; Finite 1];
     h_train_acc := [2 # 2; 2 # 2; 2 # 2];
     h_val_loss := [Finite 1; Finite 1; Finite 1];
     h_val_acc := [1 # 2; 1 # 2; 1 # 2];
     h_val_acc_adjusted := [1 # 2; 1 # 2; 1 # 2] |}.

Definition no_epochs_config : Config := {|
  NUM_LABELS := 6; BATCH_SIZE := 16; MAX_EPOCHS := 0;
  EARLY_STOPPING_PATIENCE := 3; N_FOLDS := 5;
  CONFIDENCE_THRESHOLD := 7 # 10; SEED := 42
|}.

Definition no_batches (epoch : nat) : list (batch nat) := [].

(** [best] is the first maximum of the entries seen so far, [pre]. *)
Definition first_max (pre : list Q) (best : Q * Z) : Prop :=
  (0 <= snd best < Z.of_nat (length pre))%Z /\
  nth_error pre (Z.to_nat (snd best)) = Some (fst best) /\
  Forall (fun x => x <= fst best) pre /\
  (forall k x, (k < Z.to_nat (snd best))%nat -> nth_error pre k = Some x ->
               x < fst best).

(** What [run_cross_validation] has recorded after [n] folds: one result and
    one history per fold, the results numbered from 1, each with the number
    of epochs of its history and an accuracy between 0 and 1; the best fold
    is one of them or -1, and a model state is kept exactly when a fold was
    selected. *)
Definition cv_shape (cls : Classifier) (config : Config) (n : nat)
    (st : CVState cls) : Prop :=
  length (fold_results st) = n /\ length (all_histories st) = n /\
  (forall i r, nth_error (fold_results st) i = Some r ->
     fold r = (Z.of_nat i + 1)%Z /\
     exists h a,
       nth_error (all_histories st) i = Some h /\
       epochs_trained r = length (h_train_loss h) /\
       (1 <= epochs_trained r <= Z.to_nat (MAX_EPOCHS config))%nat /\
       best_val_accuracy r = Some a /\ 0 <= a <= 1) /\
  (-1 <= best_fold st < Z.of_nat n)%Z /\
  0 <= best_fold_acc st <= 1 /\
  (best_fold st = (-1)%Z <-> cv_best_model_state st = None).

(** ** The error breakdown of [evaluate_combined]

<<
    error_types = {}
    for e in all_errors:
        key = f"{e['true']} -> {e['predicted']}"
        if key not in error_types:
            error_types[key] = []
        error_types[key].append(e)
    for key, errors in sorted(error_types.items(), key=lambda x: -len(x[1])):
>>
    The dictionary is a list of entries in the order of their insertion. *)
Definition error_key (e : ErrorRow) : string :=
  (e_true e ++ " -> " ++ e_predicted e)%string.

(** [error_types[key].append(e)], with a new entry at the end for a new
    key. *)
Fixpoint append_error (d : list (string * list ErrorRow)) (key : string)
    (e : ErrorRow) : list (string * list ErrorRow) :=
  match d with
  | [] => [(key, [e])]
  | (k, es) :: d' =>
      if String.eqb key k then (k, es ++ [e]) :: d'
      else (k, es) :: append_error d' key e
  end.

Definition error_types (all_errors : list ErrorRow)
  : list (string * list ErrorRow) :=
  fold_left (fun d e => append_error d (error_key e) e) all_errors [].

(** [sorted(items, key=lambda x: -len(x[1]))]: the sort is stable, so an
    entry goes before the entries that are not longer and were inserted
    after it. *)
Fixpoint insert_by_size (x : string * list ErrorRow)
    (l : list (string * list ErrorRow)) : list (string * list ErrorRow) :=
  match l with
  | [] => [x]
  | y :: l' =>
      if (length (snd y) <=? length (snd x))%nat then x :: y :: l'
      else y :: insert_by_size x l'
  end.

Definition sorted_by_size (items : list (string * list ErrorRow))
  : list (string * list ErrorRow) :=
  fold_right insert_by_size [] items.

Definition error_breakdown (all_errors : list ErrorRow)
  : list (string * list ErrorRow) :=
  sorted_by_size (error_types all_errors).

(** ** The test evaluation of the training script

    [evaluate_on_test(model, test_df, tokenizer, config, logger)]: the test
    rows in their order ([shuffle=False]), one evaluation pass, and the
    classification report with the six label names.  The per-class metrics
    and the confusion matrix are scikit-learn's and are left out of the
    result. *)
Record TestResult : Type := {
  test_accuracy : Q;
  test_accuracy_adjusted : Q;
  test_predictions : list Z;
  test_labels : list Z;
  test_confidences : list Q
}.

Definition evaluate_on_test (cls : Classifier) (config : Config)
    (model : T cls) (test_df : list (string * Z)) : res TestResult :=
  test_loader <- DataLoader cls test_df (BATCH_SIZE config) (@in_order _) ;;
  ev <- evaluate cls config model (test_loader 0%nat) ;;
  _ <- classification_report_check (all_labels ev) (all_preds ev) ;;
  Ok {| test_accuracy := accuracy ev;
        test_accuracy_adjusted := adjusted_accuracy ev;
        test_predictions := all_preds ev;
        test_labels := all_labels ev;
        test_confidences := all_confidences ev |}.

(** A test set with one row of each label; [by_text] is wrong on the last
    one. *)
Definition six_test_rows : list (string * Z) :=
  [ ("aaaaaa"%string, 0%Z); ("a"%string, 1%Z); ("aa"%string, 2%Z);
    ("aaa"%string, 3%Z); ("aaaa"%string, 4%Z); ("aaaaab"%string, 5%Z) ].

(** Three errors of two kinds, for the error breakdown. *)
Definition three_errors : list ErrorRow :=
  [ {| e_text := "a"%string; e_true := "search"%string;
       e_predicted := "save"%string; e_confidence := 9 # 10 |};
    {| e_text := "b"%string; e_true := "save"%string;
       e_predicted := "search"%string; e_confidence := 8 # 10 |};
    {| e_text := "c"%string; e_true := "save"%string;
       e_predicted := "search"%string; e_confidence := 6 # 10 |} ].

(** * Properties *)

(** ** Comparison of floats *)

Lemma Qltb_lt (a b : Q) : Qltb a b = true <-> a < b.
Proof.
  unfold Qltb. rewrite negb_true_iff.
  split; intro H.
  - apply Qnot_le_lt. intro Hle. apply Qle_bool_iff in Hle. congruence.
  - destruct (Qle_bool b a) eqn:E; [|reflexivity].
    apply Qle_bool_iff in E. exfalso. exact (Qlt_not_le _ _ H E).
Qed.

Lemma Qltb_ge (a b : Q) : Qltb a b = false <-> b <= a.
Proof.
  unfold Qltb. rewrite negb_false_iff. apply Qle_bool_iff.
Qed.

(** ** Rounding *)

Lemma pow2_pos (k : Z) : 0 < pow2 k.
Proof. apply Qpower_0_lt. reflexivity. Qed.

Lemma pow2_add (a b : Z) : pow2 (a + b) == pow2 a * pow2 b.
Proof. apply Qpower_plus. discriminate. Qed.

Lemma pow2_le (a b : Z) : (a <= b)%Z -> pow2 a <= pow2 b.
Proof. intro H. apply Qpower_le_compat_l; [exact H|discriminate]. Qed.

Lemma pow2_lt (a b : Z) : (a < b)%Z -> pow2 a < pow2 b.
Proof. intro H. apply Qpower_lt_compat_l; [exact H|reflexivity]. Qed.

Lemma pow2_Z (a : Z) : (0 <= a)%Z -> pow2 a == inject_Z (2 ^ a).
Proof. intro H. unfold pow2. now rewrite Zpower_Qpower. Qed.

Lemma pow2_div (x : Q) (e : Z) : x / pow2 e * pow2 e == x.
Proof.
  unfold Qdiv. rewrite <- Qmult_assoc, (Qmult_comm (/ pow2 e)).
  rewrite Qmult_inv_r, Qmult_1_r; [reflexivity|].
  intro H. pose proof (pow2_pos e) as Hp. rewrite H in Hp. discriminate Hp.
Qed.

Lemma pow2_div_le (x y : Q) (e : Z) : x <= y -> x / pow2 e <= y / pow2 e.
Proof.
  intro H. unfold Qdiv. apply Qmult_le_compat_r; [exact H|].
  apply Qlt_le_weak, Qinv_lt_0_compat, pow2_pos.
Qed.

Lemma pow2_div_pow2 (a e : Z) : pow2 a / pow2 e == pow2 (a - e).
Proof.
  unfold Z.sub. rewrite pow2_add. unfold pow2 at 4. rewrite Qpower_opp.
  reflexivity.
Qed.

Lemma flog2_spec (x : Q) :
  0 < x -> pow2 (flog2 x) <= x /\ x < pow2 (flog2 x + 1).
Proof.
  intro Hx. destruct x as [n d]. unfold flog2. cbn [Qnum Qden].
  assert (Hn : (0 < n)%Z) by (unfold Qlt in Hx; cbn in Hx; lia).
  destruct (Z.log2_spec n Hn) as [Hn1 Hn2].
  destruct (Z.log2_spec (Zpos d) (Pos2Z.is_pos d)) as [Hd1 Hd2].
  set (ln := Z.log2 n) in *. set (ld := Z.log2 (Zpos d)) in *.
  assert (Hln : (0 <= ln)%Z) by apply Z.log2_nonneg.
  assert (Hld : (0 <= ld)%Z) by apply Z.log2_nonneg.
  assert (Hxd : (n # d) * inject_Z (Zpos d) == inject_Z n).
  { unfold Qeq, Qmult, inject_Z. cbn [Qnum Qden]. rewrite Pos.mul_1_r. lia. }
  assert (Hdpos : 0 < inject_Z (Zpos d)) by reflexivity.
  assert (Qn1 : pow2 ln <= inject_Z n)
    by (rewrite pow2_Z by exact Hln; rewrite <- Zle_Qle; exact Hn1).
  assert (Qn2 : inject_Z n < pow2 (ln + 1))
    by (rewrite pow2_Z by lia; rewrite <- Zlt_Qlt; exact Hn2).
  assert (Qd1 : pow2 ld <= inject_Z (Zpos d))
    by (rewrite pow2_Z by exact Hld; rewrite <- Zle_Qle; exact Hd1).
  assert (Qd2 : inject_Z (Zpos d) < pow2 (ld + 1))
    by (rewrite pow2_Z by lia; rewrite <- Zlt_Qlt; exact Hd2).
  assert (Hup : (n # d) < pow2 (ln - ld + 1)).
  { apply (Qmult_lt_r _ _ (pow2 ld) (pow2_pos ld)).
    rewrite <- pow2_add. replace (ln - ld + 1 + ld)%Z with (ln + 1)%Z by lia.
    eapply Qle_lt_trans; [|exact Qn2]. rewrite <- Hxd.
    apply Qmult_le_l; [exact Hx|exact Qd1]. }
  assert (Hlow : pow2 (ln - ld - 1) <= (n # d)).
  { apply (Qmult_le_r _ _ (pow2 (ld + 1)) (pow2_pos (ld + 1))).
    rewrite <- pow2_add. replace (ln - ld - 1 + (ld + 1))%Z with ln by lia.
    eapply Qle_trans; [exact Qn1|]. rewrite <- Hxd.
    apply Qmult_le_l; [exact Hx|]. apply Qlt_le_weak. exact Qd2. }
  destruct (Qle_bool (pow2 (ln - ld)) (n # d)) eqn:E.
  - apply Qle_bool_iff in E. split; [exact E|exact Hup].
  - split; [exact Hlow|].
    replace (ln - ld - 1 + 1)%Z with (ln - ld)%Z by lia.
    apply Qnot_le_lt. intro H. apply Qle_bool_iff in H. congruence.
Qed.

Lemma flog2_unique (x : Q) (k : Z) :
  pow2 k <= x -> x < pow2 (k + 1) -> flog2 x = k.
Proof.
  intros H1 H2.
  assert (Hx : 0 < x) by (eapply Qlt_le_trans; [apply pow2_pos|exact H1]).
  destruct (flog2_spec Hx) as [S1 S2].
  destruct (Z.lt_trichotomy (flog2 x) k) as [Hlt|[Heq|Hgt]]; [|exact Heq|].
  - exfalso. apply (Qlt_irrefl x).
    eapply Qlt_le_trans; [exact S2|].
    eapply Qle_trans; [|exact H1]. apply pow2_le. lia.
  - exfalso. apply (Qlt_irrefl x).
    eapply Qlt_le_trans; [exact H2|].
    eapply Qle_trans; [|exact S1]. apply pow2_le. lia.
Qed.

Lemma flog2_mono (x y : Q) : 0 < x -> x <= y -> (flog2 x <= flog2 y)%Z.
Proof.
  intros Hx Hxy.
  assert (Hy : 0 < y) by (eapply Qlt_le_trans; eassumption).
  destruct (flog2_spec Hx) as [X1 _]. destruct (flog2_spec Hy) as [_ Y2].
  destruct (Z.le_gt_cases (flog2 x) (flog2 y)) as [H|H]; [exact H|].
  exfalso. apply (Qlt_irrefl y).
  eapply Qlt_le_trans; [exact Y2|].
  eapply Qle_trans; [|exact Hxy].
  eapply Qle_trans; [|exact X1]. apply pow2_le. lia.
Qed.

Lemma rne_bounds (x : Q) :
  (Qfloor x <= rne x <= Qfloor x + 1)%Z.
Proof.
  unfold rne. destruct (Qcompare _ _); [destruct (Z.even _)| |]; lia.
Qed.

Lemma rne_mono (x y : Q) : x <= y -> (rne x <= rne y)%Z.
Proof.
  intro Hxy. pose proof (Qfloor_resp_le x y Hxy) as Hf.
  destruct (Z.eq_dec (Qfloor x) (Qfloor y)) as [Heq|Hne].
  - unfold rne. rewrite <- Heq.
    destruct (Qcompare_spec (x - inject_Z (Qfloor x)) (1 # 2)) as [Hx|Hx|Hx];
      destruct (Qcompare_spec (y - inject_Z (Qfloor x)) (1 # 2)) as [Hy|Hy|Hy];
      try destruct (Z.even (Qfloor x)); try lia; exfalso; lra.
  - pose proof (rne_bounds x). pose proof (rne_bounds y). lia.
Qed.

Lemma rne_Z (k : Z) : rne (inject_Z k) = k.
Proof.
  unfold rne. rewrite Qfloor_Z.
  destruct (Qcompare_spec (inject_Z k - inject_Z k) (1 # 2)) as [H|H|H];
    [exfalso; lra|reflexivity|exfalso; lra].
Qed.

Lemma rne_eq (x y : Q) : x == y -> rne x = rne y.
Proof.
  intro H. apply Z.le_antisymm; apply rne_mono; rewrite H; apply Qle_refl.
Qed.

Lemma rne_nonneg (x : Q) : 0 <= x -> (0 <= rne x)%Z.
Proof. intro H. rewrite <- (rne_Z 0). now apply rne_mono. Qed.

Section Rounding.

Variable prec emin : Z.
Hypothesis prec_pos : (1 <= prec)%Z.

Local Abbreviation ex x := (Z.max emin (flog2 x - (prec - 1))).

Lemma round_pos_nonneg (x : Q) : 0 < x -> 0 <= round_pos prec emin x.
Proof.
  intro Hx. unfold round_pos. apply Qmult_le_0_compat.
  - change 0 with (inject_Z 0). rewrite <- Zle_Qle. apply rne_nonneg.
    apply Qle_shift_div_l; [apply pow2_pos|]. rewrite Qmult_0_l.
    now apply Qlt_le_weak.
  - apply Qlt_le_weak, pow2_pos.
Qed.

(** A number at least [2^k] rounds to at least [2^k], when [2^k] is on the
    grid of exponent [e]. *)
Lemma scaled_ge (x : Q) (e k : Z) :
  (e <= k)%Z -> pow2 k <= x -> pow2 k <= inject_Z (rne (x / pow2 e)) * pow2 e.
Proof.
  intros Hek Hx.
  assert (H : (2 ^ (k - e) <= rne (x / pow2 e))%Z).
  { rewrite <- (rne_Z (2 ^ (k - e))). apply rne_mono.
    rewrite <- pow2_Z by lia. rewrite <- pow2_div_pow2.
    now apply pow2_div_le. }
  rewrite Zle_Qle in H. rewrite <- pow2_Z in H by lia.
  apply (Qmult_le_compat_r _ _ (pow2 e)) in H;
    [|apply Qlt_le_weak, pow2_pos].
  rewrite <- pow2_add in H. replace (k - e + e)%Z with k in H by lia.
  exact H.
Qed.

Lemma scaled_le (x : Q) (e k : Z) :
  (e <= k)%Z -> x <= pow2 k -> inject_Z (rne (x / pow2 e)) * pow2 e <= pow2 k.
Proof.
  intros Hek Hx.
  assert (H : (rne (x / pow2 e) <= 2 ^ (k - e))%Z).
  { rewrite <- (rne_Z (2 ^ (k - e))). apply rne_mono.
    rewrite <- pow2_Z by lia. rewrite <- pow2_div_pow2.
    now apply pow2_div_le. }
  rewrite Zle_Qle in H. rewrite <- pow2_Z in H by lia.
  apply (Qmult_le_compat_r _ _ (pow2 e)) in H;
    [|apply Qlt_le_weak, pow2_pos].
  rewrite <- pow2_add in H. replace (k - e + e)%Z with k in H by lia.
  exact H.
Qed.

Lemma round_pos_mono (x y : Q) :
  0 < x -> x <= y -> round_pos prec emin x <= round_pos prec emin y.
Proof.
  intros Hx Hxy.
  assert (Hy : 0 < y) by (eapply Qlt_le_trans; eassumption).
  pose proof (flog2_mono Hx Hxy) as Hlog.
  destruct (flog2_spec Hx) as [_ X2]. destruct (flog2_spec Hy) as [Y1 _].
  unfold round_pos.
  destruct (Z.eq_dec (ex x) (ex y)) as [Heq|Hne].
  - rewrite Heq. apply Qmult_le_compat_r; [|apply Qlt_le_weak, pow2_pos].
    rewrite <- Zle_Qle. apply rne_mono. now apply pow2_div_le.
  - assert (Hlt : (ex x < ex y)%Z) by lia.
    apply Qle_trans with (pow2 (flog2 y)).
    + apply scaled_le; [lia|].
      apply Qlt_le_weak. eapply Qlt_le_trans; [exact X2|]. apply pow2_le. lia.
    + apply scaled_ge; [lia|exact Y1].
Qed.

Lemma round_mono (x y : Q) : x <= y -> round prec emin x <= round prec emin y.
Proof.
  intro Hxy. unfold round.
  destruct (Qcompare_spec x 0) as [Hx|Hx|Hx];
    destruct (Qcompare_spec y 0) as [Hy|Hy|Hy]; try (exfalso; lra).
  - apply Qle_refl.
  - now apply round_pos_nonneg.
  - assert (H : 0 <= round_pos prec emin (- x))
      by (apply round_pos_nonneg; lra). lra.
  - assert (H : round_pos prec emin (- y) <= round_pos prec emin (- x))
      by (apply round_pos_mono; lra). lra.
  - assert (H1 : 0 <= round_pos prec emin (- x))
      by (apply round_pos_nonneg; lra).
    assert (H2 : 0 <= round_pos prec emin y) by now apply round_pos_nonneg.
    lra.
  - now apply round_pos_mono.
Qed.

End Rounding.

Lemma flog2_scaled (m e : Z) :
  (0 < m)%Z -> flog2 (inject_Z m * pow2 e) = (Z.log2 m + e)%Z.
Proof.
  intro Hm. destruct (Z.log2_spec m Hm) as [H1 H2].
  pose proof (Z.log2_nonneg m) as Ha.
  apply flog2_unique.
  - rewrite pow2_add. apply Qmult_le_compat_r; [|apply Qlt_le_weak, pow2_pos].
    rewrite pow2_Z by exact Ha. now rewrite <- Zle_Qle.
  - replace (Z.log2 m + e + 1)%Z with (Z.log2 m + 1 + e)%Z by lia.
    rewrite pow2_add. apply Qmult_lt_compat_r; [apply pow2_pos|].
    rewrite pow2_Z by lia. now rewrite <- Zlt_Qlt.
Qed.

Lemma scaled_exact (m e : Z) : rne (inject_Z m * pow2 e / pow2 e) = m.
Proof.
  rewrite <- (rne_Z m) at 2. apply rne_eq.
  unfold Qdiv. rewrite <- Qmult_assoc, Qmult_inv_r, Qmult_1_r; [reflexivity|].
  intro H. pose proof (pow2_pos e) as Hp. rewrite H in Hp. discriminate Hp.
Qed.

Section Idempotence.

Variable prec emin : Z.
Hypothesis prec_pos : (1 <= prec)%Z.

Lemma round_pos_idem (x : Q) :
  0 < x -> 0 < round_pos prec emin x ->
  round_pos prec emin (round_pos prec emin x) == round_pos prec emin x.
Proof.
  intros Hx Hr. destruct (flog2_spec Hx) as [X1 X2].
  unfold round_pos at 2 3. unfold round_pos in Hr.
  set (e := Z.max emin (flog2 x - (prec - 1))) in *.
  set (m := rne (x / pow2 e)) in *.
  assert (Hm : (0 < m)%Z).
  { destruct (Z.lt_ge_cases 0 m) as [H|H]; [exact H|exfalso].
    apply (Qlt_irrefl 0). eapply Qlt_le_trans; [exact Hr|].
    rewrite <- (Qmult_0_l (pow2 e)).
    apply Qmult_le_compat_r; [|apply Qlt_le_weak, pow2_pos].
    change 0 with (inject_Z 0). now rewrite <- Zle_Qle. }
  assert (Hup : (m <= 2 ^ prec)%Z).
  { assert (H : inject_Z m * pow2 e <= pow2 (prec + e)).
    { apply scaled_le; [lia|]. apply Qlt_le_weak.
      eapply Qlt_le_trans; [exact X2|]. apply pow2_le. lia. }
    rewrite pow2_add in H. apply Qmult_le_r in H; [|apply pow2_pos].
    rewrite pow2_Z in H by lia. now rewrite <- Zle_Qle in H. }
  assert (Hlow : (emin < e)%Z -> (2 ^ (prec - 1) <= m)%Z).
  { intro He.
    assert (H : pow2 (prec - 1 + e) <= inject_Z m * pow2 e).
    { apply scaled_ge; [lia|].
      replace (prec - 1 + e)%Z with (flog2 x) by lia. exact X1. }
    rewrite pow2_add in H. apply Qmult_le_r in H; [|apply pow2_pos].
    rewrite pow2_Z in H by lia. now rewrite <- Zle_Qle in H. }
  destruct (Z.log2_spec m Hm) as [A1 A2].
  pose proof (Z.log2_nonneg m) as A0.
  unfold round_pos. rewrite (flog2_scaled e Hm).
  destruct (Z.eq_dec m (2 ^ prec)) as [Htop|Htop].
  - (* the mantissa has reached the next power of two *)
    assert (Ha : Z.log2 m = prec) by (rewrite Htop; apply Z.log2_pow2; lia).
    rewrite Ha. replace (Z.max emin (prec + e - (prec - 1))) with (e + 1)%Z
      by lia.
    assert (Hq : inject_Z m * pow2 e / pow2 (e + 1)
                 == inject_Z (2 ^ (prec - 1))).
    { rewrite Htop, <- !pow2_Z by lia.
      rewrite <- pow2_add, pow2_div_pow2. apply Qpower_comp; [reflexivity|].
      lia. }
    rewrite (rne_eq Hq), rne_Z, Htop, <- !pow2_Z by lia.
    rewrite <- !pow2_add. apply Qpower_comp; [reflexivity|lia].
  - assert (Ha : (Z.log2 m < prec)%Z).
    { apply Z.log2_lt_pow2; lia. }
    assert (He : Z.max emin (Z.log2 m + e - (prec - 1)) = e).
    { destruct (Z.eq_dec e emin) as [E|E]; [lia|].
      assert (H : (2 ^ (prec - 1) <= m)%Z) by (apply Hlow; lia).
      assert (Hb : (prec - 1 <= Z.log2 m)%Z).
      { apply Z.log2_le_pow2; [exact Hm|exact H]. }
      lia. }
    rewrite He, scaled_exact. reflexivity.
Qed.

Lemma round_pos_zero (x : Q) :
  0 < x -> ~ 0 < round_pos prec emin x -> round_pos prec emin x == 0.
Proof.
  intros Hx Hr. pose proof (round_pos_nonneg prec emin Hx) as H. lra.
Qed.

Lemma flog2_eq (x y : Q) : 0 < x -> x == y -> flog2 x = flog2 y.
Proof.
  intros Hx E. destruct (flog2_spec Hx) as [H1 H2].
  symmetry. apply flog2_unique; rewrite <- E; assumption.
Qed.

Lemma round_pos_eq (x y : Q) :
  0 < x -> x == y -> round_pos prec emin x = round_pos prec emin y.
Proof.
  intros Hx E. unfold round_pos. rewrite <- (flog2_eq Hx E).
  f_equal. f_equal. apply rne_eq. unfold Qdiv.
  apply Qmult_comp; [exact E|reflexivity].
Qed.

Lemma round_eq (x y : Q) : x == y -> round prec emin x = round prec emin y.
Proof.
  intro E. unfold round.
  assert (Hc : (x ?= 0) = (y ?= 0)) by (rewrite E; reflexivity).
  rewrite <- Hc.
  destruct (Qcompare_spec x 0) as [H|H|H].
  - reflexivity.
  - f_equal. apply round_pos_eq; [lra|now rewrite E].
  - now apply round_pos_eq.
Qed.

Lemma round_idem (x : Q) :
  round prec emin (round prec emin x) == round prec emin x.
Proof.
  assert (Hpos : forall y, 0 < y ->
            round prec emin (round_pos prec emin y) == round_pos prec emin y).
  { intros y Hy. unfold round at 1.
    destruct (Qcompare_spec (round_pos prec emin y) 0) as [H|H|H].
    - now rewrite H.
    - pose proof (round_pos_nonneg prec emin Hy). exfalso. lra.
    - now apply round_pos_idem. }
  unfold round at 2 3.
  destruct (Qcompare_spec x 0) as [H|H|H].
  - reflexivity.
  - assert (Hy : 0 < - x) by lra.
    pose proof (round_pos_nonneg prec emin Hy) as Hn.
    specialize (Hpos _ Hy).
    unfold round at 1.
    destruct (Qcompare_spec (- round_pos prec emin (- x)) 0) as [E|E|E].
    + now rewrite E.
    + apply Qopp_comp.
      rewrite (@round_pos_eq (- - round_pos prec emin (- x))
                             (round_pos prec emin (- x)));
        [|lra|apply Qopp_involutive].
      apply round_pos_idem; [exact Hy|lra].
    + exfalso. lra.
  - now apply Hpos.
Qed.

End Idempotence.

Lemma float64_mono (x y : Q) : x <= y -> float64 x <= float64 y.
Proof. apply round_mono. lia. Qed.

Lemma float32_mono (x y : Q) : x <= y -> float32 x <= float32 y.
Proof. apply round_mono. lia. Qed.

Lemma float64_idem (x : Q) : float64 (float64 x) == float64 x.
Proof. apply round_idem. lia. Qed.

Lemma float32_idem (x : Q) : float32 (float32 x) == float32 x.
Proof. apply round_idem. lia. Qed.

Lemma float64_nonneg (x : Q) : 0 <= x -> 0 <= float64 x.
Proof. intro H. change 0 with (float64 0) at 1. now apply float64_mono. Qed.


(** Adding a number that is not negative does not lower a Python float. *)
Lemma add64_ge (a d : Q) : 0 <= d -> float64 a <= add64 a d.
Proof.
  intro Hd. unfold add64. rewrite <- (float64_idem a) at 1.
  apply float64_mono. pose proof (float64_nonneg Hd). lra.
Qed.

(** ** The confidence-threshold fallback *)

Lemma below_threshold32_spec (conf threshold : Q) :
  below_threshold32 conf threshold = true
  <-> float32 conf < float32 (float64 threshold).
Proof. apply Qltb_lt. Qed.



Lemma adjust_not_below (threshold : Q) (pred : Z) (conf : Q) :
  float32 (float64 threshold) <= float32 conf ->
  adjust threshold pred conf = pred.
Proof.
  intro H. unfold adjust, below_threshold32. apply Qltb_ge in H. now rewrite H.
Qed.



(** A threshold of at most [bound], rounded twice, is at most [bound] rounded
    twice, which is at most the single-precision value of every confidence
    of at least [bound] when rounding [bound] twice does not raise it above
    its single-precision value. *)
Lemma adjust_above_bound (bound threshold : Q) (pred : Z) (conf : Q) :
  float32 (float64 bound) <= float32 bound ->
  threshold <= bound -> bound <= conf ->
  adjust threshold pred conf = pred.
Proof.
  intros Hb Ht Hc. apply adjust_not_below.
  apply Qle_trans with (float32 (float64 bound)).
  - apply float32_mono, float64_mono, Ht.
  - eapply Qle_trans; [exact Hb|]. apply float32_mono, Hc.
Qed.

Lemma adjusted_preds_pass (bound threshold : Q) (confs : list Q) :
  float32 (float64 bound) <= float32 bound ->
  threshold <= bound ->
  Forall (fun c => bound <= c) confs ->
  forall preds, adjusted_preds threshold preds confs = map fst (combine preds confs).
Proof.
  intros Hb Ht. unfold adjusted_preds.
  induction 1 as [|c confs Hc _ IH]; intros [|p preds]; simpl; try reflexivity.
  rewrite (adjust_above_bound p Hb Ht Hc). f_equal. apply IH.
Qed.

Lemma adjust_unclear_mono (t1 t2 : Q) (pred : Z) (conf : Q) :
  t1 <= t2 ->
  adjust t1 pred conf = UNCLEAR -> adjust t2 pred conf = UNCLEAR.
Proof.
  intros Ht. unfold adjust.
  destruct (below_threshold32 conf t1) eqn:E1.
  - intros _. apply below_threshold32_spec in E1.
    assert (H2 : float32 conf < float32 (float64 t2)).
    { eapply Qlt_le_trans; [exact E1|]. apply float32_mono, float64_mono, Ht. }
    apply below_threshold32_spec in H2. now rewrite H2.
  - intros ->. now destruct (below_threshold32 conf t2).
Qed.





(** C8. For fixed predictions and confidences, raising the threshold never
    lowers the number of final labels equal to [UNCLEAR]. *)
Theorem unclear_count_monotone (t1 t2 : Q) (preds : list Z) (confs : list Q) :
  t1 <= t2 ->
  (count_unclear (adjusted_preds t1 preds confs)
   <= count_unclear (adjusted_preds t2 preds confs))%nat.
Proof.
  intro Ht. unfold count_unclear, adjusted_preds.
  assert (Hf : forall z, Z.eqb UNCLEAR z = true -> z = UNCLEAR)
    by (intros z Hz; apply Z.eqb_eq in Hz; now symmetry).
  assert (Hu : Z.eqb UNCLEAR UNCLEAR = true) by reflexivity.
  revert Hf Hu. generalize (Z.eqb UNCLEAR). intros f Hf Hu.
  induction (combine preds confs) as [|[p c] l IH]; simpl; [lia|].
  destruct (f (adjust t1 p c)) eqn:E1.
  - apply Hf in E1.
    rewrite (adjust_unclear_mono p c Ht E1), Hu. simpl. lia.
  - destruct (f (adjust t2 p c)); simpl; lia.
Qed.

Lemma unclear_count_monotone_witness :
  (count_unclear (adjusted_preds (1 # 2) [0; 5; 1]%Z [3 # 5; 9 # 10; 2 # 5])
   <= count_unclear (adjusted_preds (7 # 10) [0; 5; 1]%Z [3 # 5; 9 # 10; 2 # 5]))%nat.
Proof.
  apply (@unclear_count_monotone (1 # 2) (7 # 10)). discriminate.
Defined.

(** ** Confidence of a softmax row *)

Lemma torch_max_from_bound (rest : list Q) : forall (i : Z) (best : Q * Z),
  fst best <= fst (torch_max_from i best rest) /\
  Forall (fun p => p <= fst (torch_max_from i best rest)) rest.
Proof.
  induction rest as [|p rest IH]; intros i best; simpl.
  - split; [apply Qle_refl|constructor].
  - destruct (IH (i + 1)%Z (if Qltb (fst best) p then (p, i) else best))
      as [Hb Hr].
    destruct (Qltb (fst best) p) eqn:E; simpl in Hb.
    + apply Qltb_lt in E. split.
      * eapply Qle_trans; [apply Qlt_le_weak; exact E|exact Hb].
      * constructor; assumption.
    + apply Qltb_ge in E. split; [exact Hb|].
      constructor; [|exact Hr].
      eapply Qle_trans; eassumption.
Qed.

Lemma torch_max_bound (probs : list Q) :
  Forall (fun p => p <= fst (torch_max probs)) probs.
Proof.
  destruct probs as [|p rest]; [constructor|]. simpl.
  destruct (torch_max_from_bound rest 1 (p, 0%Z)) as [Hb Hr].
  constructor; assumption.
Qed.

Lemma Qsum_bound (m : Q) (l : list Q) :
  Forall (fun p => p <= m) l ->
  Qsum l <= inject_Z (Z.of_nat (length l)) * m.
Proof.
  induction 1 as [|p l Hp _ IH].
  - simpl. rewrite Qmult_0_l. apply Qle_refl.
  - cbn [Qsum fold_right length]. fold (Qsum l).
    rewrite Nat2Z.inj_succ. unfold Z.succ. rewrite inject_Z_plus.
    rewrite Qmult_plus_distr_l, Qmult_1_l, Qplus_comm.
    apply Qplus_le_compat; assumption.
Qed.

Lemma confidence_lower_bound (n : nat) (probs : list Q) :
  is_distribution (S n) probs ->
  1 / inject_Z (Z.of_nat (S n)) <= fst (torch_max probs).
Proof.
  intros [Hlen Hsum].
  pose proof (Qsum_bound (torch_max_bound probs)) as H.
  rewrite Hlen, Hsum in H.
  assert (Hpos : 0 < inject_Z (Z.of_nat (S n))).
  { change 0 with (inject_Z 0). rewrite <- Zlt_Qlt. lia. }
  apply Qle_shift_div_r; [exact Hpos|].
  rewrite Qmult_comm. exact H.
Qed.

(** ** Evaluation *)

Section EvaluateFacts.

Variable cls : Classifier.
Variable config : Config.
Variable t : T cls.

Lemma eval_fold_confidences (bound : Q) (loader : list (batch (X cls))) :
  (forall b, In b loader ->
     Forall (fun probs => bound <= fst (torch_max probs))
            (snd (forward cls t (input_ids b) (label b)))) ->
  forall total ps ls cs,
    length ps = length cs ->
    Forall (fun c => bound <= c) cs ->
    let '(_, ps', _, cs') :=
      fold_left (eval_batch cls t) loader (total, ps, ls, cs) in
    length ps' = length cs' /\ Forall (fun c => bound <= c) cs'.
Proof.
  induction loader as [|b loader IH]; intros Hrows total ps ls cs Hlen Hcs.
  - simpl. split; assumption.
  - cbn [fold_left]. unfold eval_batch at 2.
    pose proof (Hrows b (or_introl eq_refl)) as Hb.
    destruct (forward cls t (input_ids b) (label b)) as [loss probs].
    simpl in Hb. apply IH.
    + intros b' Hin. apply Hrows. now right.
    + rewrite !length_app, !length_map. now rewrite Hlen.
    + apply Forall_app. split; [exact Hcs|].
      rewrite !Forall_map. exact Hb.
Qed.

Lemma combine_fst_same_length (A B : Type) (l : list A) (l' : list B) :
  length l = length l' -> map fst (combine l l') = l.
Proof.
  revert l'. induction l as [|a l IH]; intros [|b l'] H; simpl in *;
    try discriminate; [reflexivity|].
  f_equal. apply IH. now injection H.
Qed.

Lemma evaluate_pass_through (bound : Q) (loader : list (batch (X cls)))
    (ev : EvalResult) :
  float32 (float64 bound) <= float32 bound ->
  CONFIDENCE_THRESHOLD config <= bound ->
  (forall b, In b loader ->
     Forall (fun probs => bound <= fst (torch_max probs))
            (snd (forward cls t (input_ids b) (label b)))) ->
  evaluate cls config t loader = Ok ev ->
  Forall (fun c => bound <= c) (all_confidences ev) /\
  adjusted_preds (CONFIDENCE_THRESHOLD config) (all_preds ev)
                 (all_confidences ev) = all_preds ev /\
  adjusted_accuracy ev = accuracy ev.
Proof.
  intros Hbound Hthr Hrows. unfold evaluate.
  pose proof (@eval_fold_confidences bound loader Hrows (Finite 0) [] [] []
                eq_refl (Forall_nil _)) as Hinv.
  destruct (fold_left (eval_batch cls t) loader (Finite 0, [], [], []))
    as [[[total ps] ls] cs].
  destruct Hinv as [Hlen Hcs].
  assert (Hadj : adjusted_preds (CONFIDENCE_THRESHOLD config) ps cs = ps).
  { rewrite (adjusted_preds_pass Hbound Hthr Hcs).
    now apply combine_fst_same_length. }
  rewrite Hadj.
  destruct (fl_div_len total (length loader)) as [avg|e]; simpl;
    [|discriminate].
  destruct (accuracy_score ls ps) as [acc|e]; simpl; [|discriminate].
  intro H. injection H as <-. simpl. auto.
Qed.

End EvaluateFacts.

(** C10. The confidence of a prediction is the largest entry of a
    probability row over the six labels, so it is at least 1/6; with a
    threshold of at most 1/6 the fallback keeps every predicted label, for a
    single prediction and for a whole evaluation pass. *)
Theorem low_threshold_pass_through (cls : Classifier) (config : Config)
    (t : T cls) (loader : list (batch (X cls))) (probs : list Q)
    (threshold : Q) :
  is_distribution 6 probs ->
  threshold <= 1 # 6 ->
  CONFIDENCE_THRESHOLD config <= 1 # 6 ->
  (forall b, In b loader ->
     Forall (is_distribution 6) (snd (forward cls t (input_ids b) (label b)))) ->
  1 # 6 <= fst (torch_max probs) /\
  adjust threshold (snd (torch_max probs)) (fst (torch_max probs))
    = snd (torch_max probs) /\
  forall ev, evaluate cls config t loader = Ok ev ->
    Forall (fun c => 1 # 6 <= c) (all_confidences ev) /\
    adjusted_preds (CONFIDENCE_THRESHOLD config) (all_preds ev)
                   (all_confidences ev) = all_preds ev /\
    adjusted_accuracy ev = accuracy ev.
Proof.
  intros Hd Ht Hc Hrows.
  assert (Hconf : forall p, is_distribution 6 p -> 1 # 6 <= fst (torch_max p)).
  { intros p Hp. exact (confidence_lower_bound Hp). }
  split; [now apply Hconf|].
  split.
  { apply adjust_above_bound with (bound := 1 # 6);
      [vm_compute; discriminate|exact Ht|now apply Hconf]. }
  intros ev Hev.
  apply (@evaluate_pass_through cls config t (1 # 6) loader ev);
    [vm_compute; discriminate|exact Hc| |exact Hev].
  intros b Hin. eapply Forall_impl; [|exact (Hrows b Hin)].
  exact Hconf.
Qed.

Lemma low_threshold_pass_through_witness :
  adjust (1 # 6) (snd (torch_max uniform_row)) (fst (torch_max uniform_row))
    = 0%Z /\
  exists ev,
    evaluate unsure low_threshold_config 0%nat two_samples = Ok ev /\
    adjusted_accuracy ev = accuracy ev.
Proof.
  destruct (@low_threshold_pass_through unsure low_threshold_config 0%nat
              two_samples uniform_row (1 # 6)) as (_ & H2 & H3).
  - split; reflexivity.
  - discriminate.
  - discriminate.
  - intros b [<-|[]]. simpl. repeat constructor.
  - split; [rewrite H2; reflexivity|].
    destruct (evaluate unsure low_threshold_config 0%nat two_samples)
      as [ev|e] eqn:Hev; [|vm_compute in Hev; discriminate Hev].
    exists ev. split; [reflexivity|]. apply (H3 ev eq_refl).
Defined.

(** ** Early stopping *)

Section EarlyStoppingFacts.

Variable S : Type.

Lemma es_init_between (p : Z) (d : Q) :
  es_between p d (EarlyStopping_init S p d).
Proof. repeat split. Qed.

Lemma es_call_between (p : Z) (d : Q) (es es' : EarlyStopping S)
    (score : Q) (snapshot : S) :
  es_between p d es ->
  EarlyStopping_call es score snapshot = (es', false) ->
  es_between p d es'.
Proof.
  intros (Hp & Hd & Hstop & Hnone). unfold EarlyStopping_call.
  destruct (best_score es) as [best|] eqn:Hb.
  - destruct (Qltb (float64 score) (add64 best (min_delta es))); intro H;
      injection H as <- Hs; simpl in *; repeat split; auto; discriminate.
  - intro H. injection H as <- Hs. simpl in *.
    repeat split; auto; discriminate.
Qed.

Lemma es_run_between (p : Z) (d : Q) (epochs : list (Q * S)) :
  forall es es',
    es_between p d es -> es_run es epochs = (es', false) ->
    es_between p d es'.
Proof.
  induction epochs as [|[score snapshot] rest IH]; intros es es' Hes;
    cbn [es_run].
  - intro H. replace es' with es by congruence. exact Hes.
  - destruct (EarlyStopping_call es score snapshot) as [es1 stop] eqn:Hc.
    destruct stop; [intro H; discriminate H|].
    apply IH. eapply es_call_between; eassumption.
Qed.

(** One call on an instance that has not stopped. *)
Lemma es_call_cases (p : Z) (d : Q) (es : EarlyStopping S) (score : Q)
    (snapshot : S) :
  es_between p d es ->
  let '(es', stop) := EarlyStopping_call es score snapshot in
  patience es' = p /\ min_delta es' = d /\ stop = early_stop es' /\
  ((best_score es = None \/
    exists best, best_score es = Some best /\
                 add64 best d <= float64 score) ->
   best_score es' = Some score /\ best_model_state es' = Some snapshot /\
   counter es' = 0%Z /\ stop = false) /\
  (forall best, best_score es = Some best -> float64 score < add64 best d ->
   best_score es' = Some best /\
   best_model_state es' = best_model_state es /\
   counter es' = (counter es + 1)%Z /\
   stop = (counter es + 1 >=? p)%Z).
Proof.
  intros (Hp & Hd & Hstop & Hnone). unfold EarlyStopping_call.
  destruct (best_score es) as [best|] eqn:Hb.
  - destruct (Qltb (float64 score) (add64 best (min_delta es))) eqn:E;
      cbn [patience min_delta early_stop best_score best_model_state counter];
      rewrite Hd in E.
    + apply Qltb_lt in E.
      split; [exact Hp|]. split; [exact Hd|]. split; [reflexivity|]. split.
      * intros [H|(b & H & Hle)]; [discriminate H|].
        injection H as <-. exfalso. exact (Qlt_not_le _ _ E Hle).
      * intros b H _. injection H as <-. rewrite Hp, Hstop.
        repeat (split; [reflexivity|]).
        now destruct (counter es + 1 >=? p)%Z.
    + apply Qltb_ge in E.
      split; [exact Hp|]. split; [exact Hd|]. split; [reflexivity|]. split.
      * intros _. rewrite Hstop. auto.
      * intros b H Hlt. injection H as <-. exfalso.
        exact (Qlt_not_le _ _ Hlt E).
  - cbn [patience min_delta early_stop best_score best_model_state counter].
    split; [exact Hp|]. split; [exact Hd|]. split; [reflexivity|]. split.
    + intros _. destruct (Hnone eq_refl) as [Hc _]. rewrite Hstop. auto.
    + intros b H. discriminate H.
Qed.

End EarlyStoppingFacts.

(** C2. On every sequence of validation scores fed as the epoch loop feeds
    them, a call with score [s] does the following, the sum
    [best_score + min_delta] being the Python float that the addition of the
    two floats gives.  If no best score is set, or [s] is at least that sum,
    the call sets [best_score] to [s], takes the snapshot, leaves the counter
    at 0 and does not stop.  Otherwise it adds 1 to the counter, keeps best
    score and snapshot, and stops exactly when the counter has reached the
    patience.  With patience 2 and [min_delta] 0.001 the scores 0.5, 0.5,
    0.5, 0.5 stop the run at the third epoch; [train_fold] then has run three
    epochs and not a fourth. *)
Theorem early_stopping_policy (S : Type) (p : Z) (d : Q)
    (epochs : list (Q * S)) (es : EarlyStopping S) (score : Q) (snapshot : S) :
  es_run (EarlyStopping_init S p d) epochs = (es, false) ->
  (forall es' stop,
     EarlyStopping_call es score snapshot = (es', stop) ->
     ((best_score es = None \/
       exists best, best_score es = Some best /\
                    add64 best d <= float64 score) ->
      best_score es' = Some score /\ best_model_state es' = Some snapshot /\
      counter es' = 0%Z /\ stop = false) /\
     (forall best, best_score es = Some best ->
      ~ add64 best d <= float64 score ->
      best_score es' = Some best /\
      best_model_state es' = best_model_state es /\
      counter es' = (counter es + 1)%Z /\
      (stop = true <-> (p <= counter es')%Z))) /\
  (snd (es_run (EarlyStopping_init nat 2 (1 # 1000)) (firstn 2 four_halves))
     = false /\
   snd (es_run (EarlyStopping_init nat 2 (1 # 1000)) (firstn 3 four_halves))
     = true /\
   es_run (EarlyStopping_init nat 2 (1 # 1000)) four_halves
     = es_run (EarlyStopping_init nat 2 (1 # 1000)) (firstn 3 four_halves) /\
   exists t h,
     train_fold stuck patience_2_config 0 one_train_batch half_right_val
       = Ok (t, h, Some (1 # 2)) /\
     h_val_acc h = [1 # 2; 1 # 2; 1 # 2]).
Proof.
  intro Hrun. split.
  - intros es' stop Hcall.
    pose proof (es_run_between epochs (es_init_between S p d) Hrun) as Hes.
    pose proof (es_call_cases score snapshot Hes) as Hcases.
    rewrite Hcall in Hcases.
    destruct Hcases as (_ & _ & _ & Himp & Hstale).
    split; [exact Himp|].
    intros best Hb Hnot.
    destruct (Hstale best Hb) as (H1 & H2 & H3 & H4).
    { now apply Qnot_le_lt. }
    repeat (split; [assumption|]).
    rewrite H3, H4. rewrite Z.geb_le. reflexivity.
  - split; [vm_compute; reflexivity|]. split; [vm_compute; reflexivity|].
    split; [vm_compute; reflexivity|].
    eexists. eexists. split; [vm_compute; reflexivity|reflexivity].
Qed.

Lemma early_stopping_policy_witness :
  counter (fst (EarlyStopping_call
                  (fst (es_run (EarlyStopping_init nat 2 (1 # 1000))
                               (firstn 2 four_halves)))
                  (1 # 2) 3%nat)) = 2%Z /\
  snd (EarlyStopping_call
         (fst (es_run (EarlyStopping_init nat 2 (1 # 1000))
                      (firstn 2 four_halves)))
         (1 # 2) 3%nat) = true.
Proof.
  destruct (@early_stopping_policy nat 2 (1 # 1000) (firstn 2 four_halves)
              (fst (es_run (EarlyStopping_init nat 2 (1 # 1000))
                           (firstn 2 four_halves)))
              (1 # 2) 3%nat eq_refl) as [H _].
  destruct (H _ _ (surjective_pairing _)) as [_ Hstale].
  destruct (Hstale (1 # 2)) as (_ & _ & Hc & Hs).
  - vm_compute. reflexivity.
  - vm_compute. intro Hle. apply Hle. reflexivity.
  - split; [exact Hc|]. apply Hs. rewrite Hc. vm_compute. discriminate.
Defined.

(** C2 as stated fails: a score that is [min_delta] above the best score
    and is not taken as an improvement.  After a first epoch that scored
    0.937, the score 0.938 satisfies [0.938 >= 0.937 + 0.001] on the
    decimals, yet the sum of the two Python floats is 0.9380000000000001,
    above the float 0.938.  The call adds 1 to the counter and keeps the best
    score and the snapshot of the first epoch; on [val_1000] the fold of
    [creeping] stops after four epochs and returns the model of the first
    with score 0.937. *)
Lemma rounded_sum_misses_improvement :
  exists es es' h,
    es_run (EarlyStopping_init nat 3 (1 # 1000)) [(937 # 1000, 1%nat)]
      = (es, false) /\
    best_score es = Some (937 # 1000) /\
    (937 # 1000) + (1 # 1000) <= 938 # 1000 /\
    EarlyStopping_call es (938 # 1000) 2%nat = (es', false) /\
    best_score es' = Some (937 # 1000) /\
    best_model_state es' = Some 1%nat /\
    counter es' = 1%Z /\
    train_fold creeping default_config 0 one_train_batch val_1000
      = Ok (1%nat, h, Some (937 # 1000)) /\
    h_val_acc h = [937 # 1000; 938 # 1000; 938 # 1000; 938 # 1000].
Proof.
  eexists. eexists. eexists.
  split; [reflexivity|]. split; [reflexivity|].
  split; [discriminate|].
  split; [vm_compute; reflexivity|].
  split; [reflexivity|]. split; [reflexivity|]. split; [reflexivity|].
  split; [vm_compute; reflexivity|reflexivity].
Qed.

(** ** The epoch loop *)

Lemma In_firstn (A : Type) (n : nat) (l : list A) (a : A) :
  In a (firstn n l) -> In a l.
Proof.
  intro H. rewrite <- (firstn_skipn n l). apply in_or_app. now left.
Qed.

Lemma nth_error_snoc (A : Type) (l : list A) (x y : A) (i : nat) :
  nth_error (l ++ [x]) i = Some y ->
  ((i < length l)%nat /\ nth_error l i = Some y) \/ (i = length l /\ y = x).
Proof.
  intro H. destruct (Nat.lt_ge_cases i (length l)) as [Hlt|Hge].
  - left. rewrite nth_error_app1 in H by exact Hlt. auto.
  - right. rewrite nth_error_app2 in H by exact Hge.
    destruct (i - length l)%nat as [|j] eqn:Hj; simpl in H.
    + injection H as <-. split; [lia|reflexivity].
    + destruct j; discriminate H.
Qed.

(** A score taken as an improvement is, as a Python float, at least every
    score recorded before it. *)
Lemma improvement_tops_history (d b s : Q) (e : nat) (h : list Q) :
  0 <= d ->
  (forall a, In a (firstn (S e) h) -> float64 a <= float64 b) ->
  (forall i a, (e < i)%nat -> nth_error h i = Some a ->
               float64 a < add64 b d) ->
  add64 b d <= float64 s ->
  forall a, In a (h ++ [s]) -> float64 a <= float64 s.
Proof.
  intros Hd Hfirst Hlater Hle a Ha.
  apply in_app_or in Ha. destruct Ha as [Ha|[<-|[]]]; [|apply Qle_refl].
  apply In_nth_error in Ha. destruct Ha as [i Hi].
  destruct (Nat.lt_ge_cases e i) as [Hlt|Hge].
  - apply Qlt_le_weak. eapply Qlt_le_trans; [|exact Hle].
    now apply (Hlater i).
  - apply Qle_trans with (float64 b).
    + apply Hfirst. apply nth_error_In with i.
      rewrite nth_error_firstn.
      replace (i <? S e)%nat with true by (symmetry; apply Nat.ltb_lt; lia).
      exact Hi.
    + eapply Qle_trans; [|exact Hle]. now apply add64_ge.
Qed.

Lemma firstn_snoc_short (A : Type) (n : nat) (l : list A) (x : A) :
  (n <= length l)%nat -> firstn n (l ++ [x]) = firstn n l.
Proof.
  intro H. rewrite firstn_app.
  replace (n - length l)%nat with 0%nat by lia.
  simpl. apply app_nil_r.
Qed.

Section EpochLoop.

Variable cls : Classifier.
Variable config : Config.
Variable train_loader : nat -> list (batch (X cls)).
Variable val_loader : list (batch (X cls)).
Variable t0 : T cls.
Variable d : Q.
Hypothesis d_pos : 0 < d.

Lemma epoch_body_inv (tl : list (batch (X cls))) (st st' : FoldState cls)
    (stop : bool) :
  epoch_body config tl val_loader st = Ok (st', stop) ->
  exists t train_loss train_acc ev,
    train_epoch cls (model st) tl = Ok (t, train_loss, train_acc) /\
    evaluate cls config t val_loader = Ok ev /\
    model st' = t /\
    h_val_acc (history st') = h_val_acc (history st) ++ [accuracy ev] /\
    h_train_loss (history st') = h_train_loss (history st) ++ [train_loss] /\
    h_val_loss (history st') = h_val_loss (history st) ++ [avg_loss ev] /\
    EarlyStopping_call (early_stopping st) (accuracy ev) (state_dict cls t)
      = (early_stopping st', stop).
Proof.
  unfold epoch_body.
  destruct (train_epoch cls (model st) tl) as [[[t trl] tra]|e] eqn:Htr;
    cbn [bind]; [|intro H; discriminate H].
  destruct (evaluate cls config t val_loader) as [ev|e] eqn:Hev;
    cbn [bind]; [|intro H; discriminate H].
  destruct (EarlyStopping_call (early_stopping st) (accuracy ev)
                               (state_dict cls t)) as [es stop'] eqn:Hc.
  intro H. injection H as <- <-.
  exists t, trl, tra, ev. cbn. repeat split; solve [reflexivity|assumption].
Qed.

(** What a call does to the best score and the snapshot. *)
Lemma es_call_best (S : Type) (es es' : EarlyStopping S) (score : Q)
    (snapshot : S) (stop : bool) :
  EarlyStopping_call es score snapshot = (es', stop) ->
  min_delta es' = min_delta es /\
  ((best_score es' = Some score /\ best_model_state es' = Some snapshot /\
    (best_score es = None \/
     exists best, best_score es = Some best /\
                  add64 best (min_delta es) <= float64 score))
   \/
   (exists best, best_score es = Some best /\
      float64 score < add64 best (min_delta es) /\
      best_score es' = Some best /\
      best_model_state es' = best_model_state es)).
Proof.
  unfold EarlyStopping_call.
  destruct (best_score es) as [best|] eqn:Hb.
  - destruct (Qltb (float64 score) (add64 best (min_delta es))) eqn:E;
      intro H; injection H as <- _; cbn; (split; [reflexivity|]).
    + right. exists best. apply Qltb_lt in E. auto.
    + left. apply Qltb_ge in E. repeat (split; [reflexivity|]).
      right. exists best. auto.
  - intro H; injection H as <- _; cbn. split; [reflexivity|].
    left. auto.
Qed.

Lemma epoch_step (k : nat) (st st' : FoldState cls) (stop : bool) :
  after_epochs config train_loader val_loader t0 d k st ->
  epoch_body config (train_loader k) val_loader st = Ok (st', stop) ->
  after_epochs config train_loader val_loader t0 d (S k) st'.
Proof.
  intros (Hm & Hlen & Hd & Hsc & Hck) Hbody.
  apply epoch_body_inv in Hbody.
  destruct Hbody as (t & trl & tra & ev & Htr & Hev & Hmodel & Hh & _ & _ & Hcall).
  assert (Hnext : epoch_model cls train_loader t0 (S k) = Ok t).
  { cbn [epoch_model]. rewrite Hm. cbn [bind]. rewrite Htr. reflexivity. }
  apply es_call_best in Hcall. destruct Hcall as [Hd' Hcall].
  unfold after_epochs. rewrite Hh, Hmodel.
  split; [exact Hnext|].
  split; [rewrite length_app, Hlen; simpl; lia|].
  split; [congruence|].
  split.
  { intros i a Hi.
    destruct (Nat.lt_ge_cases i k) as [Hlt|Hge].
    - rewrite nth_error_app1 in Hi by lia. now apply Hsc.
    - rewrite nth_error_app2 in Hi by lia. rewrite Hlen in Hi.
      destruct (i - k)%nat as [|j] eqn:Hj.
      + simpl in Hi. injection Hi as <-.
        replace i with k by lia. exists t, ev. auto.
      + simpl in Hi. destruct j; discriminate Hi. }
  right. rewrite Hd in *.
  destruct Hcall as [(Hbs & Hbm & Hprev)|(best & Hb & Hlt & Hbs & Hbm)].
  - (* a new best score *)
    exists k, t, ev. rewrite Hd'.
    repeat (split; [assumption|]).
    split; [rewrite nth_error_app2 by lia; now rewrite Hlen, Nat.sub_diag|].
    split.
    + intros a Ha. apply In_firstn in Ha.
      destruct Hck as [(Hk0 & _ & _)|(e0 & te0 & ev0 & _ & _ & Hb0 & _ & _ & Hfirst & Hall)].
      * rewrite Hk0 in Hlen. apply length_zero_iff_nil in Hlen.
        rewrite Hlen in Ha. destruct Ha as [<-|[]]. apply Qle_refl.
      * destruct Hprev as [Hn|(best & Hb & Hle)]; [congruence|].
        rewrite Hb0 in Hb. injection Hb as <-. rewrite Hd in Hall.
        eapply improvement_tops_history;
          [apply Qlt_le_weak, d_pos|exact Hfirst|exact Hall|exact Hle|exact Ha].
    + intros i a Hi Hnth. exfalso.
      assert (Hsome : nth_error (h_val_acc (history st) ++ [accuracy ev]) i
                      <> None) by congruence.
      apply nth_error_Some in Hsome.
      rewrite length_app, Hlen in Hsome. simpl in Hsome. lia.
  - (* no improvement *)
    destruct Hck as [(_ & Hn & _)|(e0 & te0 & ev0 & H1 & H2 & Hb0 & Hm0 & Hnth & Hfirst & Hall)];
      [congruence|].
    assert (He0 : (e0 < k)%nat).
    { rewrite <- Hlen. apply nth_error_Some. congruence. }
    exists e0, te0, ev0. rewrite Hd'.
    rewrite Hb0 in Hb. injection Hb as <-.
    split; [exact H1|]. split; [exact H2|]. split; [exact Hbs|].
    split; [congruence|].
    split; [rewrite nth_error_app1 by lia; exact Hnth|].
    split.
    + intros a Ha. apply Hfirst.
      now rewrite firstn_snoc_short in Ha by lia.
    + intros i a Hi Ha. apply nth_error_snoc in Ha.
      destruct Ha as [(_ & Ha)|(_ & ->)].
      * rewrite Hd in Hall. now apply (Hall i).
      * exact Hlt.
Qed.

Lemma epoch_loop_after (n : nat) :
  forall k st st',
    after_epochs config train_loader val_loader t0 d k st ->
    epoch_loop config train_loader val_loader (seq k n) st = Ok st' ->
    exists k', after_epochs config train_loader val_loader t0 d k' st'.
Proof.
  induction n as [|n IH]; intros k st st' Hst; cbn [seq epoch_loop].
  - intro H. injection H as <-. now exists k.
  - destruct (epoch_body config (train_loader k) val_loader st)
      as [[st1 stop]|e] eqn:Hbody; cbn [bind]; [|intro H; discriminate H].
    pose proof (epoch_step Hst Hbody) as Hst1.
    destruct stop.
    + intro H. injection H as <-. now exists (S k).
    + now apply IH.
Qed.

End EpochLoop.

(** ** The fold trainer *)

Lemma fold_start_after (cls : Classifier) (config : Config) (fold_no : Z)
    (train_loader : nat -> list (batch (X cls)))
    (val_loader : list (batch (X cls))) :
  after_epochs config train_loader val_loader (new_model cls fold_no)
               default_min_delta 0 (fold_start cls config fold_no).
Proof.
  unfold after_epochs. cbn.
  repeat (split; [reflexivity|]).
  split.
  - intros [|i] a H; discriminate H.
  - left. auto.
Qed.

(** C1, as the code has it.  The model that [train_fold] returns carries the
    snapshot of the early-stopping instance.  That snapshot was taken after an
    epoch [e] that was run; the returned score is the validation accuracy of
    the model of that epoch; no epoch up to [e] has a validation accuracy
    that exceeds it as a Python float; and every epoch run after [e] has a
    validation accuracy that, as a Python float, is less than the sum of the
    returned score and [min_delta] (0.001), the sum being the Python float
    that the addition gives. *)
Theorem train_fold_returns_checkpoint (cls : Classifier) (config : Config)
    (fold_no : Z) (train_loader : nat -> list (batch (X cls)))
    (val_loader : list (batch (X cls)))
    (t : T cls) (h : History) (best : option Q) :
  train_fold cls config fold_no train_loader val_loader = Ok (t, h, best) ->
  scores_of_epochs cls config train_loader val_loader (new_model cls fold_no)
                   (h_val_acc h) /\
  exists e te ev tlast,
    epoch_model cls train_loader (new_model cls fold_no) (S e) = Ok te /\
    evaluate cls config te val_loader = Ok ev /\
    t = load_params cls tlast (state_dict cls te) /\
    best = Some (accuracy ev) /\
    nth_error (h_val_acc h) e = Some (accuracy ev) /\
    (forall a, In a (firstn (S e) (h_val_acc h)) ->
               float64 a <= float64 (accuracy ev)) /\
    (forall i a, (e < i)%nat -> nth_error (h_val_acc h) i = Some a ->
                 float64 a < add64 (accuracy ev) (1 # 1000)).
Proof.
  unfold train_fold, range.
  destruct (epoch_loop config train_loader val_loader
              (seq 0 (Z.to_nat (MAX_EPOCHS config))) (fold_start cls config fold_no))
    as [st|e] eqn:Hloop; cbn [bind]; [|intro H; discriminate H].
  assert (Hpos : 0 < default_min_delta) by reflexivity.
  pose proof (@fold_start_after cls config fold_no train_loader val_loader)
    as Hstart.
  destruct (epoch_loop_after Hpos _ Hstart Hloop)
    as (k & _ & _ & Hd & Hsc & Hck).
  unfold load_state_dict.
  destruct (best_model_state (early_stopping st)) as [sd|] eqn:Hsd;
    cbn [bind]; [|intro H; discriminate H].
  intro H. injection H as <- <- <-.
  split; [exact Hsc|].
  destruct Hck as [(_ & _ & Hn)|(e & te & ev & H1 & H2 & H3 & H4 & H5 & H6 & H7)];
    [congruence|].
  exists e, te, ev, (model st).
  rewrite Hd in H7.
  repeat (split; [first [assumption|congruence]|]).
  exact H7.
Qed.

Lemma train_fold_returns_checkpoint_witness :
  exists e te ev tlast,
    epoch_model stuck one_train_batch (new_model stuck 0) (S e) = Ok te /\
    evaluate stuck patience_2_config te half_right_val = Ok ev /\
    1%nat = load_params stuck tlast (state_dict stuck te) /\
    Some (1 # 2) = Some (accuracy ev) /\
    (forall i a, (e < i)%nat -> nth_error [1 # 2; 1 # 2; 1 # 2] i = Some a ->
                 float64 a < add64 (accuracy ev) (1 # 1000)).
Proof.
  destruct (@train_fold_returns_checkpoint stuck patience_2_config 0
              one_train_batch half_right_val 1%nat
              {| h_train_loss := [Finite 1; Finite 1; Finite 1];
                 h_train_acc := [2 # 2; 2 # 2; 2 # 2];
                 h_val_loss := [Finite 1; Finite 1; Finite 1];
                 h_val_acc := [1 # 2; 1 # 2; 1 # 2];
                 h_val_acc_adjusted := [1 # 2; 1 # 2; 1 # 2] |}
              (Some (1 # 2)))
    as (_ & e & te & ev & tlast & H1 & H2 & H3 & H4 & _ & _ & H7).
  - vm_compute. reflexivity.
  - exists e, te, ev, tlast. auto.
Defined.

(** C1 as stated fails: on [val_2000] the scripted classifier [plateau]
    scores 0.5 in the first epoch and 0.5005 in the second, which is not an
    improvement by [min_delta]; [train_fold] returns the model of the first
    epoch with score 0.5, below the 0.5005 of an epoch that was run. *)
Lemma best_checkpoint_not_maximal :
  exists h s a,
    train_fold plateau default_config 0 one_train_batch val_2000
      = Ok (1%nat, h, Some s) /\
    s == 1 # 2 /\ In a (h_val_acc h) /\ a == 1001 # 2000 /\ s < a /\
    float64 s < float64 a.
Proof.
  eexists. eexists. exists (1001 # 2000).
  split; [vm_compute; reflexivity|].
  split; [reflexivity|].
  split; [right; left; reflexivity|].
  split; [reflexivity|]. split; [reflexivity|].
  vm_compute. reflexivity.
Qed.

(** ** Selection of the best fold *)

Section Selection.

Variable cls : Classifier.
Variable config : Config.
Variable loader_order : Z -> nat -> list (string * Z) -> list (string * Z).
Variable cv_df : list (string * Z).

Local Abbreviation sel := (selection config loader_order cv_df).

Lemma selection_start : sel [] (cv_start cls).
Proof.
  split.
  - split; [reflexivity|]. intros [|i] tr va H; discriminate H.
  - left. repeat split. intros r a [].
Qed.

Lemma record_fold_selection (done : list (list nat * list nat))
    (st : CVState cls) (tr va : list nat) (t : T cls) (h : History) (a : Q) :
  sel done st ->
  fold_run cls config loader_order cv_df (Z.of_nat (length done)) tr va
    = Ok (t, h, Some a) ->
  exists st',
    record_fold st (Z.of_nat (length done)) (t, h, Some a) = Ok st' /\
    sel (done ++ [(tr, va)]) st'.
Proof.
  intros [[Hlen Hrec] Hsel] Hrun.
  set (n := length done) in *.
  set (r := {| fold := (Z.of_nat n + 1)%Z; best_val_accuracy := Some a;
               epochs_trained := length (h_train_loss h) |}).
  assert (Hrec' : forall st' : CVState cls,
             fold_results st' = fold_results st ++ [r] ->
             folds_recorded config loader_order cv_df (done ++ [(tr, va)]) st').
  { intros st' Hres. split.
    - rewrite Hres, !length_app, Hlen. reflexivity.
    - intros i tr' va' Hi. rewrite Hres.
      apply nth_error_snoc in Hi. destruct Hi as [[Hlt Hi]|[-> Hi]].
      + destruct (Hrec i tr' va' Hi) as (t' & h' & a' & H1 & H2).
        exists t', h', a'. split; [exact H1|].
        rewrite nth_error_app1 by (rewrite Hlen; exact Hlt). exact H2.
      + injection Hi as -> ->.
        exists t, h, a. split; [exact Hrun|].
        rewrite nth_error_app2 by (rewrite Hlen; unfold n; lia).
        rewrite Hlen. unfold n. rewrite Nat.sub_diag. reflexivity. }
  assert (Hnew : forall (best : Q) i r' a',
             (forall j r'' a'', nth_error (fold_results st) j = Some r'' ->
                                best_val_accuracy r'' = Some a'' -> a'' <= best) ->
             a <= best ->
             nth_error (fold_results st ++ [r]) i = Some r' ->
             best_val_accuracy r' = Some a' -> a' <= best).
  { intros best i r' a' Hold Ha Hi Hr'.
    apply nth_error_snoc in Hi. destruct Hi as [[Hlt Hi]|[_ ->]].
    - eapply Hold; eassumption.
    - simpl in Hr'. injection Hr' as <-. exact Ha. }
  unfold record_fold. fold r.
  destruct (Qltb (best_fold_acc st) a) eqn:E.
  - (* the new fold takes the lead *)
    apply Qltb_lt in E.
    eexists. split; [reflexivity|].
    split; [apply Hrec'; reflexivity|].
    right. exists n. unfold winner. cbn.
    split; [reflexivity|]. split.
    { destruct Hsel as [(_ & _ & H0 & _)|(w & _ & Hpos & _)].
      - now rewrite H0 in E.
      - eapply Qlt_trans; eassumption. }
    split.
    { exists tr, va, t, h. split; [|split; [exact Hrun|reflexivity]].
      rewrite nth_error_app2 by (unfold n; lia).
      unfold n. now rewrite Nat.sub_diag. }
    intros i r' a' Hi Hr'.
    apply nth_error_snoc in Hi. destruct Hi as [[Hlt Hi]|[Hi ->]].
    + assert (Hle : a' <= best_fold_acc st).
      { destruct Hsel as [(_ & _ & H0 & Hall)|(w & _ & _ & _ & Hall)].
        - rewrite H0. eapply Hall; [|exact Hr'].
          eapply nth_error_In. exact Hi.
        - now apply (Hall i r' a'). }
      assert (Hlt' : a' < a) by (eapply Qle_lt_trans; eassumption).
      split; [now apply Qlt_le_weak|]. intros _. exact Hlt'.
    + simpl in Hr'. injection Hr' as <-.
      split; [apply Qle_refl|]. intro Hin. exfalso. lia.
  - (* the lead is kept *)
    apply Qltb_ge in E.
    eexists. split; [reflexivity|].
    split; [apply Hrec'; reflexivity|].
    destruct Hsel as [(Hb & Hs & H0 & Hall)|(w & Hb & Hpos & Hw & Hall)].
    + left. unfold no_winner. cbn.
      repeat (split; [assumption|]).
      intros r' a' Hin Hr'. apply in_app_or in Hin.
      destruct Hin as [Hin|[<-|[]]].
      * eapply Hall; eassumption.
      * simpl in Hr'. injection Hr' as <-. now rewrite <- H0.
    + right. exists w. unfold winner. cbn.
      destruct Hw as (tr' & va' & t' & h' & Hw1 & Hw2 & Hw3).
      assert (Hwn : (w < n)%nat).
      { unfold n. apply nth_error_Some. congruence. }
      split; [exact Hb|]. split; [exact Hpos|]. split.
      { exists tr', va', t', h'.
        split; [rewrite nth_error_app1 by exact Hwn; exact Hw1|].
        split; assumption. }
      intros i r' a' Hi Hr'. split.
      * eapply Hnew; try eassumption.
        intros j r'' a'' Hj Hr''. now apply (Hall j r'' a'').
      * intro Hiw.
        apply nth_error_snoc in Hi. destruct Hi as [[_ Hi]|[Hi _]]; [|lia].
        now apply (Hall i r' a').
Qed.

Lemma cv_body_inv (st st' : CVState cls) (fold_no : Z) (tr va : list nat) :
  cv_body config loader_order cv_df st fold_no tr va = Ok st' ->
  exists t h a,
    fold_run cls config loader_order cv_df fold_no tr va = Ok (t, h, Some a) /\
    record_fold st fold_no (t, h, Some a) = Ok st'.
Proof.
  unfold cv_body.
  destruct (fold_run cls config loader_order cv_df fold_no tr va)
    as [[[t h] [a|]]|e]; cbn [bind].
  - intro H. exists t, h, a. auto.
  - intro H. discriminate H.
  - intro H. discriminate H.
Qed.

Lemma cv_loop_selection (rest : list (list nat * list nat)) :
  forall done (st st' : CVState cls),
    sel done st ->
    cv_loop config loader_order cv_df (Z.of_nat (length done)) rest st
      = Ok st' ->
    sel (done ++ rest) st'.
Proof.
  induction rest as [|[tr va] rest IH]; intros done st st' Hst;
    cbn [cv_loop].
  - intro H. injection H as <-. now rewrite app_nil_r.
  - destruct (cv_body config loader_order cv_df st (Z.of_nat (length done))
                      tr va) as [st1|e] eqn:Hbody; cbn [bind];
      [|intro H; discriminate H].
    apply cv_body_inv in Hbody. destruct Hbody as (t & h & a & Hrun & Hrec).
    destruct (@record_fold_selection done st tr va t h a Hst Hrun)
      as (st1' & Hrec' & Hst1).
    assert (st1' = st1) by congruence. subst st1'.
    replace (Z.of_nat (length done) + 1)%Z
      with (Z.of_nat (length (done ++ [(tr, va)])))
      by (rewrite length_app; simpl; lia).
    intro Hloop. apply (IH _ _ _ Hst1) in Hloop.
    now rewrite <- app_assoc in Hloop.
Qed.

(** The loop returns when every fold it trains returns a score. *)
Lemma cv_loop_returns (rest : list (list nat * list nat)) :
  forall done (st : CVState cls),
    sel done st ->
    (forall i tr va, nth_error rest i = Some (tr, va) ->
       exists t h a,
         fold_run cls config loader_order cv_df
                  (Z.of_nat (length done + i)) tr va = Ok (t, h, Some a)) ->
    exists st',
      cv_loop config loader_order cv_df (Z.of_nat (length done)) rest st
        = Ok st'.
Proof.
  induction rest as [|[tr va] rest IH]; intros done st Hst Hruns;
    cbn [cv_loop].
  - now exists st.
  - destruct (Hruns 0%nat tr va eq_refl) as (t & h & a & Hrun).
    rewrite Nat.add_0_r in Hrun.
    destruct (@record_fold_selection done st tr va t h a Hst Hrun)
      as (st1 & Hrec & Hst1).
    unfold cv_body. rewrite Hrun. cbn [bind]. rewrite Hrec. cbn [bind].
    replace (Z.of_nat (length done) + 1)%Z
      with (Z.of_nat (length (done ++ [(tr, va)])))
      by (rewrite length_app; simpl; lia).
    apply (IH _ _ Hst1).
    intros i tr' va' Hi.
    replace (length (done ++ [(tr, va)]) + i)%nat
      with (length done + S i)%nat by (rewrite length_app; simpl; lia).
    now apply Hruns.
Qed.

End Selection.

Section Orchestrator.

Variable cls : Classifier.
Variable config : Config.
Variable rng_shuffle : Z -> nat -> list nat -> list nat.
Variable loader_order : Z -> nat -> list (string * Z) -> list (string * Z).

Lemma run_cross_validation_selection (cv_df : list (string * Z))
    (cv : CVState cls) :
  run_cross_validation cls config rng_shuffle loader_order cv_df = Ok cv ->
  exists splits,
    StratifiedKFold_split rng_shuffle (N_FOLDS config) (SEED config)
                          (map snd cv_df) = Ok splits /\
    selection config loader_order cv_df splits cv.
Proof.
  unfold run_cross_validation.
  destruct (StratifiedKFold_split rng_shuffle (N_FOLDS config) (SEED config)
                                  (map snd cv_df)) as [splits|e];
    cbn [bind]; [|intro H; discriminate H].
  intro Hloop. exists splits. split; [reflexivity|].
  exact (@cv_loop_selection cls config loader_order cv_df splits [] _ _
           (@selection_start cls config loader_order cv_df) Hloop).
Qed.

Lemma positive_fold_has_winner (cv_df : list (string * Z))
    (splits : list (list nat * list nat)) (cv : CVState cls) :
  selection config loader_order cv_df splits cv ->
  (exists r a, In r (fold_results cv) /\ best_val_accuracy r = Some a /\
               0 < a) ->
  exists w, winner config loader_order cv_df splits cv w.
Proof.
  intros [_ [(_ & _ & _ & Hall)|Hw]] (r & a & Hin & Hr & Hpos);
    [|exact Hw].
  exfalso. exact (Qlt_not_le _ _ Hpos (Hall r a Hin Hr)).
Qed.

End Orchestrator.

(** C4, as the code has it.  When at least one fold reports an accuracy above
    0, the orchestrator selects the first fold whose accuracy is the greatest:
    every fold's accuracy is at most the selected one, every earlier fold's
    accuracy is strictly below it, and the parameters kept are those of the
    selected fold's model.  When no fold reports an accuracy above 0, no fold
    is selected: [best_fold] is -1 and no parameters are kept. *)
Theorem best_fold_is_first_maximal (cls : Classifier) (config : Config)
    (rng_shuffle : Z -> nat -> list nat -> list nat)
    (loader_order : Z -> nat -> list (string * Z) -> list (string * Z))
    (cv_df : list (string * Z)) (cv : CVState cls) :
  run_cross_validation cls config rng_shuffle loader_order cv_df = Ok cv ->
  ((exists r a, In r (fold_results cv) /\ best_val_accuracy r = Some a /\
                0 < a) ->
   exists w rw aw,
     best_fold cv = Z.of_nat w /\
     nth_error (fold_results cv) w = Some rw /\
     fold rw = (best_fold cv + 1)%Z /\
     best_val_accuracy rw = Some aw /\
     (forall i r a, nth_error (fold_results cv) i = Some r ->
                    best_val_accuracy r = Some a ->
                    a <= aw /\ ((i < w)%nat -> a < aw)) /\
     exists splits tr va t h,
       StratifiedKFold_split rng_shuffle (N_FOLDS config) (SEED config)
                             (map snd cv_df) = Ok splits /\
       nth_error splits w = Some (tr, va) /\
       fold_run cls config loader_order cv_df (Z.of_nat w) tr va
         = Ok (t, h, Some aw) /\
       cv_best_model_state cv = Some (state_dict cls t)) /\
  ((forall r a, In r (fold_results cv) -> best_val_accuracy r = Some a ->
                a <= 0) ->
   best_fold cv = (-1)%Z /\ cv_best_model_state cv = None).
Proof.
  intros Hrun.
  apply run_cross_validation_selection in Hrun.
  destruct Hrun as (splits & Hsplit & Hsel).
  split.
  - intro Hpos.
    destruct (positive_fold_has_winner Hsel Hpos)
      as (w & Hb & _ & (tr & va & t & h & Hw1 & Hw2 & Hw3) & Hall).
    destruct Hsel as [[_ Hrec] _].
    destruct (Hrec w tr va Hw1) as (t' & h' & a' & Hrun' & Hnth).
    assert (Ha : a' = best_fold_acc cv) by congruence.
    exists w. eexists. exists (best_fold_acc cv).
    split; [exact Hb|]. split; [exact Hnth|].
    split; [cbn; now rewrite Hb|]. split; [cbn; now rewrite Ha|].
    split; [exact Hall|].
    exists splits, tr, va, t, h. auto.
  - intro Hnone.
    destruct Hsel as [[_ Hrec] [(Hb & Hs & _)|(w & _ & Hpos & Hw & _)]];
      [auto|exfalso].
    destruct Hw as (tr & va & t & h & Hw1 & Hw2 & _).
    destruct (Hrec w tr va Hw1) as (t' & h' & a' & Hrun' & Hnth).
    assert (Ha : a' = best_fold_acc cv) by congruence. subst a'.
    apply (Qlt_not_le _ _ Hpos).
    eapply Hnone; [eapply nth_error_In; exact Hnth|reflexivity].
Qed.

Lemma best_fold_is_first_maximal_witness :
  exists cv,
    run_cross_validation by_length two_folds_config no_shuffle same_order
                         small_corpus = Ok cv /\
    best_fold cv = 0%Z /\
    map best_val_accuracy (fold_results cv) = [Some (2 # 2); Some (2 # 2)].
Proof.
  destruct (run_cross_validation by_length two_folds_config no_shuffle
                                 same_order small_corpus) as [cv|e] eqn:Hrun;
    [|vm_compute in Hrun; discriminate Hrun].
  exists cv. split; [reflexivity|].
  assert (Hres : map best_val_accuracy (fold_results cv)
                 = [Some (2 # 2); Some (2 # 2)]).
  { vm_compute in Hrun. injection Hrun as <-. reflexivity. }
  split; [|exact Hres].
  destruct (@best_fold_is_first_maximal by_length two_folds_config no_shuffle
              same_order small_corpus cv Hrun) as [Hfirst _].
  destruct Hfirst as (w & rw & aw & Hb & Hw & _ & Haw & Hall & _).
  - destruct (fold_results cv) as [|r rs]; [discriminate Hres|].
    injection Hres as Hr _. exists r, (2 # 2).
    split; [now left|]. split; [exact Hr|reflexivity].
  - destruct w as [|w]; [exact Hb|exfalso].
    destruct (fold_results cv) as [|r rs]; [discriminate Hres|].
    injection Hres as Hr Hrs.
    destruct (Hall 0%nat r (2 # 2) eq_refl Hr) as [_ Hlt].
    assert (Hle : aw <= 2 # 2).
    { destruct w as [|w]; simpl in Hw.
      - destruct rs as [|r1 rs]; [discriminate Hw|].
        injection Hw as ->. simpl in Hrs. injection Hrs as Hr1 _.
        rewrite Haw in Hr1. injection Hr1 as ->. apply Qle_refl.
      - destruct rs as [|r1 [|r2 rs]]; try discriminate Hrs.
        destruct w; discriminate Hw. }
    apply (Qlt_not_le _ _ (Hlt ltac:(lia)) Hle).
Defined.

(** C4 as stated fails: when every fold reports accuracy 0 no fold is
    selected at all, although fold 1 has the greatest accuracy and the lowest
    number. *)
Lemma all_zero_no_fold_selected :
  exists cv,
    run_cross_validation always_unclear two_folds_config no_shuffle same_order
                         small_corpus = Ok cv /\
    map best_val_accuracy (fold_results cv) = [Some (0 # 2); Some (0 # 2)] /\
    best_fold cv = (-1)%Z /\
    cv_best_model_state cv = None.
Proof.
  eexists. split; [vm_compute; reflexivity|].
  repeat split.
Qed.

(** C9. When every fold trains and none reports an accuracy above 0,
    [run_cross_validation] returns with [best_fold = -1] and no model state,
    and the load of that state in [main] raises.  [main] gets past the load,
    and writes [best_model.pt], only when some fold reported an accuracy
    above 0. *)
Theorem no_positive_fold_no_model (cls : Classifier) (config : Config)
    (rng_shuffle : Z -> nat -> list nat -> list nat)
    (loader_order : Z -> nat -> list (string * Z) -> list (string * Z))
    (cv_df : list (string * Z)) (splits : list (list nat * list nat)) :
  StratifiedKFold_split rng_shuffle (N_FOLDS config) (SEED config)
                        (map snd cv_df) = Ok splits ->
  (forall i tr va, nth_error splits i = Some (tr, va) ->
     exists t h a,
       fold_run cls config loader_order cv_df (Z.of_nat i) tr va
         = Ok (t, h, Some a) /\ a <= 0) ->
  (exists cv,
     run_cross_validation cls config rng_shuffle loader_order cv_df = Ok cv /\
     length (fold_results cv) = length splits /\
     best_fold cv = (-1)%Z /\ cv_best_model_state cv = None) /\
  (exists msg,
     main cls config rng_shuffle loader_order cv_df = Raise (TypeError msg)) /\
  (forall cv_df' sel,
     main cls config rng_shuffle loader_order cv_df' = Ok sel ->
     best_model_pt sel <> None /\
     exists r a, In r (fold_results (cv_state sel)) /\
                 best_val_accuracy r = Some a /\ 0 < a).
Proof.
  intros Hsplit Hfolds.
  assert (Hcv : exists cv,
             run_cross_validation cls config rng_shuffle loader_order cv_df
               = Ok cv /\
             length (fold_results cv) = length splits /\
             best_fold cv = (-1)%Z /\ cv_best_model_state cv = None).
  { unfold run_cross_validation. rewrite Hsplit. cbn [bind].
    destruct (@cv_loop_returns cls config loader_order cv_df splits []
                (cv_start cls) (@selection_start cls config loader_order cv_df))
      as [cv Hloop].
    { intros i tr va Hi. destruct (Hfolds i tr va Hi) as (t & h & a & Hr & _).
      exists t, h, a. exact Hr. }
    exists cv. split; [exact Hloop|].
    pose proof (@cv_loop_selection cls config loader_order cv_df splits [] _ _
                  (@selection_start cls config loader_order cv_df) Hloop)
      as [[Hlen _] Hsel].
    split; [exact Hlen|].
    destruct Hsel as [(Hb & Hs & _)|(w & _ & Hpos & (tr & va & t & h & Hw & Hr & _) & _)].
    - auto.
    - exfalso. destruct (Hfolds w tr va Hw) as (t' & h' & a & Hr' & Hle).
      assert (a = best_fold_acc cv) by congruence. subst a.
      exact (Qlt_not_le _ _ Hpos Hle). }
  split; [exact Hcv|]. split.
  - destruct Hcv as (cv & Hrun & _ & _ & Hnone).
    unfold main. rewrite Hrun. cbn [bind]. rewrite Hnone. cbn.
    eexists. reflexivity.
  - intros cv_df' sel. unfold main.
    destruct (run_cross_validation cls config rng_shuffle loader_order cv_df')
      as [cv|e] eqn:Hrun; cbn [bind]; [|intro H; discriminate H].
    destruct (cv_best_model_state cv) as [sd|] eqn:Hsd; cbn;
      [|intro H; discriminate H].
    intro H. injection H as <-. cbn. split; [congruence|].
    apply run_cross_validation_selection in Hrun.
    destruct Hrun as (splits' & _ & [_ Hrec] & Hsel).
    destruct Hsel as [(_ & Hn & _)|(w & _ & Hpos & (tr & va & t & h & Hw & Hr & _) & _)];
      [congruence|].
    destruct (Hrec w tr va Hw) as (t' & h' & a & Hr' & Hnth).
    assert (a = best_fold_acc cv) by congruence. subst a.
    eexists. exists (best_fold_acc cv).
    split; [eapply nth_error_In; exact Hnth|]. split; [reflexivity|exact Hpos].
Qed.

Lemma no_positive_fold_no_model_witness :
  (exists cv,
     run_cross_validation always_unclear two_folds_config no_shuffle same_order
                          small_corpus = Ok cv /\
     length (fold_results cv) = 2%nat /\
     best_fold cv = (-1)%Z /\ cv_best_model_state cv = None) /\
  (exists msg,
     main always_unclear two_folds_config no_shuffle same_order small_corpus
       = Raise (TypeError msg)).
Proof.
  destruct (@no_positive_fold_no_model always_unclear two_folds_config
              no_shuffle same_order small_corpus
              [([2; 3], [0; 1]); ([0; 1], [2; 3])]%nat) as (H1 & H2 & _).
  - reflexivity.
  - intros [|[|i]] tr va Hi.
    + injection Hi as <- <-. do 3 eexists.
      split; [vm_compute; reflexivity|discriminate].
    + injection Hi as <- <-. do 3 eexists.
      split; [vm_compute; reflexivity|discriminate].
    + destruct i; discriminate Hi.
  - split; [exact H1|exact H2].
Defined.

(** ** The argument checks of the splitter *)

Section ClassCounts.

Local Open Scope nat_scope.







End ClassCounts.

Section SplitChecks.

Variable rng_shuffle : Z -> nat -> list nat -> list nat.



End SplitChecks.




(** ** Combined evaluation *)

Lemma mapM_Forall2 (A B : Type) (f : A -> res B) (xs : list A) :
  forall ys, mapM f xs = Ok ys -> Forall2 (fun x y => f x = Ok y) xs ys.
Proof.
  induction xs as [|x xs IH]; intros ys; cbn [mapM].
  - intro H. injection H as <-. constructor.
  - destruct (f x) as [y|e] eqn:Hx; cbn [bind]; [|intro H; discriminate H].
    destruct (mapM f xs) as [ys'|e]; cbn [bind]; [|intro H; discriminate H].
    intro H. injection H as <-. constructor; [exact Hx|now apply IH].
Qed.

Lemma accuracy_score_inv (y_true y_pred : list Z) (a : Q) :
  accuracy_score y_true y_pred = Ok a ->
  length y_true = length y_pred /\
  a = ratio (count_equal y_true y_pred) (length y_true).
Proof.
  unfold accuracy_score.
  destruct (Nat.eqb (length y_true) (length y_pred)) eqn:E;
    [|intro H; discriminate H].
  apply Nat.eqb_eq in E. intro H. injection H as <-. auto.
Qed.

Lemma count_equal_app (l1 l2 p1 p2 : list Z) :
  length l1 = length p1 ->
  count_equal (l1 ++ l2) (p1 ++ p2)
  = (count_equal l1 p1 + count_equal l2 p2)%nat.
Proof.
  unfold count_equal. revert p1.
  induction l1 as [|a l1 IH]; intros [|b p1] H; try discriminate H.
  - reflexivity.
  - cbn [app combine filter]. injection H as H.
    destruct (Z.eqb (fst (a, b)) (snd (a, b))); cbn [length];
      now rewrite IH.
Qed.

Section CombinedFacts.

Variable cls : Classifier.
Variable threshold : Q.
Variable loaded : T cls.

Lemma evaluate_dataset_inv (df : list (string * string)) (r : DatasetResult) :
  evaluate_dataset cls threshold loaded df = Ok r ->
  length (labels r) = length (predictions r) /\
  raw_accuracy r = ratio (count_equal (labels r) (predictions r))
                         (length (labels r)).
Proof.
  unfold evaluate_dataset.
  destruct (mapM (dict_get LABEL2ID) (map snd df)) as [ls|e]; cbn [bind];
    [|intro H; discriminate H].
  destruct (predict cls loaded (map fst df)) as [ps cs].
  destruct (accuracy_score ls ps) as [raw|e] eqn:Hraw; cbn [bind];
    [|intro H; discriminate H].
  destruct (accuracy_score ls (adjusted_predictions threshold ps cs)) as [adj|e];
    cbn [bind]; [|intro H; discriminate H].
  destruct (error_rows (map fst df) ls ps cs) as [errs|e]; cbn [bind];
    [|intro H; discriminate H].
  destruct (Nat.eqb (length (map fst df)) 0); [intro H; discriminate H|].
  intro H. injection H as <-. cbn.
  now apply accuracy_score_inv.
Qed.

Lemma pooled_counts (results : list (string * DatasetResult)) :
  Forall (fun nr => length (labels (snd nr)) = length (predictions (snd nr)))
         results ->
  length (flat_map (fun nr => labels (snd nr)) results)
    = length (flat_map (fun nr => predictions (snd nr)) results) /\
  length (flat_map (fun nr => labels (snd nr)) results)
    = pooled_size (map snd results) /\
  count_equal (flat_map (fun nr => labels (snd nr)) results)
              (flat_map (fun nr => predictions (snd nr)) results)
    = pooled_correct (map snd results).
Proof.
  unfold pooled_size, pooled_correct.
  induction 1 as [|nr results Hnr _ (IH1 & IH2 & IH3)];
    cbn [flat_map map list_sum fold_right].
  - auto.
  - rewrite !length_app, count_equal_app by exact Hnr.
    unfold list_sum in IH2, IH3.
    rewrite IH3, <- IH2, Hnr, <- IH1. auto.
Qed.

Lemma evaluate_combined_pooled (datasets : list (string * list (string * string)))
    (r : CombinedResult) :
  evaluate_combined cls threshold loaded datasets = Ok r ->
  exists results,
    Forall2 (fun nd res => evaluate_dataset cls threshold loaded (snd nd) = Ok res)
            datasets results /\
    Forall (fun res => raw_accuracy res
                       = ratio (count_equal (labels res) (predictions res))
                               (length (labels res))) results /\
    map (fun x => fst (snd x)) (per_dataset r) = map raw_accuracy results /\
    total_samples r = pooled_size results /\
    combined_raw_accuracy r
      = ratio (pooled_correct results) (pooled_size results).
Proof.
  unfold evaluate_combined.
  destruct (mapM (fun nd => r <- evaluate_dataset cls threshold loaded (snd nd) ;;
                            Ok (fst nd, r)) datasets)
    as [results|e] eqn:Hres; cbn [bind]; [|intro H; discriminate H].
  apply mapM_Forall2 in Hres.
  assert (Hinv : Forall2 (fun nd res =>
                   evaluate_dataset cls threshold loaded (snd nd) = Ok res)
                   datasets (map snd results)).
  { induction Hres as [|nd nr ds rs Hnd _ IH]; cbn; constructor; [|exact IH].
    destruct (evaluate_dataset cls threshold loaded (snd nd)) as [res|e];
      cbn [bind] in Hnd; [|discriminate Hnd].
    injection Hnd as <-. reflexivity. }
  assert (Hlen : Forall (fun nr => length (labels (snd nr))
                                   = length (predictions (snd nr))) results).
  { clear - Hinv. remember (map snd results) as rs eqn:Hrs.
    revert results Hrs.
    induction Hinv as [|nd res ds rs Hnd _ IH]; intros [|nr results] Hrs;
      try discriminate Hrs; constructor.
    - injection Hrs as -> _. now apply evaluate_dataset_inv in Hnd.
    - apply IH. now injection Hrs. }
  destruct (pooled_counts Hlen) as (_ & Hsize & Hcorrect).
  destruct (accuracy_score _ _) as [raw|e] eqn:Hraw; cbn [bind];
    [|intro H; discriminate H].
  apply accuracy_score_inv in Hraw. destruct Hraw as [_ Hraw].
  destruct (accuracy_score _ _) as [adj|e]; cbn [bind];
    [|intro H; discriminate H].
  destruct (classification_report_check _ _) as [[]|e]; cbn [bind];
    [|intro H; discriminate H].
  destruct (error_rows _ _ _ _) as [errs|e]; cbn [bind];
    [|intro H; discriminate H].
  destruct (Nat.eqb _ 0); [intro H; discriminate H|].
  intro H. injection H as <-. cbn.
  exists (map snd results).
  split; [exact Hinv|]. split.
  { clear - Hinv. induction Hinv as [|nd res ds rs Hnd _ IH]; constructor;
      [|exact IH]. now apply evaluate_dataset_inv in Hnd. }
  split; [now rewrite !map_map|].
  split; [exact Hsize|].
  now rewrite Hraw, Hsize, Hcorrect.
Qed.

End CombinedFacts.

(** C5. The combined accuracy is the accuracy of the concatenated labels and
    predictions: the right answers of all datasets over the examples of all
    datasets, each dataset's own accuracy being its right answers over its
    examples.  With 8 of 10 right in one dataset and 5 of 5 in another the
    combined accuracy is 13/15, which is not the mean 0.9 of 0.8 and 1. *)
Theorem combined_accuracy_is_pooled (cls : Classifier) (threshold : Q)
    (loaded : T cls) (datasets : list (string * list (string * string)))
    (r : CombinedResult) :
  evaluate_combined cls threshold loaded datasets = Ok r ->
  (exists results,
     Forall2 (fun nd res => evaluate_dataset cls threshold loaded (snd nd) = Ok res)
             datasets results /\
     Forall (fun res => raw_accuracy res
                        = ratio (count_equal (labels res) (predictions res))
                                (length (labels res))) results /\
     map (fun x => fst (snd x)) (per_dataset r) = map raw_accuracy results /\
     total_samples r = pooled_size results /\
     combined_raw_accuracy r
       = ratio (pooled_correct results) (pooled_size results)) /\
  (exists r',
     evaluate_combined by_text (7 # 10) 0%nat two_datasets = Ok r' /\
     map (fun x => fst (snd x)) (per_dataset r') = [8 # 10; 5 # 5] /\
     combined_raw_accuracy r' == 13 # 15 /\
     ~ combined_raw_accuracy r' == ((8 # 10) + (5 # 5)) / 2).
Proof.
  intro H. split; [now apply evaluate_combined_pooled|].
  eexists. split; [vm_compute; reflexivity|].
  split; [reflexivity|]. split; [reflexivity|]. discriminate.
Qed.

Lemma combined_accuracy_is_pooled_witness :
  exists results,
    Forall2 (fun nd res => evaluate_dataset by_text (7 # 10) 0%nat (snd nd) = Ok res)
            two_datasets results /\
    pooled_correct results = 13%nat /\ pooled_size results = 15%nat.
Proof.
  destruct (evaluate_combined by_text (7 # 10) 0%nat two_datasets)
    as [r|e] eqn:Hrun; [|vm_compute in Hrun; discriminate Hrun].
  destruct (@combined_accuracy_is_pooled by_text (7 # 10) 0%nat two_datasets
              r Hrun) as [(results & Hres & _ & _ & _ & _) _].
  exists results. split; [exact Hres|].
  inversion Hres as [|nd1 r1 ds1 rs1 H1 Hrest]; subst.
  inversion Hrest as [|nd2 r2 ds2 rs2 H2 Hnil]; subst.
  inversion Hnil; subst.
  vm_compute in H1. injection H1 as <-.
  vm_compute in H2. injection H2 as <-.
  split; reflexivity.
Defined.

(** * Further properties of the scripts *)

(** ** Accuracies and the shape of an evaluation *)

Lemma ratio_bounds (k n : nat) : (k <= n)%nat -> 0 <= ratio k n <= 1.
Proof.
  intro H. unfold ratio. destruct n as [|n].
  - replace k with 0%nat by lia. split; discriminate.
  - assert (Hpos : 0 < inject_Z (Z.of_nat (S n))).
    { change 0 with (inject_Z 0). rewrite <- Zlt_Qlt. lia. }
    split.
    + apply Qle_shift_div_l; [exact Hpos|]. rewrite Qmult_0_l.
      change 0 with (inject_Z 0). rewrite <- Zle_Qle. lia.
    + apply Qle_shift_div_r; [exact Hpos|]. rewrite Qmult_1_l.
      rewrite <- Zle_Qle. lia.
Qed.

Lemma ratio_le (k1 k2 n : nat) : (k1 <= k2)%nat -> ratio k1 n <= ratio k2 n.
Proof.
  intro H. unfold ratio, Qdiv. apply Qmult_le_compat_r.
  - rewrite <- Zle_Qle. lia.
  - destruct n as [|n]; [discriminate|].
    apply Qinv_le_0_compat. change 0 with (inject_Z 0). rewrite <- Zle_Qle. lia.
Qed.

Lemma count_equal_le (y_true y_pred : list Z) :
  (count_equal y_true y_pred <= length y_true)%nat.
Proof.
  unfold count_equal.
  etransitivity; [apply filter_length_le|].
  rewrite length_combine. lia.
Qed.

Lemma fl_sum_finite (l : list fl) : forall total,
  is_finite (fold_left fl_add l total) = is_finite total && forallb is_finite l.
Proof.
  induction l as [|x l IH]; intro total; cbn [fold_left forallb].
  - now rewrite andb_true_r.
  - rewrite IH. destruct total, x; reflexivity.
Qed.

Lemma concat_map_lengths (A B C : Type) (f : A -> list B) (g : A -> list C)
    (l : list A) :
  (forall a, length (f a) = length (g a)) ->
  length (concat (map f l)) = length (concat (map g l)).
Proof.
  intro H. induction l as [|a l IH]; [reflexivity|].
  cbn [map concat]. now rewrite !length_app, IH, H.
Qed.

Section EvalShape.

Variable cls : Classifier.
Variable config : Config.
Variable t : T cls.

Lemma eval_fold_shape (loader : list (batch (X cls))) :
  forall total ps ls cs,
    fold_left (eval_batch cls t) loader (total, ps, ls, cs)
    = (fold_left fl_add (batch_losses cls t loader) total,
       ps ++ concat (map (fun b => map snd (map torch_max
                 (snd (forward cls t (input_ids b) (label b))))) loader),
       ls ++ concat (map (@label _) loader),
       cs ++ concat (map (fun b => map fst (map torch_max
                 (snd (forward cls t (input_ids b) (label b))))) loader)).
Proof.
  induction loader as [|b loader IH]; intros total ps ls cs.
  - cbn. now rewrite !app_nil_r.
  - cbn [fold_left map concat batch_losses]. unfold eval_batch at 2.
    destruct (forward cls t (input_ids b) (label b)) as [loss probs] eqn:Hf.
    rewrite IH. cbn [fst snd]. rewrite <- !app_assoc. reflexivity.
Qed.

Lemma evaluate_inv (loader : list (batch (X cls))) (ev : EvalResult) :
  evaluate cls config t loader = Ok ev ->
  loader <> [] /\
  is_finite (avg_loss ev) = forallb is_finite (batch_losses cls t loader) /\
  all_labels ev = concat (map (@label _) loader) /\
  length (all_preds ev) = length (all_confidences ev) /\
  length (all_labels ev) = length (all_preds ev) /\
  accuracy ev = ratio (count_equal (all_labels ev) (all_preds ev))
                      (length (all_labels ev)) /\
  adjusted_accuracy ev
    = ratio (count_equal (all_labels ev)
               (adjusted_preds (CONFIDENCE_THRESHOLD config) (all_preds ev)
                               (all_confidences ev)))
            (length (all_labels ev)).
Proof.
  unfold evaluate. rewrite eval_fold_shape. cbn [app].
  pose proof (fl_sum_finite (batch_losses cls t loader) (Finite 0)) as Hs.
  cbn [is_finite andb] in Hs.
  destruct (fold_left fl_add (batch_losses cls t loader) (Finite 0))
    as [total|].
  all: unfold fl_div_len.
  all: destruct loader as [|b loader]; [intro H; discriminate H|].
  all: cbn [bind].
  all: destruct (accuracy_score _ _) as [acc|e] eqn:Hacc; cbn [bind];
    [|intro H; discriminate H].
  all: destruct (accuracy_score _ (adjusted_preds _ _ _)) as [adj|e] eqn:Hadj;
    cbn [bind]; [|intro H; discriminate H].
  all: intro H; injection H as <-.
  all: cbn [avg_loss accuracy adjusted_accuracy all_preds all_labels
            all_confidences].
  all: apply accuracy_score_inv in Hacc; destruct Hacc as [Hlen ->].
  all: apply accuracy_score_inv in Hadj; destruct Hadj as [_ ->].
  all: split; [discriminate|].
  all: split; [exact Hs|].
  all: split; [reflexivity|].
  all: split; [|split; [exact Hlen|split; reflexivity]].
  all: rewrite !length_app, !length_map; f_equal;
    apply concat_map_lengths; intro b'; now rewrite !length_map.
Qed.

End EvalShape.

(** ** Progress of the epoch loop *)

Section FoldProgress.

Variable cls : Classifier.
Variable config : Config.
Variable train_loader : nat -> list (batch (X cls)).
Variable val_loader : list (batch (X cls)).
Variable p : Z.
Variable d : Q.
Hypothesis d_pos : 0 < d.

Lemma epoch_body_full (tl : list (batch (X cls))) (st st' : FoldState cls)
    (stop : bool) :
  epoch_body config tl val_loader st = Ok (st', stop) ->
  exists t train_loss train_acc ev,
    train_epoch cls (model st) tl = Ok (t, train_loss, train_acc) /\
    evaluate cls config t val_loader = Ok ev /\
    EarlyStopping_call (early_stopping st) (accuracy ev) (state_dict cls t)
      = (early_stopping st', stop) /\
    model st' = t /\
    history st' =
      {| h_train_loss := h_train_loss (history st) ++ [train_loss];
         h_train_acc := h_train_acc (history st) ++ [train_acc];
         h_val_loss := h_val_loss (history st) ++ [avg_loss ev];
         h_val_acc := h_val_acc (history st) ++ [accuracy ev];
         h_val_acc_adjusted :=
           h_val_acc_adjusted (history st) ++ [adjusted_accuracy ev] |} /\
    best_val_acc st' =
      (if Qltb (best_val_acc st) (accuracy ev) then accuracy ev
       else best_val_acc st).
Proof.
  unfold epoch_body.
  destruct (train_epoch cls (model st) tl) as [[[t trl] tra]|e] eqn:Htr;
    cbn [bind]; [|intro H; discriminate H].
  destruct (evaluate cls config t val_loader) as [ev|e] eqn:Hev;
    cbn [bind]; [|intro H; discriminate H].
  destruct (EarlyStopping_call (early_stopping st) (accuracy ev)
                               (state_dict cls t)) as [es stop'] eqn:Hc.
  intro H. injection H as <- <-.
  exists t, trl, tra, ev. cbn. repeat split; solve [reflexivity|assumption].
Qed.

Lemma evaluate_accuracy_bounds (t : T cls) (loader : list (batch (X cls)))
    (ev : EvalResult) :
  evaluate cls config t loader = Ok ev ->
  0 <= accuracy ev <= 1 /\ 0 <= adjusted_accuracy ev <= 1.
Proof.
  intro H. apply evaluate_inv in H.
  destruct H as (_ & _ & _ & _ & _ & -> & ->).
  split; apply ratio_bounds; apply count_equal_le.
Qed.

Lemma fold_shape_step (k : nat) (st st' : FoldState cls) (stop : bool) :
  fold_shape k st ->
  epoch_body config (train_loader k) val_loader st = Ok (st', stop) ->
  fold_shape (S k) st'.
Proof.
  intros (H1 & H2 & H3 & H4 & H5 & Hb & Hpos & Hmax & Hin) Hbody.
  apply epoch_body_full in Hbody.
  destruct Hbody as (t & trl & tra & ev & _ & Hev & _ & _ & Hh & Hbest).
  apply evaluate_accuracy_bounds in Hev. destruct Hev as [Hacc _].
  unfold fold_shape. rewrite Hh, Hbest. cbn.
  rewrite !length_app. cbn [length].
  repeat (split; [lia|]).
  split; [apply Forall_app; split; [exact Hb|repeat constructor; apply Hacc]|].
  destruct (Qltb (best_val_acc st) (accuracy ev)) eqn:E.
  - apply Qltb_lt in E. split; [apply Hacc|]. split.
    + intros a Ha. apply in_app_or in Ha. destruct Ha as [Ha|[<-|[]]].
      * apply Qlt_le_weak. eapply Qle_lt_trans; [now apply Hmax|exact E].
      * apply Qle_refl.
    + right. apply in_or_app. right. now left.
  - apply Qltb_ge in E. split; [exact Hpos|]. split.
    + intros a Ha. apply in_app_or in Ha. destruct Ha as [Ha|[<-|[]]].
      * now apply Hmax.
      * exact E.
    + destruct Hin as [Hin|Hin]; [now left|right].
      apply in_or_app. now left.
Qed.

Lemma timing_step (k : nat) (st st' : FoldState cls) (stop : bool) :
  length (h_val_acc (history st)) = k ->
  snapshot_timing d k st -> still_running p d st ->
  epoch_body config (train_loader k) val_loader st = Ok (st', stop) ->
  snapshot_timing d (S k) st' /\
  (stop = false -> still_running p d st') /\
  (stop = true -> counter (early_stopping st') = Z.max 1 p).
Proof.
  intros Hlen Htime [Hes Hcount] Hbody.
  apply epoch_body_full in Hbody.
  destruct Hbody as (t & trl & tra & ev & _ & _ & Hcall & _ & Hh & _).
  pose proof (es_call_cases (accuracy ev) (state_dict cls t) Hes) as Hcases.
  pose proof (fun H => @es_call_between _ p d (early_stopping st)
                         (early_stopping st') (accuracy ev) (state_dict cls t)
                         Hes H) as Hbetween.
  rewrite Hcall in Hcases, Hbetween.
  destruct Hcases as (_ & _ & _ & Himp & Hstale).
  unfold snapshot_timing in Htime. cbv zeta in Htime.
  unfold snapshot_timing, still_running. rewrite Hh. cbn [h_val_acc].
  set (h := h_val_acc (history st)) in *.
  set (s := accuracy ev) in *.
  destruct (best_score (early_stopping st)) as [b|] eqn:Hb.
  - destruct Htime as [(_ & Hn & _)|(e & s0 & Hnth & Hb0 & Hst & Hk & Hc0 & Hall & Hlater)];
      [congruence|].
    assert (s0 = b) by congruence. subst s0.
    assert (He : (e < k)%nat).
    { rewrite <- Hlen. apply nth_error_Some. congruence. }
    destruct (Qlt_le_dec (float64 s) (add64 b d)) as [Hlt|Hle].
    + (* no improvement *)
      destruct (Hstale b eq_refl Hlt) as (H1 & H2 & H3 & H4).
      split.
      { right. exists e, b. rewrite H2, H3.
        split; [rewrite nth_error_app1 by lia; exact Hnth|].
        split; [exact H1|]. split; [exact Hst|]. split; [lia|]. split; [lia|].
        split.
        - intros a Ha. apply Hall.
          now rewrite firstn_snoc_short in Ha by lia.
        - intros i a Hi Ha. apply nth_error_snoc in Ha.
          destruct Ha as [[_ Ha]|[_ ->]]; [exact (Hlater i a Hi Ha)|exact Hlt]. }
      split.
      * intro Hs. rewrite Hs in *. split; [now apply Hbetween|].
        right. rewrite H3. symmetry in H4. rewrite Z.geb_leb in H4.
        apply Z.leb_gt in H4. exact H4.
      * intro Hs. rewrite Hs in *. rewrite H3. symmetry in H4.
        rewrite Z.geb_le in H4. lia.
    + (* a new best score *)
      destruct Himp as (H1 & H2 & H3 & H4); [right; exists b; auto|].
      split.
      { right. exists k, s. rewrite H2, H3.
        split; [rewrite nth_error_app2 by lia; now rewrite Hlen, Nat.sub_diag|].
        split; [exact H1|]. split; [discriminate|]. split; [lia|]. split; [lia|].
        split.
        - intros a Ha. apply In_firstn in Ha.
          eapply improvement_tops_history;
            [apply Qlt_le_weak, d_pos|exact Hall|exact Hlater|exact Hle
            |exact Ha].
        - intros i a Hi Ha. apply nth_error_snoc in Ha.
          destruct Ha as [[Hi' _]|[Hi' _]]; lia. }
      split.
      * intros _. split; [apply Hbetween; now rewrite H4|]. now left.
      * intro Hs. congruence.
  - (* the first epoch *)
    destruct Htime as [(Hk0 & _ & _)|(e & s0 & _ & Hb0 & _)];
      [|congruence].
    destruct Hes as (_ & _ & _ & Hnone). destruct (Hnone Hb) as [Hc0 _].
    destruct Himp as (H1 & H2 & H3 & H4); [now left|].
    assert (Hnil : h = []).
    { apply length_zero_iff_nil. congruence. }
    clear Hlen. subst k.
    split.
    { right. exists 0%nat, s. rewrite H2, H3, Hnil. cbn.
      split; [reflexivity|]. split; [exact H1|]. split; [discriminate|].
      split; [lia|]. split; [lia|]. split.
      - intros a [<-|[]]. apply Qle_refl.
      - intros [|i] a Hi Ha; [lia|]. destruct i; discriminate Ha. }
    split.
    * intros _. split; [|now left].
      apply Hbetween. now rewrite H4.
    * intro Hs. congruence.
Qed.

Lemma epoch_loop_progress (n : nat) :
  forall k (st st' : FoldState cls),
    fold_shape k st -> snapshot_timing d k st -> still_running p d st ->
    epoch_loop config train_loader val_loader (seq k n) st = Ok st' ->
    exists k',
      (k <= k' <= k + n)%nat /\
      fold_shape k' st' /\ snapshot_timing d k' st' /\
      ((k' = (k + n)%nat /\
        (counter (early_stopping st') = 0%Z \/
         (counter (early_stopping st') < p)%Z)) \/
       counter (early_stopping st') = Z.max 1 p).
Proof.
  induction n as [|n IH]; intros k st st' Hshape Htime Hrun;
    cbn [seq epoch_loop].
  - intro H. injection H as <-. exists k.
    split; [lia|]. split; [exact Hshape|]. split; [exact Htime|].
    left. split; [lia|apply Hrun].
  - destruct (epoch_body config (train_loader k) val_loader st)
      as [[st1 stop]|e] eqn:Hbody; cbn [bind]; [|intro H; discriminate H].
    assert (Hshape1 : fold_shape (S k) st1)
      by (eapply fold_shape_step; eassumption).
    assert (Hlen : length (h_val_acc (history st)) = k) by apply Hshape.
    assert (Hstep : snapshot_timing d (S k) st1 /\
                    (stop = false -> still_running p d st1) /\
                    (stop = true -> counter (early_stopping st1) = Z.max 1 p))
      by (eapply timing_step; eassumption).
    destruct Hstep as (Htime1 & Hgo & Hstop).
    destruct stop.
    + intro H. injection H as <-. exists (S k).
      split; [lia|]. split; [exact Hshape1|]. split; [exact Htime1|].
      right. now apply Hstop.
    + intro Hloop.
      destruct (IH (S k) st1 st' Hshape1 Htime1 (Hgo eq_refl) Hloop)
        as (k' & Hk' & H1 & H2 & H3).
      exists k'. split; [lia|]. split; [exact H1|]. split; [exact H2|].
      destruct H3 as [[-> H3]|H3]; [left; split; [lia|exact H3]|now right].
Qed.

End FoldProgress.

Lemma fold_start_progress (cls : Classifier) (config : Config) (fold_no : Z) :
  fold_shape 0 (fold_start cls config fold_no) /\
  snapshot_timing default_min_delta 0 (fold_start cls config fold_no) /\
  still_running (EARLY_STOPPING_PATIENCE config) default_min_delta
                (fold_start cls config fold_no).
Proof.
  split; [|split].
  - unfold fold_shape. cbn. repeat (split; [reflexivity|]).
    split; [constructor|]. split; [apply Qle_refl|].
    split; [intros a []|now left].
  - left. cbn. auto.
  - split; [apply es_init_between|now left].
Qed.

Lemma train_fold_progress (cls : Classifier) (config : Config) (fold_no : Z)
    (train_loader : nat -> list (batch (X cls)))
    (val_loader : list (batch (X cls)))
    (t : T cls) (h : History) (best : option Q) :
  train_fold cls config fold_no train_loader val_loader = Ok (t, h, best) ->
  exists st k,
    epoch_loop config train_loader val_loader (range (MAX_EPOCHS config))
               (fold_start cls config fold_no) = Ok st /\
    h = history st /\ best = best_score (early_stopping st) /\
    best_model_state (early_stopping st) <> None /\
    (k <= Z.to_nat (MAX_EPOCHS config))%nat /\
    fold_shape k st /\ snapshot_timing default_min_delta k st /\
    ((k = Z.to_nat (MAX_EPOCHS config) /\
      (counter (early_stopping st) = 0%Z \/
       (counter (early_stopping st) < EARLY_STOPPING_PATIENCE config)%Z)) \/
     counter (early_stopping st) = Z.max 1 (EARLY_STOPPING_PATIENCE config)).
Proof.
  unfold train_fold.
  destruct (epoch_loop config train_loader val_loader
              (range (MAX_EPOCHS config)) (fold_start cls config fold_no))
    as [st|e] eqn:Hloop; cbn [bind]; [|intro H; discriminate H].
  unfold load_state_dict.
  destruct (best_model_state (early_stopping st)) as [sd|] eqn:Hsd;
    cbn [bind]; [|intro H; discriminate H].
  intro H. injection H as <- <- <-.
  destruct (fold_start_progress cls config fold_no) as (H1 & H2 & H3).
  assert (Hpos : 0 < default_min_delta) by reflexivity.
  unfold range in Hloop.
  eapply epoch_loop_progress in Hloop; [|exact Hpos|exact H1|exact H2|exact H3].
  destruct Hloop as (k & Hk & Hshape & Htime & Hend).
  exists st, k. split; [reflexivity|]. split; [reflexivity|].
  split; [reflexivity|]. split; [congruence|]. split; [lia|].
  split; [exact Hshape|]. split; [exact Htime|].
  destruct Hend as [[-> Hc]|Hc]; [left; split; [reflexivity|exact Hc]|now right].
Qed.

(** ** Evaluation passes and losses *)

Lemma count_equal_cons (l p : Z) (ls ps : list Z) :
  count_equal (l :: ls) (p :: ps)
  = ((if Z.eqb l p then 1 else 0) + count_equal ls ps)%nat.
Proof.
  unfold count_equal. cbn [combine filter fst snd].
  destruct (Z.eqb l p); reflexivity.
Qed.

Lemma adjusted_count_le (threshold : Q) (ls : list Z) :
  Forall (fun l => l <> UNCLEAR) ls ->
  forall ps cs,
    (count_equal ls (adjusted_preds threshold ps cs) <= count_equal ls ps)%nat.
Proof.
  induction 1 as [|l ls Hl _ IH]; intros ps cs; [reflexivity|].
  destruct ps as [|p ps]; [reflexivity|].
  destruct cs as [|c cs]; [unfold adjusted_preds, count_equal; cbn; lia|].
  unfold adjusted_preds. cbn [combine map fst snd]. fold (adjusted_preds threshold ps cs).
  rewrite !count_equal_cons. specialize (IH ps cs).
  unfold adjust. destruct (below_threshold32 c threshold).
  - destruct (Z.eqb l UNCLEAR) eqn:E; [apply Z.eqb_eq in E; contradiction|].
    lia.
  - lia.
Qed.

Lemma adjusted_count_ge (threshold : Q) (ls : list Z) :
  Forall (fun l => l = UNCLEAR) ls ->
  forall ps cs, length ps = length cs ->
    (count_equal ls ps <= count_equal ls (adjusted_preds threshold ps cs))%nat.
Proof.
  induction 1 as [|l ls Hl _ IH]; intros ps cs Hlen; [reflexivity|].
  destruct ps as [|p ps]; destruct cs as [|c cs]; try discriminate Hlen;
    [reflexivity|].
  unfold adjusted_preds. cbn [combine map fst snd]. fold (adjusted_preds threshold ps cs).
  rewrite !count_equal_cons. injection Hlen as Hlen. specialize (IH ps cs Hlen).
  unfold adjust. destruct (below_threshold32 c threshold).
  - subst l. rewrite Z.eqb_refl. destruct (Z.eqb UNCLEAR p); lia.
  - lia.
Qed.

(** X5. An evaluation pass that returns gives an accuracy and an adjusted
    accuracy between 0 and 1, and one prediction and one confidence per
    label. *)
Theorem evaluate_result_shape (cls : Classifier) (config : Config)
    (t : T cls) (dataloader : list (batch (X cls))) (ev : EvalResult) :
  evaluate cls config t dataloader = Ok ev ->
  0 <= accuracy ev <= 1 /\ 0 <= adjusted_accuracy ev <= 1 /\
  all_labels ev = concat (map (@label _) dataloader) /\
  length (all_preds ev) = length (all_labels ev) /\
  length (all_confidences ev) = length (all_labels ev).
Proof.
  intro H. pose proof H as Hb. apply evaluate_accuracy_bounds in Hb.
  destruct Hb as [Ha Hadj]. apply evaluate_inv in H.
  destruct H as (_ & _ & Hl & H1 & H2 & _).
  split; [exact Ha|]. split; [exact Hadj|]. split; [exact Hl|].
  split; congruence.
Qed.

(** X6. The fallback can only turn a prediction into "unclear".  On data
    without an "unclear" label the adjusted accuracy is at most the raw
    accuracy; on data whose labels are all "unclear" it is at least the raw
    accuracy. *)
Theorem fallback_effect_on_accuracy (cls : Classifier) (config : Config)
    (t : T cls) (dataloader : list (batch (X cls))) (ev : EvalResult) :
  evaluate cls config t dataloader = Ok ev ->
  (Forall (fun l => l <> UNCLEAR) (all_labels ev) ->
   adjusted_accuracy ev <= accuracy ev) /\
  (Forall (fun l => l = UNCLEAR) (all_labels ev) ->
   accuracy ev <= adjusted_accuracy ev).
Proof.
  intro H. apply evaluate_inv in H.
  destruct H as (_ & _ & _ & H1 & _ & -> & ->).
  split; intro Hl; apply ratio_le.
  - now apply adjusted_count_le.
  - now apply adjusted_count_ge.
Qed.

Section LossSums.

Variable cls : Classifier.

Lemma train_fold_losses (loader : list (batch (X cls))) :
  forall t total ps ls,
    exists t' ps',
      fold_left (train_batch cls) loader (t, total, ps, ls)
      = (t', fold_left fl_add (step_losses cls t loader) total, ps',
         ls ++ concat (map (@label _) loader)).
Proof.
  induction loader as [|b loader IH]; intros t total ps ls.
  - exists t, ps. cbn. now rewrite app_nil_r.
  - cbn [fold_left step_losses map concat]. unfold train_batch at 2.
    destruct (train_step cls t (input_ids b) (label b)) as [[t1 loss] preds].
    destruct (IH t1 (fl_add total loss) (ps ++ preds) (ls ++ label b))
      as (t' & ps' & ->).
    exists t', ps'. cbn [fold_left]. now rewrite <- app_assoc.
Qed.

Lemma train_epoch_inv (t t' : T cls) (loader : list (batch (X cls)))
    (avg : fl) (acc : Q) :
  train_epoch cls t loader = Ok (t', avg, acc) ->
  loader <> [] /\
  is_finite avg = forallb is_finite (step_losses cls t loader) /\
  0 <= acc <= 1.
Proof.
  unfold train_epoch.
  destruct (train_fold_losses loader t (Finite 0) [] []) as (t1 & ps1 & ->).
  pose proof (fl_sum_finite (step_losses cls t loader) (Finite 0)) as Hs.
  cbn [is_finite andb] in Hs.
  destruct (fold_left fl_add (step_losses cls t loader) (Finite 0)) as [total|].
  all: unfold fl_div_len.
  all: destruct loader as [|b loader]; [intro H; discriminate H|].
  all: cbn [bind].
  all: destruct (accuracy_score _ _) as [a|e] eqn:Hacc; cbn [bind];
    [|intro H; discriminate H].
  all: intro H; injection H as <- <- <-.
  all: apply accuracy_score_inv in Hacc; destruct Hacc as [_ ->].
  all: split; [discriminate|]; split; [exact Hs|].
  all: apply ratio_bounds; apply count_equal_le.
Qed.

End LossSums.

Lemma forallb_false_of_In (l : list fl) :
  In NonFinite l -> forallb is_finite l = false.
Proof.
  intro H. destruct (forallb is_finite l) eqn:E; [|reflexivity].
  rewrite forallb_forall in E. now apply E in H.
Qed.

(** X7. A non-finite loss of one batch makes the average loss of the whole
    pass non-finite, in a training pass and in an evaluation pass that
    return. *)
Theorem nonfinite_batch_loss_spreads (cls : Classifier) (config : Config)
    (t : T cls) (dataloader : list (batch (X cls))) :
  (forall t' avg acc,
     train_epoch cls t dataloader = Ok (t', avg, acc) ->
     In NonFinite (step_losses cls t dataloader) ->
     is_finite avg = false) /\
  (forall ev,
     evaluate cls config t dataloader = Ok ev ->
     In NonFinite (batch_losses cls t dataloader) ->
     is_finite (avg_loss ev) = false).
Proof.
  split.
  - intros t' avg acc H Hin. apply train_epoch_inv in H.
    destruct H as (_ & -> & _). now apply forallb_false_of_In.
  - intros ev H Hin. apply evaluate_inv in H.
    destruct H as (_ & -> & _). now apply forallb_false_of_In.
Qed.

(** ** The fold trainer as a whole *)

(** X1. A fold that returns has run between one and [MAX_EPOCHS] epochs; the
    five columns of its history have one entry per epoch, the validation
    accuracies lie between 0 and 1, and the returned score is one of them. *)
Theorem train_fold_history_shape (cls : Classifier) (config : Config)
    (fold_no : Z) (train_loader : nat -> list (batch (X cls)))
    (val_loader : list (batch (X cls)))
    (t : T cls) (h : History) (best : option Q) :
  train_fold cls config fold_no train_loader val_loader = Ok (t, h, best) ->
  (1 <= length (h_val_acc h) <= Z.to_nat (MAX_EPOCHS config))%nat /\
  length (h_train_loss h) = length (h_val_acc h) /\
  length (h_train_acc h) = length (h_val_acc h) /\
  length (h_val_loss h) = length (h_val_acc h) /\
  length (h_val_acc_adjusted h) = length (h_val_acc h) /\
  Forall (fun a => 0 <= a <= 1) (h_val_acc h) /\
  exists s, best = Some s /\ In s (h_val_acc h).
Proof.
  intro H. apply train_fold_progress in H.
  destruct H as (st & k & _ & -> & -> & Hsd & Hk & Hshape & Htime & _).
  destruct Hshape as (H1 & H2 & H3 & H4 & H5 & Hb & _).
  destruct Htime as [(_ & _ & Hn)|(e & s & Hnth & Hbest & _ & Hke & Hc & _)];
    [contradiction|].
  rewrite H1, H2, H3, H4, H5.
  split; [lia|]. repeat (split; [reflexivity|]).
  split; [exact Hb|].
  exists s. split; [exact Hbest|]. eapply nth_error_In. exact Hnth.
Qed.

(** X2. Early stopping ends a fold a fixed number of epochs after the
    snapshot: if the snapshot was taken in epoch [e] (counted from 0), every
    later epoch scored, as a Python float, below the Python float sum of the
    snapshot's score and 0.001, at most [max(1, patience)] epochs were run
    after it, and exactly that many when the fold ended before
    [MAX_EPOCHS]. *)
Theorem early_stop_timing (cls : Classifier) (config : Config)
    (fold_no : Z) (train_loader : nat -> list (batch (X cls)))
    (val_loader : list (batch (X cls)))
    (t : T cls) (h : History) (best : option Q) :
  train_fold cls config fold_no train_loader val_loader = Ok (t, h, best) ->
  exists e s,
    best = Some s /\
    nth_error (h_val_acc h) e = Some s /\
    (forall i a, (e < i)%nat -> nth_error (h_val_acc h) i = Some a ->
                 float64 a < add64 s (1 # 1000)) /\
    (length (h_val_acc h)
     <= e + 1 + Z.to_nat (Z.max 1 (EARLY_STOPPING_PATIENCE config)))%nat /\
    ((length (h_val_acc h) < Z.to_nat (MAX_EPOCHS config))%nat ->
     length (h_val_acc h)
     = (e + 1 + Z.to_nat (Z.max 1 (EARLY_STOPPING_PATIENCE config)))%nat).
Proof.
  intro H. apply train_fold_progress in H.
  destruct H as (st & k & _ & -> & -> & Hsd & Hk & Hshape & Htime & Hend).
  destruct Hshape as (_ & _ & _ & Hlen & _).
  destruct Htime as [(_ & _ & Hn)|(e & s & Hnth & Hbest & _ & Hke & Hc & _ & Hlater)];
    [contradiction|].
  exists e, s. rewrite Hlen.
  split; [exact Hbest|]. split; [exact Hnth|]. split; [exact Hlater|].
  destruct Hend as [[Hmax Hcount]|Hcount]; split; lia.
Qed.

(** X3. The accuracy that [train_fold] logs as the best one is the greatest
    validation accuracy of the epochs run.  The score that early stopping
    keeps is at most the logged one, and the logged one is, as a Python
    float, either equal to the kept score or less than the Python float sum
    of the kept score and 0.001. *)
Theorem best_trackers_agree (cls : Classifier) (config : Config)
    (fold_no : Z) (train_loader : nat -> list (batch (X cls)))
    (val_loader : list (batch (X cls))) (st : FoldState cls) :
  epoch_loop config train_loader val_loader (range (MAX_EPOCHS config))
             (fold_start cls config fold_no) = Ok st ->
  (forall a, In a (h_val_acc (history st)) -> a <= best_val_acc st) /\
  (h_val_acc (history st) <> [] ->
   exists a, In a (h_val_acc (history st)) /\ a == best_val_acc st) /\
  (forall s, best_score (early_stopping st) = Some s ->
             s <= best_val_acc st /\
             (float64 (best_val_acc st) == float64 s \/
              float64 (best_val_acc st) < add64 s (1 # 1000))).
Proof.
  intro Hloop. unfold range in Hloop.
  destruct (fold_start_progress cls config fold_no) as (H1 & H2 & H3).
  assert (Hpos : 0 < default_min_delta) by reflexivity.
  eapply epoch_loop_progress in Hloop; [|exact Hpos|exact H1|exact H2|exact H3].
  destruct Hloop as (k & _ & Hshape & Htime & _).
  destruct Hshape as (_ & _ & _ & Hlen & _ & Hb & Hnn & Hmax & Hin).
  split; [exact Hmax|]. split.
  - intro Hne. destruct Hin as [H0|Hin]; [|exists (best_val_acc st); split;
      [exact Hin|reflexivity]].
    destruct (h_val_acc (history st)) as [|a l] eqn:Hh; [contradiction|].
    exists a. split; [now left|].
    apply Qle_antisym; [apply Hmax; now left|].
    rewrite H0. inversion Hb as [|? ? Ha _]. apply Ha.
  - intros s Hs.
    destruct Htime as [(_ & Hn & _)|(e & s' & Hnth & Hbest & _ & _ & _ & Hall & Hlater)];
      [congruence|].
    assert (s' = s) by congruence. subst s'.
    assert (Hsin : In s (h_val_acc (history st)))
      by (eapply nth_error_In; exact Hnth).
    assert (Hle : s <= best_val_acc st) by now apply Hmax.
    split; [exact Hle|].
    assert (Hsame : float64 (best_val_acc st) <= float64 s ->
                    float64 (best_val_acc st) == float64 s).
    { intro H. apply Qle_antisym; [exact H|now apply float64_mono]. }
    destruct Hin as [H0|Hin].
    + left. apply Hsame. apply float64_mono. rewrite H0.
      rewrite Forall_forall in Hb. apply (Hb s Hsin).
    + apply In_nth_error in Hin. destruct Hin as [i Hi].
      destruct (Nat.lt_ge_cases e i) as [Hlt|Hge].
      * right. exact (Hlater i _ Hlt Hi).
      * left. apply Hsame, Hall. apply nth_error_In with i.
        rewrite nth_error_firstn.
        replace (i <? S e)%nat with true by (symmetry; apply Nat.ltb_lt; lia).
        exact Hi.
Qed.

(** X4. Degenerate runs of a fold.  With [MAX_EPOCHS] below 1 no snapshot
    exists and loading it raises [TypeError].  With at least one epoch, an
    empty training loader, or an empty validation loader after a training
    pass that went through, raises [ZeroDivisionError]. *)
Theorem train_fold_degenerate (cls : Classifier) (config : Config)
    (fold_no : Z) (train_loader : nat -> list (batch (X cls)))
    (val_loader : list (batch (X cls))) :
  ((MAX_EPOCHS config <= 0)%Z ->
   exists msg,
     train_fold cls config fold_no train_loader val_loader
       = Raise (TypeError msg)) /\
  ((0 < MAX_EPOCHS config)%Z -> train_loader 0%nat = [] ->
   train_fold cls config fold_no train_loader val_loader
     = Raise ZeroDivisionError) /\
  ((0 < MAX_EPOCHS config)%Z -> val_loader = [] ->
   is_ok (train_epoch cls (new_model cls fold_no) (train_loader 0%nat)) = true ->
   train_fold cls config fold_no train_loader val_loader
     = Raise ZeroDivisionError).
Proof.
  unfold train_fold, range. split; [|split].
  - intro H. replace (Z.to_nat (MAX_EPOCHS config)) with 0%nat by lia.
    cbn. eexists. reflexivity.
  - intros H Hnil.
    destruct (Z.to_nat (MAX_EPOCHS config)) as [|m] eqn:Hm; [lia|].
    cbn [seq epoch_loop]. unfold epoch_body. rewrite Hnil. reflexivity.
  - intros H Hnil Hok.
    destruct (Z.to_nat (MAX_EPOCHS config)) as [|m] eqn:Hm; [lia|].
    cbn [seq epoch_loop]. unfold epoch_body. cbn [fold_start model].
    destruct (train_epoch cls (new_model cls fold_no) (train_loader 0%nat))
      as [[[t1 l1] a1]|e]; [|discriminate Hok].
    cbn [bind]. rewrite Hnil. reflexivity.
Qed.

Lemma train_fold_history_shape_witness :
  (1 <= length (h_val_acc stuck_history)
   <= Z.to_nat (MAX_EPOCHS patience_2_config))%nat /\
  length (h_train_loss stuck_history) = length (h_val_acc stuck_history).
Proof.
  destruct (@train_fold_history_shape stuck patience_2_config 0
              one_train_batch half_right_val 1%nat stuck_history
              (Some (1 # 2))) as (H1 & H2 & _).
  - vm_compute. reflexivity.
  - split; [exact H1|exact H2].
Defined.

Lemma early_stop_timing_witness :
  exists e s,
    Some (1 # 2) = Some s /\
    nth_error (h_val_acc stuck_history) e = Some s /\
    length (h_val_acc stuck_history)
    = (e + 1 + Z.to_nat (Z.max 1 (EARLY_STOPPING_PATIENCE patience_2_config)))%nat.
Proof.
  destruct (@early_stop_timing stuck patience_2_config 0
              one_train_batch half_right_val 1%nat stuck_history
              (Some (1 # 2))) as (e & s & H1 & H2 & _ & _ & H5).
  - vm_compute. reflexivity.
  - exists e, s. split; [exact H1|]. split; [exact H2|].
    apply H5. vm_compute. lia.
Defined.

Lemma best_trackers_agree_witness :
  exists st : FoldState stuck,
    @epoch_loop stuck patience_2_config one_train_batch half_right_val
               (range (MAX_EPOCHS patience_2_config))
               (fold_start stuck patience_2_config 0) = Ok st /\
    (1 # 2) <= best_val_acc st /\
    (float64 (best_val_acc st) == float64 (1 # 2) \/
     float64 (best_val_acc st) < add64 (1 # 2) (1 # 1000)).
Proof.
  destruct (@epoch_loop stuck patience_2_config one_train_batch half_right_val
              (range (MAX_EPOCHS patience_2_config))
              (fold_start stuck patience_2_config 0)) as [st|e] eqn:Hloop;
    [|vm_compute in Hloop; discriminate Hloop].
  exists st. split; [reflexivity|].
  destruct (@best_trackers_agree stuck patience_2_config 0 one_train_batch
              half_right_val st Hloop) as (_ & _ & H).
  apply H. vm_compute in Hloop. injection Hloop as <-. reflexivity.
Defined.

Lemma train_fold_degenerate_witness :
  (exists msg,
     train_fold stuck no_epochs_config 0 one_train_batch half_right_val
       = Raise (TypeError msg)) /\
  train_fold stuck default_config 0 no_batches half_right_val
    = Raise ZeroDivisionError /\
  train_fold stuck default_config 0 one_train_batch []
    = Raise ZeroDivisionError.
Proof.
  split; [|split].
  - destruct (@train_fold_degenerate stuck no_epochs_config 0 one_train_batch
                half_right_val) as (H & _ & _).
    apply H. discriminate.
  - destruct (@train_fold_degenerate stuck default_config 0 no_batches
                half_right_val) as (_ & H & _).
    apply H; reflexivity.
  - destruct (@train_fold_degenerate stuck default_config 0 one_train_batch
                []) as (_ & _ & H).
    apply H; reflexivity.
Defined.

Lemma evaluate_result_shape_witness :
  exists ev,
    evaluate stuck default_config 0%nat half_right_val = Ok ev /\
    0 <= accuracy ev <= 1 /\
    length (all_preds ev) = length (all_labels ev).
Proof.
  destruct (evaluate stuck default_config 0%nat half_right_val)
    as [ev|e] eqn:Hev; [|vm_compute in Hev; discriminate Hev].
  exists ev. split; [reflexivity|].
  destruct (@evaluate_result_shape stuck default_config 0%nat half_right_val
              ev Hev) as (H1 & _ & _ & H4 & _).
  split; [exact H1|exact H4].
Defined.

Lemma fallback_effect_on_accuracy_witness :
  exists ev,
    evaluate unsure default_config 0%nat two_samples = Ok ev /\
    adjusted_accuracy ev <= accuracy ev.
Proof.
  destruct (evaluate unsure default_config 0%nat two_samples)
    as [ev|e] eqn:Hev; [|vm_compute in Hev; discriminate Hev].
  exists ev. split; [reflexivity|].
  destruct (@fallback_effect_on_accuracy unsure default_config 0%nat
              two_samples ev Hev) as [H _].
  apply H. vm_compute in Hev. injection Hev as <-.
  repeat constructor; discriminate.
Defined.

Lemma nonfinite_batch_loss_spreads_witness :
  exists ev,
    evaluate diverging default_config 1%nat half_right_val = Ok ev /\
    is_finite (avg_loss ev) = false.
Proof.
  destruct (evaluate diverging default_config 1%nat half_right_val)
    as [ev|e] eqn:Hev; [|vm_compute in Hev; discriminate Hev].
  exists ev. split; [reflexivity|].
  destruct (@nonfinite_batch_loss_spreads diverging default_config 1%nat
              half_right_val) as [_ H].
  apply (H ev Hev). left. reflexivity.
Defined.

(** ** Predictions and confidences *)

Lemma torch_max_from_first_max (rest : list Q) :
  forall pre best,
    first_max pre best ->
    first_max (pre ++ rest)
              (torch_max_from (Z.of_nat (length pre)) best rest).
Proof.
  induction rest as [|p rest IH]; intros pre best Hb; cbn [torch_max_from].
  - now rewrite app_nil_r.
  - replace (pre ++ p :: rest) with ((pre ++ [p]) ++ rest)
      by (rewrite <- app_assoc; reflexivity).
    replace (Z.of_nat (length pre) + 1)%Z with (Z.of_nat (length (pre ++ [p])))
      by (rewrite length_app; simpl; lia).
    apply IH.
    destruct Hb as (Hidx & Hnth & Hall & Hfirst).
    destruct (Qltb (fst best) p) eqn:E.
    + apply Qltb_lt in E. unfold first_max. cbn [fst snd].
      rewrite Nat2Z.id, length_app. cbn [length].
      split; [lia|].
      split; [rewrite nth_error_app2 by lia; now rewrite Nat.sub_diag|].
      split.
      * apply Forall_app. split; [|repeat constructor; apply Qle_refl].
        eapply Forall_impl; [|exact Hall]. cbn. intros x Hx.
        apply Qlt_le_weak. eapply Qle_lt_trans; eassumption.
      * intros k x Hk Hx. rewrite nth_error_app1 in Hx by exact Hk.
        eapply Qle_lt_trans; [|exact E].
        rewrite Forall_forall in Hall. apply Hall.
        eapply nth_error_In. exact Hx.
    + apply Qltb_ge in E. unfold first_max. rewrite length_app. cbn [length].
      assert (Hlt : (Z.to_nat (snd best) < length pre)%nat) by lia.
      split; [lia|].
      split; [rewrite nth_error_app1 by exact Hlt; exact Hnth|].
      split.
      * apply Forall_app. split; [exact Hall|repeat constructor; exact E].
      * intros k x Hk Hx. rewrite nth_error_app1 in Hx by lia.
        now apply (Hfirst k).
Qed.

Lemma torch_max_first_max (probs : list Q) :
  probs <> [] -> first_max probs (torch_max probs).
Proof.
  destruct probs as [|p rest]; [contradiction|]. intros _. cbn [torch_max].
  apply (@torch_max_from_first_max rest [p] (p, 0%Z)).
  unfold first_max. cbn. split; [lia|]. split; [reflexivity|].
  split; [repeat constructor; apply Qle_refl|]. intros k x Hk. lia.
Qed.

(** X8. The confidence returned with a prediction is the probability of the
    predicted label; it is the largest entry of the row, and the prediction
    is the first position that holds it.  [predict_with_confidence] returns
    one prediction and one confidence for every row. *)
Theorem prediction_is_first_maximum (cls : Classifier) (t : T cls)
    (xs : list (X cls)) (i : nat) (row : list Q) :
  nth_error (snd (predict_with_confidence cls t xs)) i = Some row ->
  row <> [] ->
  exists pred conf,
    nth_error (fst (fst (predict_with_confidence cls t xs))) i = Some pred /\
    nth_error (snd (fst (predict_with_confidence cls t xs))) i = Some conf /\
    (0 <= pred < Z.of_nat (length row))%Z /\
    nth_error row (Z.to_nat pred) = Some conf /\
    Forall (fun x => x <= conf) row /\
    (forall k x, (k < Z.to_nat pred)%nat -> nth_error row k = Some x ->
                 x < conf).
Proof.
  unfold predict_with_confidence.
  destruct (forward cls t xs []) as [loss probs]. cbn [fst snd].
  intros Hrow Hne.
  exists (snd (torch_max row)), (fst (torch_max row)).
  rewrite !nth_error_map, Hrow. cbn [option_map].
  split; [reflexivity|]. split; [reflexivity|].
  exact (torch_max_first_max Hne).
Qed.

Lemma prediction_is_first_maximum_witness :
  exists pred conf,
    nth_error (fst (fst (predict_with_confidence by_text 0%nat [4%nat]))) 0
      = Some pred /\
    nth_error (snd (fst (predict_with_confidence by_text 0%nat [4%nat]))) 0
      = Some conf /\
    (0 <= pred < 6)%Z /\
    nth_error (one_hot 4) (Z.to_nat pred) = Some conf.
Proof.
  destruct (@prediction_is_first_maximum by_text 0%nat [4%nat] 0%nat
              (one_hot 4)) as (pred & conf & H1 & H2 & H3 & H4 & _).
  - reflexivity.
  - discriminate.
  - exists pred, conf. auto.
Defined.

(** ** The fallback applied twice *)


(** ** The results of the cross-validation *)

Section CVShape.

Variable cls : Classifier.
Variable config : Config.
Variable loader_order : Z -> nat -> list (string * Z) -> list (string * Z).
Variable cv_df : list (string * Z).

Lemma fold_run_facts (fold_no : Z) (tr va : list nat) (t : T cls)
    (h : History) (best : option Q) :
  fold_run cls config loader_order cv_df fold_no tr va = Ok (t, h, best) ->
  (1 <= length (h_train_loss h) <= Z.to_nat (MAX_EPOCHS config))%nat /\
  exists a, best = Some a /\ 0 <= a <= 1.
Proof.
  unfold fold_run.
  destruct (DataLoader cls (take_rows cv_df tr) (BATCH_SIZE config)
                       (loader_order fold_no)) as [tl|e]; cbn [bind];
    [|intro H; discriminate H].
  destruct (DataLoader cls (take_rows cv_df va) (BATCH_SIZE config)
                       (@in_order _)) as [vl|e]; cbn [bind];
    [|intro H; discriminate H].
  intro H. apply train_fold_progress in H.
  destruct H as (st & k & _ & -> & -> & Hsd & Hk & Hshape & Htime & _).
  destruct Hshape as (H1 & _ & _ & H4 & _ & Hb & _).
  destruct Htime as [(_ & _ & Hn)|(e & s & Hnth & Hbest & _ & Hke & Hc & _)];
    [contradiction|].
  split; [lia|]. exists s. split; [exact Hbest|].
  rewrite Forall_forall in Hb. apply Hb. eapply nth_error_In. exact Hnth.
Qed.

Lemma cv_shape_start : cv_shape config 0 (cv_start cls).
Proof.
  unfold cv_shape. cbn.
  split; [reflexivity|]. split; [reflexivity|].
  split; [intros [|i] r H; discriminate H|].
  split; [lia|]. split; [split; discriminate|]. split; auto.
Qed.

Lemma record_fold_shape (n : nat) (st st' : CVState cls) (t : T cls)
    (h : History) (a : Q) :
  cv_shape config n st ->
  (1 <= length (h_train_loss h) <= Z.to_nat (MAX_EPOCHS config))%nat ->
  0 <= a <= 1 ->
  record_fold st (Z.of_nat n) (t, h, Some a) = Ok st' ->
  cv_shape config (S n) st'.
Proof.
  intros (Hr & Hh & Hall & Hbf & Hacc & Hstate) Hep Ha.
  set (rs := fold_results st ++
             [ {| fold := (Z.of_nat n + 1)%Z; best_val_accuracy := Some a;
                  epochs_trained := length (h_train_loss h) |} ]).
  set (hs := all_histories st ++ [h]).
  assert (Hnew : length rs = S n /\ length hs = S n /\
            (forall i r, nth_error rs i = Some r ->
               fold r = (Z.of_nat i + 1)%Z /\
               exists h' a',
                 nth_error hs i = Some h' /\
                 epochs_trained r = length (h_train_loss h') /\
                 (1 <= epochs_trained r <= Z.to_nat (MAX_EPOCHS config))%nat /\
                 best_val_accuracy r = Some a' /\ 0 <= a' <= 1)).
  { unfold rs, hs. rewrite !length_app. cbn [length].
    split; [lia|]. split; [lia|].
    intros i r Hi. apply nth_error_snoc in Hi.
    destruct Hi as [[Hlt Hi]|[-> ->]].
    - destruct (Hall i r Hi) as (Hf & h' & a' & Hh' & Hrest).
      split; [exact Hf|]. exists h', a'.
      split; [rewrite nth_error_app1 by lia; exact Hh'|exact Hrest].
    - cbn. rewrite Hr. split; [reflexivity|]. exists h, a.
      split; [rewrite nth_error_app2 by lia; now rewrite Hh, Nat.sub_diag|].
      auto. }
  destruct Hnew as (H1 & H2 & H3).
  unfold record_fold. fold rs hs.
  destruct (Qltb (best_fold_acc st) a).
  - intro H. injection H as <-.
    unfold cv_shape. cbn.
    split; [exact H1|]. split; [exact H2|]. split; [exact H3|].
    split; [lia|]. split; [exact Ha|].
    split; [intro H; lia|intro H; discriminate H].
  - intro H. injection H as <-.
    unfold cv_shape. cbn.
    split; [exact H1|]. split; [exact H2|]. split; [exact H3|].
    split; [lia|]. split; [exact Hacc|exact Hstate].
Qed.

Lemma cv_loop_shape (rest : list (list nat * list nat)) :
  forall n (st st' : CVState cls),
    cv_shape config n st ->
    cv_loop config loader_order cv_df (Z.of_nat n) rest st = Ok st' ->
    cv_shape config (n + length rest) st'.
Proof.
  induction rest as [|[tr va] rest IH]; intros n st st' Hst; cbn [cv_loop].
  - intro H. injection H as <-. cbn. now rewrite Nat.add_0_r.
  - destruct (cv_body config loader_order cv_df st (Z.of_nat n) tr va)
      as [st1|e] eqn:Hbody; cbn [bind]; [|intro H; discriminate H].
    apply cv_body_inv in Hbody. destruct Hbody as (t & h & a & Hrun & Hrec).
    apply fold_run_facts in Hrun. destruct Hrun as (Hep & a' & Ha' & Hb).
    injection Ha' as <-.
    pose proof (@record_fold_shape n st st1 t h a Hst Hep Hb Hrec) as Hst1.
    replace (Z.of_nat n + 1)%Z with (Z.of_nat (S n)) by lia.
    intro Hloop. apply (IH _ _ _ Hst1) in Hloop.
    cbn [length]. now rewrite Nat.add_succ_r.
Qed.

End CVShape.

Lemma split_inv (rng_shuffle : Z -> nat -> list nat -> list nat)
    (n_splits seed : Z) (y : list Z) (splits : list (list nat * list nat)) :
  StratifiedKFold_split rng_shuffle n_splits seed y = Ok splits ->
  (2 <= n_splits <= Z.of_nat (length y))%Z /\
  length splits = Z.to_nat n_splits.
Proof.
  unfold StratifiedKFold_split.
  destruct (n_splits <=? 1)%Z eqn:E1; [intro H; discriminate H|].
  destruct (Nat.eqb (length y) 0); [intro H; discriminate H|].
  destruct (Z.of_nat (length y) <? n_splits)%Z eqn:E2;
    [intro H; discriminate H|].
  destruct (forallb _ _); [intro H; discriminate H|].
  intro H. injection H as <-.
  apply Z.leb_gt in E1. apply Z.ltb_ge in E2.
  split; [lia|]. now rewrite length_map, length_seq.
Qed.

Lemma run_cross_validation_shape (cls : Classifier) (config : Config)
    (rng_shuffle : Z -> nat -> list nat -> list nat)
    (loader_order : Z -> nat -> list (string * Z) -> list (string * Z))
    (cv_df : list (string * Z)) (cv : CVState cls) :
  run_cross_validation cls config rng_shuffle loader_order cv_df = Ok cv ->
  (2 <= N_FOLDS config <= Z.of_nat (length cv_df))%Z /\
  cv_shape config (Z.to_nat (N_FOLDS config)) cv.
Proof.
  unfold run_cross_validation.
  destruct (StratifiedKFold_split rng_shuffle (N_FOLDS config) (SEED config)
                                  (map snd cv_df)) as [splits|e] eqn:Hsplit;
    cbn [bind]; [|intro H; discriminate H].
  apply split_inv in Hsplit. destruct Hsplit as [Hk Hlen].
  rewrite length_map in Hk.
  intro Hloop. split; [exact Hk|].
  rewrite <- Hlen.
  exact (@cv_loop_shape cls config loader_order cv_df splits 0 _ _
           (cv_shape_start cls config) Hloop).
Qed.

(** X10. When the cross-validation returns, it holds one result and one
    history per fold; the results are numbered from 1 in order, each gives
    the number of epochs of its history, between 1 and [MAX_EPOCHS], and an
    accuracy between 0 and 1; [best_fold] is -1 or the position of a result,
    and a model state is kept exactly when [best_fold] is not -1. *)
Theorem cross_validation_result_shape (cls : Classifier) (config : Config)
    (rng_shuffle : Z -> nat -> list nat -> list nat)
    (loader_order : Z -> nat -> list (string * Z) -> list (string * Z))
    (cv_df : list (string * Z)) (cv : CVState cls) :
  run_cross_validation cls config rng_shuffle loader_order cv_df = Ok cv ->
  length (all_histories cv) = length (fold_results cv) /\
  (forall i r, nth_error (fold_results cv) i = Some r ->
     fold r = (Z.of_nat i + 1)%Z /\
     exists h a,
       nth_error (all_histories cv) i = Some h /\
       epochs_trained r = length (h_train_loss h) /\
       (1 <= epochs_trained r <= Z.to_nat (MAX_EPOCHS config))%nat /\
       best_val_accuracy r = Some a /\ 0 <= a <= 1) /\
  (-1 <= best_fold cv < Z.of_nat (length (fold_results cv)))%Z /\
  (best_fold cv = (-1)%Z <-> cv_best_model_state cv = None).
Proof.
  intro H. apply run_cross_validation_shape in H.
  destruct H as (_ & Hr & Hh & Hall & Hbf & _ & Hstate).
  rewrite Hr, Hh. auto.
Qed.

(** X11. A cross-validation that returns was asked for at least two folds,
    had at least as many rows as folds, and holds exactly [N_FOLDS]
    results. *)
Theorem cross_validation_fold_count (cls : Classifier) (config : Config)
    (rng_shuffle : Z -> nat -> list nat -> list nat)
    (loader_order : Z -> nat -> list (string * Z) -> list (string * Z))
    (cv_df : list (string * Z)) (cv : CVState cls) :
  run_cross_validation cls config rng_shuffle loader_order cv_df = Ok cv ->
  (2 <= N_FOLDS config <= Z.of_nat (length cv_df))%Z /\
  Z.of_nat (length (fold_results cv)) = N_FOLDS config.
Proof.
  intro H. apply run_cross_validation_shape in H.
  destruct H as (Hk & Hr & _). split; [exact Hk|]. rewrite Hr. lia.
Qed.

Lemma cross_validation_result_shape_witness :
  exists cv,
    run_cross_validation by_length two_folds_config no_shuffle same_order
                         small_corpus = Ok cv /\
    length (all_histories cv) = length (fold_results cv) /\
    (-1 <= best_fold cv < Z.of_nat (length (fold_results cv)))%Z.
Proof.
  destruct (run_cross_validation by_length two_folds_config no_shuffle
                                 same_order small_corpus) as [cv|e] eqn:Hrun;
    [|vm_compute in Hrun; discriminate Hrun].
  exists cv. split; [reflexivity|].
  destruct (@cross_validation_result_shape by_length two_folds_config
              no_shuffle same_order small_corpus cv Hrun)
    as (H1 & _ & H3 & _).
  split; [exact H1|exact H3].
Defined.

Lemma cross_validation_fold_count_witness :
  exists cv,
    run_cross_validation by_length two_folds_config no_shuffle same_order
                         small_corpus = Ok cv /\
    Z.of_nat (length (fold_results cv)) = N_FOLDS two_folds_config.
Proof.
  destruct (run_cross_validation by_length two_folds_config no_shuffle
                                 same_order small_corpus) as [cv|e] eqn:Hrun;
    [|vm_compute in Hrun; discriminate Hrun].
  exists cv. split; [reflexivity|].
  exact (proj2 (@cross_validation_fold_count by_length two_folds_config
                  no_shuffle same_order small_corpus cv Hrun)).
Defined.

(** ** Label names and label ids *)

Lemma dict_get_missing (d : list (string * Z)) (k : string) :
  ~ In k (map fst d) -> dict_get d k = Raise (KeyError k).
Proof.
  induction d as [|[k' v] d IH]; cbn [dict_get map fst In]; intro H.
  - reflexivity.
  - destruct (String.eqb_spec k k') as [->|Hne].
    + exfalso. apply H. now left.
    + apply IH. intro Hin. apply H. now right.
Qed.

Lemma dict_get_In (d : list (string * Z)) (k : string) (v : Z) :
  dict_get d k = Ok v -> In (k, v) d.
Proof.
  induction d as [|[k' v'] d IH]; cbn [dict_get In]; intro H.
  - discriminate H.
  - destruct (String.eqb_spec k k') as [->|Hne].
    + injection H as ->. now left.
    + right. now apply IH.
Qed.

Lemma dict_get_known (d : list (string * Z)) (k : string) :
  In k (map fst d) -> exists v, dict_get d k = Ok v.
Proof.
  induction d as [|[k' v'] d IH]; cbn [dict_get map fst In]; intro H.
  - contradiction.
  - destruct (String.eqb_spec k k') as [->|Hne].
    + now exists v'.
    + destruct H as [H|H]; [congruence|now apply IH].
Qed.

Lemma id2label_inv (k : Z) (s : string) :
  id2label ID2LABEL k = Ok s -> dict_get LABEL2ID s = Ok k.
Proof.
  intro H. cbn in H.
  repeat match type of H with
         | (if Z.eqb ?a ?n then _ else _) = _ =>
             destruct (Z.eqb_spec a n);
             [subst; injection H as <-; reflexivity|]
         end.
  discriminate H.
Qed.

Lemma dict_get_inv (s : string) (k : Z) :
  dict_get LABEL2ID s = Ok k -> id2label ID2LABEL k = Ok s.
Proof.
  intro H. cbn [dict_get LABEL2ID] in H.
  repeat match type of H with
         | (if String.eqb ?a ?n then _ else _) = _ =>
             destruct (String.eqb_spec a n);
             [subst; injection H as <-; reflexivity|]
         end.
  discriminate H.
Qed.

(** X17. The two label dictionaries are inverse to each other: a name has
    an id exactly when the id has that name, and the ids are the numbers
    below [NUM_LABELS]. *)
Theorem label_dictionaries_inverse (s : string) (k : Z) :
  (dict_get LABEL2ID s = Ok k <-> id2label ID2LABEL k = Ok s) /\
  (dict_get LABEL2ID s = Ok k -> (0 <= k < NUM_LABELS default_config)%Z) /\
  ((0 <= k < NUM_LABELS default_config)%Z ->
   exists name, id2label ID2LABEL k = Ok name).
Proof.
  split; [split; [apply dict_get_inv|apply id2label_inv]|].
  split.
  - intro H. apply dict_get_In in H. cbn in H.
    repeat (destruct H as [H|H]; [injection H as _ <-; cbn; lia|]).
    contradiction.
  - cbn [NUM_LABELS default_config]. intro H.
    assert (Hk : k = 0%Z \/ k = 1%Z \/ k = 2%Z \/ k = 3%Z \/ k = 4%Z \/ k = 5%Z)
      by lia.
    repeat (destruct Hk as [->|Hk]; [eexists; reflexivity|]).
    subst k. eexists; reflexivity.
Qed.

(** ** A label that is not one of the six names *)

Lemma mapM_first_raise (A B : Type) (f : A -> res B) (pre : list A) (x : A)
    (post : list A) (e : exn) :
  Forall (fun a => is_ok (f a) = true) pre ->
  f x = Raise e ->
  mapM f (pre ++ x :: post) = Raise e.
Proof.
  intros Hpre Hx. induction Hpre as [|a pre Ha _ IH]; cbn [app mapM].
  - now rewrite Hx.
  - destruct (f a) as [b|e']; [|discriminate Ha]. cbn [bind]. now rewrite IH.
Qed.

(** X12. A row whose label is not one of the six names makes
    [evaluate_dataset] raise [KeyError] with the first such label, and the
    combined evaluation raises the same error when the datasets before this
    one evaluate: no result is returned for any dataset. *)
Theorem unknown_label_aborts (cls : Classifier) (threshold : Q)
    (loaded : T cls) (before after : list (string * list (string * string)))
    (name : string) (pre post : list (string * string)) (text l : string) :
  Forall (fun nd => is_ok (evaluate_dataset cls threshold loaded (snd nd))
                    = true) before ->
  Forall (fun row => In (snd row) (map fst LABEL2ID)) pre ->
  ~ In l (map fst LABEL2ID) ->
  evaluate_dataset cls threshold loaded (pre ++ (text, l) :: post)
    = Raise (KeyError l) /\
  evaluate_combined cls threshold loaded
      (before ++ (name, pre ++ (text, l) :: post) :: after)
    = Raise (KeyError l).
Proof.
  intros Hbefore Hpre Hl.
  assert (Hds : evaluate_dataset cls threshold loaded (pre ++ (text, l) :: post)
                = Raise (KeyError l)).
  { unfold evaluate_dataset.
    rewrite map_app. cbn [map snd].
    rewrite (@mapM_first_raise _ _ (dict_get LABEL2ID) (map snd pre) l
               (map snd post) (KeyError l)).
    - reflexivity.
    - apply Forall_map. eapply Forall_impl; [|exact Hpre].
      intros row Hin. cbn beta in Hin.
      destruct (dict_get_known LABEL2ID (snd row) Hin) as [v ->]. reflexivity.
    - now apply dict_get_missing. }
  split; [exact Hds|].
  unfold evaluate_combined.
  rewrite (@mapM_first_raise _ _
             (fun nd => r <- evaluate_dataset cls threshold loaded (snd nd) ;;
                        Ok (fst nd, r))
             before (name, pre ++ (text, l) :: post) after (KeyError l)).
  - reflexivity.
  - eapply Forall_impl; [|exact Hbefore]. intros nd Hok. cbn beta in Hok |- *.
    destruct (evaluate_dataset cls threshold loaded (snd nd));
      [reflexivity|discriminate Hok].
  - cbn [snd fst]. now rewrite Hds.
Qed.

Lemma unknown_label_aborts_witness :
  evaluate_combined by_text (7 # 10) 0%nat
      ([("intent_test"%string, dataset_A)] ++
       ("user_test"%string,
        [("c"%string, "search"%string)] ++
        ("hello"%string, "greeting"%string) :: dataset_B) :: [])%list
    = Raise (KeyError "greeting").
Proof.
  apply (@unknown_label_aborts by_text (7 # 10) 0%nat
           [("intent_test"%string, dataset_A)] []).
  - repeat constructor.
  - constructor; [right; left; reflexivity|constructor].
  - cbn. intros H.
    repeat (destruct H as [H|H]; [discriminate H|]). exact H.
Defined.

(** ** What a dataset evaluation returns *)

Lemma error_rows_cons (t : string) (ts : list string) (l : Z) (ls : list Z)
    (p : Z) (ps : list Z) (c : Q) (cs : list Q) :
  error_rows (t :: ts) (l :: ls) (p :: ps) (c :: cs)
  = if Z.eqb l p then error_rows ts ls ps cs
    else
      e <- (tn <- id2label ID2LABEL l ;;
            pn <- id2label ID2LABEL p ;;
            Ok {| e_text := t; e_true := tn; e_predicted := pn;
                  e_confidence := c |}) ;;
      rest <- error_rows ts ls ps cs ;;
      Ok (e :: rest).
Proof.
  unfold error_rows, zip4. cbn [combine filter].
  destruct (Z.eqb l p); cbn [negb mapM]; reflexivity.
Qed.

Lemma error_rows_inv (ts : list string) :
  forall (ls ps : list Z) (cs : list Q) (errs : list ErrorRow),
    error_rows ts ls ps cs = Ok errs ->
    length ts = length ls -> length ls = length ps ->
    length ps = length cs ->
    (length errs + count_equal ls ps = length ls)%nat /\
    Forall (fun e => e_true e <> e_predicted e /\
                     In (e_true e) (map fst LABEL2ID) /\
                     In (e_predicted e) (map fst LABEL2ID) /\
                     In (e_text e) ts) errs.
Proof.
  induction ts as [|t ts IH]; intros [|l ls] [|p ps] [|c cs] errs H H1 H2 H3;
    try discriminate H1; try discriminate H2; try discriminate H3.
  - injection H as <-. split; [reflexivity|constructor].
  - rewrite error_rows_cons in H. rewrite count_equal_cons. cbn [length].
    injection H1 as H1. injection H2 as H2. injection H3 as H3.
    destruct (Z.eqb_spec l p) as [->|Hne].
    + destruct (IH _ _ _ _ H H1 H2 H3) as [Hn Hall].
      split; [lia|]. eapply Forall_impl; [|exact Hall].
      intros e (Ha & Hb & Hc & Hd). repeat split; try assumption. now right.
    + destruct (id2label ID2LABEL l) as [tn|e1] eqn:Htn; cbn [bind] in H;
        [|discriminate H].
      destruct (id2label ID2LABEL p) as [pn|e2] eqn:Hpn; cbn [bind] in H;
        [|discriminate H].
      destruct (error_rows ts ls ps cs) as [rest|e3] eqn:Hrest;
        cbn [bind] in H; [|discriminate H].
      injection H as <-.
      destruct (IH _ _ _ _ Hrest H1 H2 H3) as [Hn Hall].
      split; [cbn [length]; lia|].
      constructor.
      * cbn [e_true e_predicted e_text].
        apply id2label_inv in Htn. apply id2label_inv in Hpn.
        split; [intro Heq; subst pn; congruence|].
        split; [apply dict_get_In in Htn;
                now apply (in_map fst) in Htn|].
        split; [apply dict_get_In in Hpn;
                now apply (in_map fst) in Hpn|now left].
      * eapply Forall_impl; [|exact Hall].
        intros e (Ha & Hb & Hc & Hd). repeat split; try assumption. now right.
Qed.

Section DatasetFacts.

Variable cls : Classifier.
Variable threshold : Q.
Variable loaded : T cls.

Lemma predict_lengths (ts : list string) :
  length (fst (predict cls loaded ts)) = length ts /\
  length (snd (predict cls loaded ts)) = length ts.
Proof. unfold predict. cbn [fst snd]. now rewrite !length_map. Qed.

Lemma evaluate_dataset_full (df : list (string * string)) (r : DatasetResult) :
  evaluate_dataset cls threshold loaded df = Ok r ->
  df <> [] /\
  texts r = map fst df /\
  mapM (dict_get LABEL2ID) (map snd df) = Ok (labels r) /\
  predictions r = fst (predict cls loaded (map fst df)) /\
  confidences r = snd (predict cls loaded (map fst df)) /\
  length (labels r) = length df /\
  raw_accuracy r
    = ratio (count_equal (labels r) (predictions r)) (length (labels r)) /\
  ds_adjusted_accuracy r
    = ratio (count_equal (labels r)
               (adjusted_predictions threshold (predictions r) (confidences r)))
            (length (labels r)) /\
  error_rows (texts r) (labels r) (predictions r) (confidences r)
    = Ok (errors r).
Proof.
  unfold evaluate_dataset.
  destruct (mapM (dict_get LABEL2ID) (map snd df)) as [ls|e] eqn:Hls;
    cbn [bind]; [|intro H; discriminate H].
  destruct (predict cls loaded (map fst df)) as [ps cs] eqn:Hp.
  destruct (accuracy_score ls ps) as [raw|e] eqn:Hraw; cbn [bind];
    [|intro H; discriminate H].
  destruct (accuracy_score ls (adjusted_predictions threshold ps cs)) as [adj|e]
    eqn:Hadj; cbn [bind]; [|intro H; discriminate H].
  destruct (error_rows (map fst df) ls ps cs) as [errs|e] eqn:Herr;
    cbn [bind]; [|intro H; discriminate H].
  destruct (Nat.eqb (length (map fst df)) 0) eqn:E; [intro H; discriminate H|].
  intro H. injection H as <-. cbn.
  apply Nat.eqb_neq in E. rewrite length_map in E.
  apply accuracy_score_inv in Hraw. destruct Hraw as [Hlen ->].
  apply accuracy_score_inv in Hadj. destruct Hadj as [_ ->].
  pose proof (predict_lengths (map fst df)) as [Hps _].
  rewrite Hp in Hps. cbn [fst] in Hps. rewrite length_map in Hps.
  split; [intro Hnil; subst df; now apply E|].
  repeat (split; [reflexivity|]).
  split; [congruence|]. auto.
Qed.

End DatasetFacts.

Lemma mapM_length (A B : Type) (f : A -> res B) (xs : list A) (ys : list B) :
  mapM f xs = Ok ys -> length ys = length xs.
Proof.
  intro H. apply mapM_Forall2 in H. symmetry. eapply Forall2_length. exact H.
Qed.

(** X13. A dataset evaluation that returns had at least one row; it gives
    the texts and the ids of the labels of the rows in order, one prediction
    and one confidence per row, accuracies between 0 and 1, and one error
    row for every wrong prediction, so that errors and right answers add up
    to the number of rows.  The two names of an error row differ, both are
    among the six label names, and its text is a text of the dataset. *)
Theorem evaluate_dataset_result (cls : Classifier) (threshold : Q)
    (loaded : T cls) (df : list (string * string)) (r : DatasetResult) :
  evaluate_dataset cls threshold loaded df = Ok r ->
  df <> [] /\
  texts r = map fst df /\
  Forall2 (fun row l => dict_get LABEL2ID (snd row) = Ok l) df (labels r) /\
  length (predictions r) = length df /\
  length (confidences r) = length df /\
  0 <= raw_accuracy r <= 1 /\ 0 <= ds_adjusted_accuracy r <= 1 /\
  (length (errors r) + count_equal (labels r) (predictions r)
   = length df)%nat /\
  Forall (fun e => e_true e <> e_predicted e /\
                   In (e_true e) (map fst LABEL2ID) /\
                   In (e_predicted e) (map fst LABEL2ID) /\
                   In (e_text e) (map fst df)) (errors r).
Proof.
  intro H. apply evaluate_dataset_full in H.
  destruct H as (Hne & Hts & Hls & Hps & Hcs & Hlen & Hraw & Hadj & Herr).
  destruct (predict_lengths cls loaded (map fst df)) as [Hp1 Hp2].
  rewrite <- Hps in Hp1. rewrite <- Hcs in Hp2. rewrite length_map in Hp1, Hp2.
  apply error_rows_inv in Herr;
    [|rewrite Hts, length_map; congruence|congruence|congruence].
  destruct Herr as [Hcount Hall].
  split; [exact Hne|]. split; [exact Hts|].
  split.
  { apply mapM_Forall2 in Hls. clear - Hls. revert Hls.
    generalize (labels r). induction df as [|row df IH]; intros ls H;
      inversion H; subst; constructor; auto. }
  split; [exact Hp1|]. split; [exact Hp2|].
  split; [rewrite Hraw; apply ratio_bounds, count_equal_le|].
  split; [rewrite Hadj; apply ratio_bounds, count_equal_le|].
  split; [lia|]. now rewrite <- Hts.
Qed.

Lemma evaluate_dataset_result_witness :
  exists r,
    evaluate_dataset by_text (7 # 10) 0%nat dataset_A = Ok r /\
    (length (errors r) + count_equal (labels r) (predictions r) = 10)%nat /\
    Forall (fun e => e_true e <> e_predicted e) (errors r).
Proof.
  destruct (evaluate_dataset by_text (7 # 10) 0%nat dataset_A) as [r|e] eqn:Hr;
    [|vm_compute in Hr; discriminate Hr].
  exists r. split; [reflexivity|].
  destruct (@evaluate_dataset_result by_text (7 # 10) 0%nat dataset_A r Hr)
    as (_ & _ & _ & _ & _ & _ & _ & Hcount & Hall).
  split; [exact Hcount|].
  eapply Forall_impl; [|exact Hall]. intros e H. exact (proj1 H).
Defined.

(** ** What the combined evaluation returns *)

Lemma count_equal_flat_map (A : Type) (f g : A -> list Z) (l : list A) :
  Forall (fun x => length (f x) = length (g x)) l ->
  count_equal (flat_map f l) (flat_map g l)
  = list_sum (map (fun x => count_equal (f x) (g x)) l).
Proof.
  induction 1 as [|x l Hx _ IH]; cbn [flat_map map list_sum fold_right].
  - reflexivity.
  - rewrite count_equal_app by exact Hx. unfold list_sum in IH. now rewrite IH.
Qed.

Lemma adjusted_predictions_length (threshold : Q) (ps : list Z) (cs : list Q) :
  length ps = length cs ->
  length (adjusted_predictions threshold ps cs) = length ps.
Proof.
  intro H. unfold adjusted_predictions. rewrite length_map, length_combine. lia.
Qed.

Lemma adjusted_predictions_app (threshold : Q) (p1 p2 : list Z) (c1 c2 : list Q) :
  length p1 = length c1 ->
  adjusted_predictions threshold (p1 ++ p2) (c1 ++ c2)
  = adjusted_predictions threshold p1 c1 ++ adjusted_predictions threshold p2 c2.
Proof.
  unfold adjusted_predictions. revert c1.
  induction p1 as [|p p1 IH]; intros [|c c1] H; try discriminate H.
  - reflexivity.
  - injection H as H. cbn [app combine map]. now rewrite IH.
Qed.

Lemma adjusted_predictions_flat_map (A : Type) (threshold : Q) (f : A -> list Z)
    (g : A -> list Q) (l : list A) :
  Forall (fun x => length (f x) = length (g x)) l ->
  adjusted_predictions threshold (flat_map f l) (flat_map g l)
  = flat_map (fun x => adjusted_predictions threshold (f x) (g x)) l.
Proof.
  induction 1 as [|x l Hx _ IH]; cbn [flat_map].
  - reflexivity.
  - rewrite adjusted_predictions_app by exact Hx. now rewrite IH.
Qed.

Lemma nodup_length_le (l : list Z) :
  (length (nodup Z.eq_dec l) <= length l)%nat.
Proof.
  induction l as [|a l IH]; cbn [nodup length]; [lia|].
  destruct (in_dec Z.eq_dec a l); cbn [length]; lia.
Qed.

Lemma list_sum_map_add (A : Type) (f g : A -> nat) (l : list A) :
  list_sum (map (fun x => (f x + g x)%nat) l)
  = (list_sum (map f l) + list_sum (map g l))%nat.
Proof.
  induction l as [|x l IH]; cbn [map list_sum fold_right]; [reflexivity|].
  unfold list_sum in IH. rewrite IH. lia.
Qed.

Lemma list_sum_map_ext (A : Type) (f g : A -> nat) (l : list A) :
  Forall (fun x => f x = g x) l ->
  list_sum (map f l) = list_sum (map g l).
Proof.
  induction 1 as [|x l Hx _ IH]; cbn [map list_sum fold_right]; [reflexivity|].
  unfold list_sum in IH. now rewrite IH, Hx.
Qed.

Section CombinedCounts.

Variable cls : Classifier.
Variable threshold : Q.
Variable loaded : T cls.

(** The pooled lists of [evaluate_combined], over the per-dataset results. *)
Local Abbreviation pooled_labels results :=
  (flat_map (fun nr : string * DatasetResult => labels (snd nr)) results).
Local Abbreviation pooled_predictions results :=
  (flat_map (fun nr : string * DatasetResult => predictions (snd nr)) results).
Local Abbreviation pooled_confidences results :=
  (flat_map (fun nr : string * DatasetResult => confidences (snd nr)) results).
Local Abbreviation pooled_texts results :=
  (flat_map (fun nr : string * DatasetResult => texts (snd nr)) results).

Lemma evaluate_combined_full
    (datasets : list (string * list (string * string))) (r : CombinedResult) :
  evaluate_combined cls threshold loaded datasets = Ok r ->
  exists results : list (string * DatasetResult),
    Forall2 (fun nd nr =>
               fst nr = fst nd /\
               evaluate_dataset cls threshold loaded (snd nd) = Ok (snd nr))
            datasets results /\
    combined_raw_accuracy r
      = ratio (count_equal (pooled_labels results)
                           (pooled_predictions results))
              (length (pooled_labels results)) /\
    combined_adjusted_accuracy r
      = ratio (count_equal (pooled_labels results)
                 (adjusted_predictions threshold (pooled_predictions results)
                                 (pooled_confidences results)))
              (length (pooled_labels results)) /\
    length (nodup Z.eq_dec (pooled_labels results ++
                            pooled_predictions results))
      = length LABEL2ID /\
    (exists errs,
       error_rows (pooled_texts results) (pooled_labels results)
                  (pooled_predictions results) (pooled_confidences results)
         = Ok errs /\
       total_errors r = length errs) /\
    total_samples r = length (pooled_labels results) /\
    per_dataset r
      = map (fun nr => (fst nr, (raw_accuracy (snd nr),
                                 ds_adjusted_accuracy (snd nr)))) results.
Proof.
  unfold evaluate_combined.
  destruct (mapM (fun nd => r <- evaluate_dataset cls threshold loaded (snd nd) ;;
                            Ok (fst nd, r)) datasets)
    as [results|e] eqn:Hres; cbn [bind]; [|intro H; discriminate H].
  apply mapM_Forall2 in Hres.
  destruct (accuracy_score _ _) as [raw|e] eqn:Hraw; cbn [bind];
    [|intro H; discriminate H].
  apply accuracy_score_inv in Hraw. destruct Hraw as [_ Hraw].
  destruct (accuracy_score _ _) as [adj|e] eqn:Hadj; cbn [bind];
    [|intro H; discriminate H].
  apply accuracy_score_inv in Hadj. destruct Hadj as [_ Hadj].
  destruct (classification_report_check _ _) as [[]|e] eqn:Hrep; cbn [bind];
    [|intro H; discriminate H].
  destruct (error_rows _ _ _ _) as [errs|e] eqn:Herr; cbn [bind];
    [|intro H; discriminate H].
  destruct (Nat.eqb _ 0); [intro H; discriminate H|].
  intro H. injection H as <-. cbn.
  exists results.
  split.
  { clear - Hres. induction Hres as [|nd nr ds rs Hnd _ IH]; constructor;
      [|exact IH].
    destruct (evaluate_dataset cls threshold loaded (snd nd)) as [res|e];
      cbn [bind] in Hnd; [|discriminate Hnd].
    injection Hnd as <-. auto. }
  split; [exact Hraw|]. split; [exact Hadj|].
  split.
  { unfold classification_report_check in Hrep.
    destruct (Nat.eqb _ _) eqn:E in Hrep; [|discriminate Hrep].
    now apply Nat.eqb_eq in E. }
  split; [now exists errs|]. auto.
Qed.

(** Every per-dataset result has one label, prediction, confidence and text
    per row. *)
Lemma results_row_counts
    (datasets : list (string * list (string * string)))
    (results : list (string * DatasetResult)) :
  Forall2 (fun nd nr =>
             fst nr = fst nd /\
             evaluate_dataset cls threshold loaded (snd nd) = Ok (snd nr))
          datasets results ->
  map fst results = map fst datasets /\
  list_sum (map (fun nr => length (labels (snd nr))) results)
    = list_sum (map (fun nd => length (snd nd)) datasets) /\
  Forall (fun nr =>
            length (texts (snd nr)) = length (labels (snd nr)) /\
            length (labels (snd nr)) = length (predictions (snd nr)) /\
            length (predictions (snd nr)) = length (confidences (snd nr)) /\
            (length (errors (snd nr))
             + count_equal (labels (snd nr)) (predictions (snd nr))
             = length (labels (snd nr)))%nat /\
            ds_adjusted_accuracy (snd nr)
              = ratio (count_equal (labels (snd nr))
                         (adjusted_predictions threshold (predictions (snd nr))
                                         (confidences (snd nr))))
                      (length (labels (snd nr))))
         results.
Proof.
  induction 1 as [|nd nr ds rs [Hname Hnd] _ (IH1 & IH2 & IH3)].
  - repeat split; constructor.
  - apply evaluate_dataset_full in Hnd.
    destruct Hnd as (_ & Hts & _ & Hps & Hcs & Hlen & _ & Hadj & Herr).
    destruct (predict_lengths cls loaded (map fst (snd nd))) as [Hp1 Hp2].
    rewrite <- Hps in Hp1. rewrite <- Hcs in Hp2.
    rewrite length_map in Hp1, Hp2.
    assert (Ht : length (texts (snd nr)) = length (labels (snd nr)))
      by (rewrite Hts, length_map; congruence).
    apply error_rows_inv in Herr; [|exact Ht|congruence|congruence].
    cbn [map list_sum fold_right]. unfold list_sum in IH2.
    split; [now rewrite Hname, IH1|].
    split; [now rewrite Hlen, IH2|].
    constructor; [|exact IH3].
    split; [exact Ht|]. split; [congruence|]. split; [congruence|].
    split; [exact (proj1 Herr)|exact Hadj].
Qed.

End CombinedCounts.

(** X14. A combined evaluation that returns lists the datasets by name in
    their order, counts every row of every dataset, and saw at least three
    rows.  Its number of errors is the sum of the numbers of errors of the
    datasets, and the combined raw accuracy is the rows without error over
    all rows. *)
Theorem evaluate_combined_result (cls : Classifier) (threshold : Q)
    (loaded : T cls) (datasets : list (string * list (string * string)))
    (r : CombinedResult) :
  evaluate_combined cls threshold loaded datasets = Ok r ->
  map fst (per_dataset r) = map fst datasets /\
  total_samples r = list_sum (map (fun nd => length (snd nd)) datasets) /\
  (3 <= total_samples r)%nat /\
  (total_errors r <= total_samples r)%nat /\
  combined_raw_accuracy r
    = ratio (total_samples r - total_errors r) (total_samples r) /\
  0 <= combined_raw_accuracy r <= 1 /\
  0 <= combined_adjusted_accuracy r <= 1 /\
  exists results,
    Forall2 (fun nd res =>
               evaluate_dataset cls threshold loaded (snd nd) = Ok res)
            datasets results /\
    total_errors r = list_sum (map (fun res => length (errors res)) results).
Proof.
  intro H. apply evaluate_combined_full in H.
  destruct H as (results & Hres & Hraw & Hadj & Hrep & (errs & Herr & Hte)
                 & Hts & Hper).
  destruct (@results_row_counts _ _ _ _ _ Hres) as (Hnames & Hsum & Hrows).
  assert (Hl1 : Forall (fun nr : string * DatasetResult =>
                          length (labels (snd nr))
                          = length (predictions (snd nr))) results).
  { eapply Forall_impl; [|exact Hrows]. intros nr H. exact (proj1 (proj2 H)). }
  assert (Hlp : length (flat_map (fun nr : string * DatasetResult =>
                                    labels (snd nr)) results)
                = length (flat_map (fun nr : string * DatasetResult =>
                                      predictions (snd nr)) results)).
  { rewrite !length_flat_map. apply list_sum_map_ext. exact Hl1. }
  assert (Hpc : length (flat_map (fun nr : string * DatasetResult =>
                                    predictions (snd nr)) results)
                = length (flat_map (fun nr : string * DatasetResult =>
                                      confidences (snd nr)) results)).
  { rewrite !length_flat_map. apply list_sum_map_ext.
    eapply Forall_impl; [|exact Hrows]. intros nr H.
    exact (proj1 (proj2 (proj2 H))). }
  assert (Htl : length (flat_map (fun nr : string * DatasetResult =>
                                    texts (snd nr)) results)
                = length (flat_map (fun nr : string * DatasetResult =>
                                      labels (snd nr)) results)).
  { rewrite !length_flat_map. apply list_sum_map_ext.
    eapply Forall_impl; [|exact Hrows]. intros nr H. exact (proj1 H). }
  apply error_rows_inv in Herr; [|exact Htl|exact Hlp|exact Hpc].
  destruct Herr as [Hcount _].
  pose proof (nodup_length_le
                (flat_map (fun nr : string * DatasetResult =>
                             labels (snd nr)) results ++
                 flat_map (fun nr : string * DatasetResult =>
                             predictions (snd nr)) results)) as Hnd.
  rewrite Hrep, length_app, <- Hlp in Hnd. cbn [length LABEL2ID] in Hnd.
  split; [rewrite Hper, map_map; exact Hnames|].
  split; [rewrite Hts, length_flat_map; exact Hsum|].
  split; [lia|]. split; [lia|].
  split.
  { rewrite Hraw, Hts, Hte. f_equal. lia. }
  split; [rewrite Hraw; apply ratio_bounds, count_equal_le|].
  split; [rewrite Hadj; apply ratio_bounds, count_equal_le|].
  exists (map snd results).
  split.
  { clear - Hres. induction Hres as [|nd nr ds rs [_ Hnd] _ IH];
      cbn [map]; constructor; assumption. }
  rewrite map_map, Hte.
  rewrite (count_equal_flat_map _ _ Hl1) in Hcount.
  rewrite length_flat_map in Hcount.
  assert (Hsplit : list_sum (map (fun nr : string * DatasetResult =>
                                    length (labels (snd nr))) results)
                   = (list_sum (map (fun nr : string * DatasetResult =>
                                       length (errors (snd nr))) results)
                      + list_sum (map (fun nr : string * DatasetResult =>
                                         count_equal (labels (snd nr))
                                                     (predictions (snd nr)))
                                      results))%nat).
  { rewrite <- list_sum_map_add. apply list_sum_map_ext.
    eapply Forall_impl; [|exact Hrows]. intros nr H. symmetry.
    exact (proj1 (proj2 (proj2 (proj2 H)))). }
  lia.
Qed.

Lemma evaluate_combined_result_witness :
  exists r,
    evaluate_combined by_text (7 # 10) 0%nat two_datasets = Ok r /\
    total_samples r = 15%nat /\
    combined_raw_accuracy r
      = ratio (total_samples r - total_errors r) (total_samples r).
Proof.
  destruct (evaluate_combined by_text (7 # 10) 0%nat two_datasets)
    as [r|e] eqn:Hrun; [|vm_compute in Hrun; discriminate Hrun].
  exists r. split; [reflexivity|].
  destruct (@evaluate_combined_result by_text (7 # 10) 0%nat two_datasets
              r Hrun) as (_ & H2 & _ & _ & H5 & _).
  split; [exact H2|exact H5].
Defined.

(** X15. The combined adjusted accuracy is pooled as the raw one is: the
    fallback applied to the concatenated predictions gives, dataset by
    dataset, the adjusted predictions of that dataset, so the combined value
    is the number of right adjusted answers of all datasets over the
    examples of all datasets. *)
Theorem combined_adjusted_accuracy_is_pooled (cls : Classifier)
    (threshold : Q) (loaded : T cls)
    (datasets : list (string * list (string * string)))
    (r : CombinedResult) :
  evaluate_combined cls threshold loaded datasets = Ok r ->
  exists results,
    Forall2 (fun nd res =>
               evaluate_dataset cls threshold loaded (snd nd) = Ok res)
            datasets results /\
    Forall (fun res =>
              ds_adjusted_accuracy res
              = ratio (count_equal (labels res)
                         (adjusted_predictions threshold (predictions res)
                                         (confidences res)))
                      (length (labels res))) results /\
    map (fun x => snd (snd x)) (per_dataset r)
      = map ds_adjusted_accuracy results /\
    combined_adjusted_accuracy r
      = ratio (list_sum
                 (map (fun res =>
                         count_equal (labels res)
                           (adjusted_predictions threshold (predictions res)
                                           (confidences res))) results))
              (pooled_size results).
Proof.
  intro H. apply evaluate_combined_full in H.
  destruct H as (results & Hres & _ & Hadj & _ & _ & _ & Hper).
  destruct (@results_row_counts _ _ _ _ _ Hres) as (_ & _ & Hrows).
  exists (map snd results).
  split.
  { clear - Hres. induction Hres as [|nd nr ds rs [_ Hnd] _ IH];
      cbn [map]; constructor; assumption. }
  split.
  { apply Forall_map. eapply Forall_impl; [|exact Hrows]. intros nr H.
    exact (proj2 (proj2 (proj2 (proj2 H)))). }
  split; [rewrite Hper, !map_map; reflexivity|].
  rewrite Hadj.
  rewrite (@adjusted_predictions_flat_map _ threshold
             (fun nr : string * DatasetResult => predictions (snd nr))
             (fun nr : string * DatasetResult => confidences (snd nr))).
  2:{ eapply Forall_impl; [|exact Hrows]. intros nr H.
      exact (proj1 (proj2 (proj2 H))). }
  rewrite (@count_equal_flat_map _
             (fun nr : string * DatasetResult => labels (snd nr))
             (fun nr : string * DatasetResult =>
                adjusted_predictions threshold (predictions (snd nr))
                               (confidences (snd nr)))).
  2:{ eapply Forall_impl; [|exact Hrows]. intros nr H.
      cbn beta. rewrite adjusted_predictions_length; [exact (proj1 (proj2 H))|].
      exact (proj1 (proj2 (proj2 H))). }
  unfold pooled_size. rewrite length_flat_map, !map_map. reflexivity.
Qed.

Lemma combined_adjusted_accuracy_is_pooled_witness :
  exists r,
    evaluate_combined by_text (7 # 10) 0%nat two_datasets = Ok r /\
    exists results,
      Forall2 (fun nd res =>
                 evaluate_dataset by_text (7 # 10) 0%nat (snd nd) = Ok res)
              two_datasets results /\
      combined_adjusted_accuracy r
        = ratio (list_sum
                   (map (fun res =>
                           count_equal (labels res)
                             (adjusted_predictions (7 # 10) (predictions res)
                                             (confidences res))) results))
                (pooled_size results).
Proof.
  destruct (evaluate_combined by_text (7 # 10) 0%nat two_datasets)
    as [r|e] eqn:Hrun; [|vm_compute in Hrun; discriminate Hrun].
  exists r. split; [reflexivity|].
  destruct (@combined_adjusted_accuracy_is_pooled by_text (7 # 10) 0%nat
              two_datasets r Hrun) as (results & H1 & _ & _ & H4).
  exists results. split; [exact H1|exact H4].
Defined.

(** ** The error breakdown *)

Lemma append_error_keys_old (d : list (string * list ErrorRow)) (k : string)
    (e : ErrorRow) :
  In k (map fst d) -> map fst (append_error d k e) = map fst d.
Proof.
  induction d as [|[k0 es0] d IH]; cbn [append_error map fst In]; intro H.
  - contradiction.
  - destruct (String.eqb_spec k k0) as [->|Hne]; [reflexivity|].
    cbn [map fst]. f_equal. apply IH. destruct H as [H|H]; [congruence|exact H].
Qed.

Lemma append_error_keys_new (d : list (string * list ErrorRow)) (k : string)
    (e : ErrorRow) :
  ~ In k (map fst d) -> map fst (append_error d k e) = map fst d ++ [k].
Proof.
  induction d as [|[k0 es0] d IH]; cbn [append_error map fst In app]; intro H.
  - reflexivity.
  - destruct (String.eqb_spec k k0) as [->|Hne]; [exfalso; apply H; now left|].
    cbn [map fst]. f_equal. apply IH. intro Hin. apply H. now right.
Qed.

Lemma append_error_In (d : list (string * list ErrorRow)) (k : string)
    (e : ErrorRow) (k' : string) (es' : list ErrorRow) :
  NoDup (map fst d) ->
  In (k', es') (append_error d k e) ->
  (k' <> k /\ In (k', es') d) \/
  (k' = k /\ ((exists es, In (k, es) d /\ es' = es ++ [e]) \/
              (~ In k (map fst d) /\ es' = [e]))).
Proof.
  induction d as [|[k0 es0] d IH]; cbn [append_error map fst In]; intros Hnd H.
  - destruct H as [H|[]]. injection H as <- <-.
    right. split; [reflexivity|]. right. split; [tauto|reflexivity].
  - inversion Hnd as [|? ? Hk0 Hnd']; subst.
    destruct (String.eqb_spec k k0) as [->|Hne].
    + destruct H as [H|H].
      * injection H as <- <-. right. split; [reflexivity|].
        left. exists es0. split; [now left|reflexivity].
      * left. split; [|now right].
        intros ->. apply Hk0. now apply (in_map fst) in H.
    + destruct H as [H|H].
      * injection H as <- <-. left. split; [congruence|now left].
      * destruct (IH Hnd' H) as [[Hk Hin]|[-> [(es & Hin & ->)|[Hnew ->]]]].
        -- left. split; [exact Hk|now right].
        -- right. split; [reflexivity|]. left. exists es.
           split; [now right|reflexivity].
        -- right. split; [reflexivity|]. right.
           split; [|reflexivity]. intros [Heq|Hin]; [congruence|tauto].
Qed.

Lemma append_error_sizes (d : list (string * list ErrorRow)) (k : string)
    (e : ErrorRow) :
  list_sum (map (fun g => length (snd g)) (append_error d k e))
  = S (list_sum (map (fun g => length (snd g)) d)).
Proof.
  induction d as [|[k0 es0] d IH]; cbn [append_error]; [reflexivity|].
  destruct (String.eqb k k0); cbn [map list_sum fold_right snd].
  - rewrite length_app. cbn [length]. lia.
  - unfold list_sum in IH. rewrite IH. lia.
Qed.

Lemma filter_nil_of_none (A : Type) (f : A -> bool) (l : list A) :
  (forall x, In x l -> f x = false) -> filter f l = [].
Proof.
  induction l as [|a l IH]; cbn [filter]; intro H; [reflexivity|].
  rewrite (H a (or_introl eq_refl)). apply IH. intros x Hx. apply H. now right.
Qed.

(** The dictionary after the errors [seen]: distinct keys, every entry the
    errors of its key in their order, every error under its key. *)
Lemma error_types_step (d : list (string * list ErrorRow))
    (seen : list ErrorRow) (e : ErrorRow) :
  (NoDup (map fst d) /\
   (forall k es, In (k, es) d ->
      es <> [] /\ es = filter (fun x => String.eqb (error_key x) k) seen) /\
   (forall x, In x seen -> In (error_key x) (map fst d)) /\
   list_sum (map (fun g => length (snd g)) d) = length seen) ->
  (NoDup (map fst (append_error d (error_key e) e)) /\
   (forall k es, In (k, es) (append_error d (error_key e) e) ->
      es <> [] /\
      es = filter (fun x => String.eqb (error_key x) k) (seen ++ [e])) /\
   (forall x, In x (seen ++ [e]) ->
      In (error_key x) (map fst (append_error d (error_key e) e))) /\
   list_sum (map (fun g => length (snd g)) (append_error d (error_key e) e))
   = length (seen ++ [e])).
Proof.
  intros (Hnd & Hgroups & Hkeys & Hsum).
  assert (Hk : In (error_key e) (map fst (append_error d (error_key e) e))).
  { destruct (in_dec string_dec (error_key e) (map fst d)) as [Hin|Hnew].
    - now rewrite append_error_keys_old.
    - rewrite append_error_keys_new by exact Hnew.
      apply in_or_app. right. now left. }
  split; [|split; [|split]].
  - destruct (in_dec string_dec (error_key e) (map fst d)) as [Hin|Hnew].
    + now rewrite append_error_keys_old.
    + rewrite append_error_keys_new by exact Hnew.
      apply NoDup_app; [exact Hnd|repeat constructor; intros []|].
      intros a Ha [<-|[]]. contradiction.
  - intros k es Hin. rewrite filter_app. cbn [filter].
    destruct (@append_error_In _ _ _ _ _ Hnd Hin)
      as [[Hne Hold]|[-> [(es0 & Hold & ->)|[Hnew ->]]]].
    + destruct (Hgroups k es Hold) as [H1 H2].
      destruct (String.eqb_spec (error_key e) k) as [Heq|_]; [congruence|].
      rewrite app_nil_r. auto.
    + destruct (Hgroups _ es0 Hold) as [H1 H2].
      rewrite String.eqb_refl, <- H2.
      split; [destruct es0; discriminate|reflexivity].
    + rewrite String.eqb_refl. split; [discriminate|].
      rewrite filter_nil_of_none; [reflexivity|].
      intros x Hx. destruct (String.eqb_spec (error_key x) (error_key e))
        as [Heq|_]; [|reflexivity].
      exfalso. apply Hnew. rewrite <- Heq. now apply Hkeys.
  - intros x Hx. apply in_app_or in Hx. destruct Hx as [Hx|[<-|[]]];
      [|exact Hk].
    destruct (in_dec string_dec (error_key e) (map fst d)) as [Hin|Hnew].
    + rewrite append_error_keys_old by exact Hin. now apply Hkeys.
    + rewrite append_error_keys_new by exact Hnew.
      apply in_or_app. left. now apply Hkeys.
  - rewrite append_error_sizes, Hsum, length_app. cbn [length]. lia.
Qed.

Lemma error_types_groups (errs : list ErrorRow) :
  NoDup (map fst (error_types errs)) /\
  (forall k es, In (k, es) (error_types errs) ->
     es <> [] /\ es = filter (fun x => String.eqb (error_key x) k) errs) /\
  (forall x, In x errs -> In (error_key x) (map fst (error_types errs))) /\
  list_sum (map (fun g => length (snd g)) (error_types errs)) = length errs.
Proof.
  unfold error_types.
  assert (Hgen : forall rest d seen,
            (NoDup (map fst d) /\
             (forall k es, In (k, es) d ->
                es <> [] /\
                es = filter (fun x => String.eqb (error_key x) k) seen) /\
             (forall x, In x seen -> In (error_key x) (map fst d)) /\
             list_sum (map (fun g => length (snd g)) d) = length seen) ->
            let d' := fold_left (fun d e => append_error d (error_key e) e)
                                rest d in
            NoDup (map fst d') /\
            (forall k es, In (k, es) d' ->
               es <> [] /\
               es = filter (fun x => String.eqb (error_key x) k)
                           (seen ++ rest)) /\
            (forall x, In x (seen ++ rest) -> In (error_key x) (map fst d')) /\
            list_sum (map (fun g => length (snd g)) d')
            = length (seen ++ rest)).
  { induction rest as [|e rest IH]; intros d seen H; cbn [fold_left].
    - now rewrite app_nil_r.
    - apply error_types_step with (e := e) in H.
      specialize (IH _ _ H). cbn zeta in IH.
      replace (seen ++ e :: rest) with ((seen ++ [e]) ++ rest)
        by (rewrite <- app_assoc; reflexivity).
      exact IH. }
  apply (Hgen errs [] []).
  split; [constructor|]. split; [intros k es []|].
  split; [intros x []|reflexivity].
Qed.

Lemma insert_by_size_In (x y : string * list ErrorRow)
    (l : list (string * list ErrorRow)) :
  In y (insert_by_size x l) <-> y = x \/ In y l.
Proof.
  induction l as [|z l IH]; cbn [insert_by_size In].
  - intuition congruence.
  - destruct (length (snd z) <=? length (snd x))%nat; cbn [In].
    + intuition congruence.
    + rewrite IH. intuition congruence.
Qed.

Lemma sorted_by_size_In (y : string * list ErrorRow)
    (l : list (string * list ErrorRow)) :
  In y (sorted_by_size l) <-> In y l.
Proof.
  induction l as [|x l IH]; cbn [sorted_by_size fold_right In]; [tauto|].
  fold (sorted_by_size l). rewrite insert_by_size_In, IH. intuition congruence.
Qed.

Lemma insert_by_size_keys_NoDup (x : string * list ErrorRow)
    (l : list (string * list ErrorRow)) :
  NoDup (map fst (x :: l)) -> NoDup (map fst (insert_by_size x l)).
Proof.
  induction l as [|z l IH]; cbn [insert_by_size]; intro H; [exact H|].
  destruct (length (snd z) <=? length (snd x))%nat; [exact H|].
  cbn [map] in H |- *.
  inversion H as [|? ? Hx Hrest]; subst.
  inversion Hrest as [|? ? Hz Hl]; subst.
  constructor.
  - intro Hin. apply in_map_iff in Hin. destruct Hin as (y & Hy & Hin).
    apply (proj1 (insert_by_size_In _ _ _)) in Hin. destruct Hin as [->|Hin].
    + apply Hx. left. now symmetry.
    + apply Hz. rewrite <- Hy. now apply in_map.
  - apply IH. cbn [map]. constructor; [|exact Hl].
    intro Hin. apply Hx. now right.
Qed.

Lemma insert_by_size_sorted (x : string * list ErrorRow)
    (l : list (string * list ErrorRow)) :
  StronglySorted (fun a b => (length (snd b) <= length (snd a))%nat) l ->
  StronglySorted (fun a b => (length (snd b) <= length (snd a))%nat)
                 (insert_by_size x l).
Proof.
  induction 1 as [|z l Hl IH Hz]; cbn [insert_by_size].
  - repeat constructor.
  - destruct (Nat.leb_spec (length (snd z)) (length (snd x))) as [Hle|Hgt].
    + constructor; [constructor; assumption|].
      constructor; [exact Hle|].
      eapply Forall_impl; [|exact Hz]. cbn beta. intros a Ha. lia.
    + constructor; [exact IH|].
      apply Forall_forall. intros a Ha. apply (proj1 (insert_by_size_In _ _ _)) in Ha.
      destruct Ha as [->|Ha]; [lia|].
      rewrite Forall_forall in Hz. now apply Hz.
Qed.

Lemma insert_by_size_stable (n : nat) (x : string * list ErrorRow)
    (l : list (string * list ErrorRow)) :
  filter (fun g => Nat.eqb (length (snd g)) n) (insert_by_size x l)
  = filter (fun g => Nat.eqb (length (snd g)) n) (x :: l).
Proof.
  induction l as [|z l IH]; cbn [insert_by_size]; [reflexivity|].
  destruct (Nat.leb_spec (length (snd z)) (length (snd x))) as [Hle|Hgt];
    [reflexivity|].
  cbn [filter] in IH |- *. rewrite IH.
  destruct (Nat.eqb_spec (length (snd z)) n) as [Hz|Hz];
    destruct (Nat.eqb_spec (length (snd x)) n) as [Hx|Hx];
    try reflexivity.
  lia.
Qed.

Lemma insert_by_size_sizes (x : string * list ErrorRow)
    (l : list (string * list ErrorRow)) :
  list_sum (map (fun g => length (snd g)) (insert_by_size x l))
  = (length (snd x) + list_sum (map (fun g => length (snd g)) l))%nat.
Proof.
  induction l as [|z l IH]; cbn [insert_by_size]; [reflexivity|].
  destruct (length (snd z) <=? length (snd x))%nat; [reflexivity|].
  cbn [map list_sum fold_right] in IH |- *. unfold list_sum in IH.
  rewrite IH. lia.
Qed.

Lemma sorted_by_size_facts (l : list (string * list ErrorRow)) :
  (NoDup (map fst l) -> NoDup (map fst (sorted_by_size l))) /\
  StronglySorted (fun a b => (length (snd b) <= length (snd a))%nat)
                 (sorted_by_size l) /\
  (forall n,
     filter (fun g => Nat.eqb (length (snd g)) n) (sorted_by_size l)
     = filter (fun g => Nat.eqb (length (snd g)) n) l) /\
  list_sum (map (fun g => length (snd g)) (sorted_by_size l))
  = list_sum (map (fun g => length (snd g)) l).
Proof.
  induction l as [|x l (IH1 & IH2 & IH3 & IH4)];
    cbn [sorted_by_size fold_right].
  - split; [auto|]. split; [constructor|]. auto.
  - fold (sorted_by_size l).
    split; [|split; [|split]].
    + intro H. apply insert_by_size_keys_NoDup. cbn [map] in H |- *.
      inversion H as [|? ? Hx Hl]; subst.
      constructor; [|now apply IH1].
      intro Hin. apply Hx. apply in_map_iff in Hin.
      destruct Hin as (y & Hy & Hin). apply (proj1 (sorted_by_size_In _ _)) in Hin.
      rewrite <- Hy. exact (in_map fst _ _ Hin).
    + now apply insert_by_size_sorted.
    + intro n. rewrite insert_by_size_stable. cbn [filter]. now rewrite IH3.
    + rewrite insert_by_size_sizes, IH4. reflexivity.
Qed.

(** X16. The error breakdown has one entry per kind of confusion that
    occurs, under distinct keys; an entry holds exactly the errors of its
    key, in their order, and is not empty, and the sizes add up to the number
    of errors.  The entries are listed by decreasing size, entries of the
    same size in the order in which their keys first occurred. *)
Theorem error_breakdown_groups (all_errors : list ErrorRow) :
  NoDup (map fst (error_breakdown all_errors)) /\
  (forall key es, In (key, es) (error_breakdown all_errors) ->
     es <> [] /\
     es = filter (fun e => String.eqb (error_key e) key) all_errors) /\
  (forall e, In e all_errors ->
     In (error_key e) (map fst (error_breakdown all_errors))) /\
  list_sum (map (fun g => length (snd g)) (error_breakdown all_errors))
    = length all_errors /\
  StronglySorted (fun a b => (length (snd b) <= length (snd a))%nat)
                 (error_breakdown all_errors) /\
  (forall n,
     filter (fun g => Nat.eqb (length (snd g)) n) (error_breakdown all_errors)
     = filter (fun g => Nat.eqb (length (snd g)) n) (error_types all_errors)).
Proof.
  unfold error_breakdown.
  destruct (error_types_groups all_errors) as (Hnd & Hgroups & Hkeys & Hsum).
  destruct (sorted_by_size_facts (error_types all_errors))
    as (H1 & H2 & H3 & H4).
  split; [now apply H1|].
  split; [intros key es Hin; apply Hgroups; now apply (proj1 (sorted_by_size_In _ _)) in Hin|].
  split.
  { intros e He. specialize (Hkeys e He). apply in_map_iff in Hkeys.
    destruct Hkeys as (g & Hg & Hin). rewrite <- Hg. apply in_map.
    now apply (proj2 (sorted_by_size_In _ _)). }
  split; [now rewrite H4|].
  split; [exact H2|exact H3].
Qed.

(** ** The evaluation on the test set *)

Lemma concat_chunks (A : Type) (n : nat) :
  n <> 0%nat ->
  forall (fuel : nat) (l : list A),
    (length l <= fuel)%nat -> concat (chunks fuel n l) = l.
Proof.
  intros Hn. induction fuel as [|fuel IH]; intros l Hl.
  - destruct l; [reflexivity|cbn [length] in Hl; lia].
  - destruct l as [|a l]; [reflexivity|].
    cbn [chunks concat]. rewrite IH; [apply firstn_skipn|].
    rewrite length_skipn. cbn [length] in Hl |- *. lia.
Qed.

Lemma in_order_labels (cls : Classifier) (rows : list (string * Z))
    (batch_size : nat) (loader : nat -> list (batch (X cls))) (n : nat) :
  DataLoader cls rows batch_size (@in_order _) = Ok loader ->
  batch_size <> 0%nat /\
  concat (map (@label _) (loader n)) = map snd rows /\
  (rows = [] -> loader n = []).
Proof.
  unfold DataLoader.
  destruct (Nat.eqb_spec batch_size 0) as [H0|H0]; [intro H; discriminate H|].
  intro H. injection H as <-. unfold in_order.
  split; [exact H0|]. split.
  - rewrite map_map. cbn [label to_batch].
    rewrite (map_ext (fun c : list (string * Z) =>
                        map snd (map (fun r => (tokenize cls (fst r), snd r)) c))
                     (map snd))
      by (intro c; rewrite map_map; reflexivity).
    rewrite <- concat_map. f_equal. now apply concat_chunks.
  - intros ->. reflexivity.
Qed.

(** X18. The evaluation on the test set raises [ZeroDivisionError] on an
    empty test set.  When it returns, the labels of the result are the
    labels of the test rows in their order, whatever the batch size, with
    one prediction and one confidence per row; both accuracies lie between 0
    and 1; six distinct values occur among labels and predictions, so there
    were at least three rows. *)
Theorem evaluate_on_test_result (cls : Classifier) (config : Config)
    (model : T cls) (test_df : list (string * Z)) :
  (BATCH_SIZE config <> 0%nat ->
   evaluate_on_test cls config model [] = Raise ZeroDivisionError) /\
  (forall r,
     evaluate_on_test cls config model test_df = Ok r ->
     test_labels r = map snd test_df /\
     length (test_predictions r) = length test_df /\
     length (test_confidences r) = length test_df /\
     0 <= test_accuracy r <= 1 /\ 0 <= test_accuracy_adjusted r <= 1 /\
     length (nodup Z.eq_dec (test_labels r ++ test_predictions r))
       = length LABEL2ID /\
     (3 <= length test_df)%nat).
Proof.
  split.
  - intro Hb. unfold evaluate_on_test, DataLoader.
    destruct (Nat.eqb_spec (BATCH_SIZE config) 0) as [H0|_]; [contradiction|].
    reflexivity.
  - intro r. unfold evaluate_on_test.
    destruct (DataLoader cls test_df (BATCH_SIZE config) (@in_order _))
      as [loader|e] eqn:Hload; cbn [bind]; [|intro H; discriminate H].
    apply in_order_labels with (n := 0%nat) in Hload.
    destruct Hload as (_ & Hlabels & _).
    destruct (evaluate cls config model (loader 0%nat)) as [ev|e] eqn:Hev;
      cbn [bind]; [|intro H; discriminate H].
    pose proof (@evaluate_accuracy_bounds _ _ _ _ _ Hev) as [Hacc Hadj].
    apply evaluate_inv in Hev.
    destruct Hev as (_ & _ & Hl & Hpc & Hlp & _).
    destruct (classification_report_check (all_labels ev) (all_preds ev))
      as [[]|e] eqn:Hrep; cbn [bind]; [|intro H; discriminate H].
    intro H. injection H as <-. cbn.
    unfold classification_report_check in Hrep.
    destruct (Nat.eqb_spec
                (length (nodup Z.eq_dec (all_labels ev ++ all_preds ev)))
                (length LABEL2ID)) as [Hsix|_]; [|discriminate Hrep].
    assert (Hlen : length (all_labels ev) = length test_df)
      by (rewrite Hl, Hlabels; apply length_map).
    pose proof (nodup_length_le (all_labels ev ++ all_preds ev)) as Hnd.
    rewrite Hsix, length_app in Hnd. cbn [length LABEL2ID] in Hnd.
    split; [congruence|]. split; [congruence|]. split; [congruence|].
    split; [exact Hacc|]. split; [exact Hadj|]. split; [exact Hsix|lia].
Qed.

Lemma evaluate_on_test_result_witness :
  evaluate_on_test by_text default_config 0%nat [] = Raise ZeroDivisionError /\
  exists r,
    evaluate_on_test by_text default_config 0%nat six_test_rows = Ok r /\
    test_labels r = [0; 1; 2; 3; 4; 5]%Z /\
    length (test_predictions r) = 6%nat.
Proof.
  split.
  - apply (@evaluate_on_test_result by_text default_config 0%nat []).
    discriminate.
  - destruct (evaluate_on_test by_text default_config 0%nat six_test_rows)
      as [r|e] eqn:Hr; [|vm_compute in Hr; discriminate Hr].
    exists r. split; [reflexivity|].
    destruct (@evaluate_on_test_result by_text default_config 0%nat
                six_test_rows) as [_ H].
    destruct (H r Hr) as (H1 & H2 & _).
    split; [exact H1|exact H2].
Defined.

(** ** When a fold returns *)

Section FoldReturns.

Variable cls : Classifier.
Variable config : Config.

(** The classifier gives one prediction, and one row of probabilities, per
    sample of a batch that has one label per input. *)
Hypothesis train_step_rows :
  forall t xs ls, length xs = length ls ->
                  length (snd (train_step cls t xs ls)) = length ls.
Hypothesis forward_rows :
  forall t xs ls, length xs = length ls ->
                  length (snd (forward cls t xs ls)) = length ls.

Lemma train_batches_lengths (loader : list (batch (X cls))) :
  Forall (fun b => length (input_ids b) = length (label b)) loader ->
  forall t total ps ls,
    length ps = length ls ->
    exists t' total' ps' ls',
      fold_left (train_batch cls) loader (t, total, ps, ls)
      = (t', total', ps', ls') /\ length ps' = length ls'.
Proof.
  induction 1 as [|b loader Hb _ IH]; intros t total ps ls Hlen.
  - exists t, total, ps, ls. split; [reflexivity|exact Hlen].
  - cbn [fold_left]. unfold train_batch at 2.
    pose proof (train_step_rows t (input_ids b) (label b) Hb) as Hrows.
    destruct (train_step cls t (input_ids b) (label b)) as [[t1 loss] preds].
    cbn [snd] in Hrows. apply IH. rewrite !length_app. lia.
Qed.

Lemma train_epoch_returns (t : T cls) (loader : list (batch (X cls))) :
  loader <> [] ->
  Forall (fun b => length (input_ids b) = length (label b)) loader ->
  exists r, train_epoch cls t loader = Ok r.
Proof.
  intros Hne Hwf. unfold train_epoch.
  destruct (train_batches_lengths Hwf t (Finite 0) [] [] eq_refl)
    as (t' & total & ps & ls & -> & Hlen).
  destruct loader as [|b loader]; [contradiction|].
  cbn [length fl_div_len bind]. unfold accuracy_score.
  rewrite <- Hlen, Nat.eqb_refl. cbn [bind]. eexists. reflexivity.
Qed.

Lemma eval_batches_lengths (t : T cls) (loader : list (batch (X cls))) :
  Forall (fun b => length (input_ids b) = length (label b)) loader ->
  forall total ps ls cs,
    length ps = length ls -> length cs = length ls ->
    exists total' ps' ls' cs',
      fold_left (eval_batch cls t) loader (total, ps, ls, cs)
      = (total', ps', ls', cs') /\
      length ps' = length ls' /\ length cs' = length ls'.
Proof.
  induction 1 as [|b loader Hb _ IH]; intros total ps ls cs Hp Hc.
  - exists total, ps, ls, cs. auto.
  - cbn [fold_left]. unfold eval_batch at 2.
    pose proof (forward_rows t (input_ids b) (label b) Hb) as Hrows.
    destruct (forward cls t (input_ids b) (label b)) as [loss probs].
    cbn [snd] in Hrows. apply IH; rewrite !length_app, !length_map; lia.
Qed.

Lemma evaluate_returns (t : T cls) (loader : list (batch (X cls))) :
  loader <> [] ->
  Forall (fun b => length (input_ids b) = length (label b)) loader ->
  exists ev, evaluate cls config t loader = Ok ev.
Proof.
  intros Hne Hwf. unfold evaluate.
  destruct (eval_batches_lengths t Hwf (Finite 0) [] [] [] eq_refl eq_refl)
    as (total & ps & ls & cs & -> & Hp & Hc).
  destruct loader as [|b loader]; [contradiction|].
  cbn [length fl_div_len bind]. unfold accuracy_score.
  rewrite <- Hp, Nat.eqb_refl. cbn [bind].
  unfold adjusted_preds. rewrite length_map, length_combine.
  replace (Nat.min (length ps) (length cs)) with (length ps) by lia.
  rewrite Nat.eqb_refl. cbn [bind]. eexists. reflexivity.
Qed.

Variable train_loader : nat -> list (batch (X cls)).
Variable val_loader : list (batch (X cls)).

Hypothesis train_batches :
  forall e, train_loader e <> [] /\
            Forall (fun b => length (input_ids b) = length (label b))
                   (train_loader e).
Hypothesis val_batches :
  val_loader <> [] /\
  Forall (fun b => length (input_ids b) = length (label b)) val_loader.

Lemma epoch_body_returns (e : nat) (st : FoldState cls) :
  exists st' stop,
    epoch_body config (train_loader e) val_loader st = Ok (st', stop).
Proof.
  unfold epoch_body.
  destruct (train_batches e) as [Hne Hwf].
  destruct (train_epoch_returns (model st) Hne Hwf) as ([[t trl] tra] & ->).
  cbn [bind].
  destruct val_batches as [Hvne Hvwf].
  destruct (evaluate_returns t Hvne Hvwf) as (ev & ->). cbn [bind].
  destruct (EarlyStopping_call (early_stopping st) (accuracy ev)
                               (state_dict cls t)) as [es stop].
  eexists. eexists. reflexivity.
Qed.

Lemma epoch_loop_returns (epochs : list nat) :
  forall st : FoldState cls,
    exists st', epoch_loop config train_loader val_loader epochs st = Ok st'.
Proof.
  induction epochs as [|e epochs IH]; intro st; cbn [epoch_loop].
  - now exists st.
  - destruct (epoch_body_returns e st) as (st1 & stop & ->). cbn [bind].
    destruct stop; [now exists st1|apply IH].
Qed.

End FoldReturns.

(** After at least one epoch the early-stopping instance holds a
    snapshot. *)
Lemma epoch_loop_snapshot (cls : Classifier) (config : Config)
    (train_loader : nat -> list (batch (X cls)))
    (val_loader : list (batch (X cls))) (fold_no : Z) (m : nat)
    (st : FoldState cls) :
  epoch_loop config train_loader val_loader (seq 0 (S m))
             (fold_start cls config fold_no) = Ok st ->
  best_model_state (early_stopping st) <> None.
Proof.
  cbn [seq epoch_loop].
  destruct (epoch_body config (train_loader 0%nat) val_loader
                       (fold_start cls config fold_no))
    as [[st1 stop]|e] eqn:Hbody; cbn [bind]; [|intro H; discriminate H].
  destruct (fold_start_progress cls config fold_no) as (H1 & H2 & H3).
  assert (Hpos : 0 < default_min_delta) by reflexivity.
  assert (Hshape1 : fold_shape 1 st1)
    by (eapply fold_shape_step; [exact H1|exact Hbody]).
  assert (Hstep : snapshot_timing default_min_delta 1 st1 /\
                  (stop = false ->
                   still_running (EARLY_STOPPING_PATIENCE config)
                                 default_min_delta st1) /\
                  (stop = true ->
                   counter (early_stopping st1)
                   = Z.max 1 (EARLY_STOPPING_PATIENCE config))).
  { eapply timing_step with (st := fold_start cls config fold_no);
      [exact Hpos|reflexivity|exact H2|exact H3|exact Hbody]. }
  destruct Hstep as (Htime1 & Hgo & _).
  destruct stop.
  - intro H. injection H as <-.
    destruct Htime1 as [(Hk & _)|(e & s & _ & _ & Hsd & _)];
      [discriminate Hk|exact Hsd].
  - intro Hloop.
    eapply epoch_loop_progress in Hloop;
      [|exact Hpos|exact Hshape1|exact Htime1|exact (Hgo eq_refl)].
    destruct Hloop as (k & Hk & _ & Htime & _).
    destruct Htime as [(Hk0 & _)|(e & s & _ & _ & Hsd & _)]; [lia|exact Hsd].
Qed.

(** With at least one epoch to run, the epoch loop ends with a snapshot and
    the fold returns the score of the early-stopping instance. *)
Lemma train_fold_runs (cls : Classifier) (config : Config) (fold_no : Z)
    (train_loader : nat -> list (batch (X cls)))
    (val_loader : list (batch (X cls))) :
  (forall t xs ls, length xs = length ls ->
                   length (snd (train_step cls t xs ls)) = length ls) ->
  (forall t xs ls, length xs = length ls ->
                   length (snd (forward cls t xs ls)) = length ls) ->
  (forall e, train_loader e <> [] /\
             Forall (fun b => length (input_ids b) = length (label b))
                    (train_loader e)) ->
  (val_loader <> [] /\
   Forall (fun b => length (input_ids b) = length (label b)) val_loader) ->
  (0 < MAX_EPOCHS config)%Z ->
  exists t st a,
    epoch_loop config train_loader val_loader (range (MAX_EPOCHS config))
               (fold_start cls config fold_no) = Ok st /\
    best_score (early_stopping st) = Some a /\
    train_fold cls config fold_no train_loader val_loader
      = Ok (t, history st, best_score (early_stopping st)) /\
    0 <= a <= 1.
Proof.
  intros Hstep Hfwd Htrain Hval Hmax.
  destruct (@epoch_loop_returns cls config Hstep Hfwd train_loader val_loader
              Htrain Hval (range (MAX_EPOCHS config))
              (fold_start cls config fold_no)) as [st Hloop].
  assert (Hsd : best_model_state (early_stopping st) <> None).
  { unfold range in Hloop.
    destruct (Z.to_nat (MAX_EPOCHS config)) as [|m] eqn:Hm; [lia|].
    eapply epoch_loop_snapshot. exact Hloop. }
  assert (Hrun : exists t,
            train_fold cls config fold_no train_loader val_loader
            = Ok (t, history st, best_score (early_stopping st))).
  { unfold train_fold. rewrite Hloop. cbn [bind].
    destruct (best_model_state (early_stopping st)) as [sd|];
      [|contradiction].
    cbn [load_state_dict bind]. eexists. reflexivity. }
  destruct Hrun as [t Hrun].
  pose proof Hrun as Hfacts. apply train_fold_progress in Hfacts.
  destruct Hfacts as (st2 & k & Hloop2 & _ & Hbest & _ & _ & Hshape & Htime & _).
  rewrite Hloop in Hloop2. injection Hloop2 as <-.
  destruct Hshape as (_ & _ & _ & _ & _ & Hb & _).
  destruct Htime as [(_ & _ & Hn)|(e & s & Hnth & Hs & _)]; [contradiction|].
  exists t, st, s. split; [exact Hloop|]. split; [exact Hs|].
  split; [exact Hrun|].
  rewrite Forall_forall in Hb. apply Hb. eapply nth_error_In. exact Hnth.
Qed.

(** X19. A fold returns, with a best score between 0 and 1, whenever
    [MAX_EPOCHS] is at least 1, no loader is empty, every batch has one label
    per input, and the classifier answers every such batch with one
    prediction per sample: the snapshot to load exists after the first
    epoch. *)
Theorem fold_returns (cls : Classifier) (config : Config) (fold_no : Z)
    (train_loader : nat -> list (batch (X cls)))
    (val_loader : list (batch (X cls))) :
  (forall t xs ls, length xs = length ls ->
                   length (snd (train_step cls t xs ls)) = length ls) ->
  (forall t xs ls, length xs = length ls ->
                   length (snd (forward cls t xs ls)) = length ls) ->
  (forall e, train_loader e <> [] /\
             Forall (fun b => length (input_ids b) = length (label b))
                    (train_loader e)) ->
  (val_loader <> [] /\
   Forall (fun b => length (input_ids b) = length (label b)) val_loader) ->
  (0 < MAX_EPOCHS config)%Z ->
  exists t h a,
    train_fold cls config fold_no train_loader val_loader = Ok (t, h, Some a) /\
    0 <= a <= 1.
Proof.
  intros Hstep Hfwd Htrain Hval Hmax.
  destruct (@train_fold_runs cls config fold_no train_loader val_loader
              Hstep Hfwd Htrain Hval Hmax)
    as (t & st & a & _ & Hbest & Hrun & Ha).
  exists t, (history st), a. rewrite <- Hbest. split; [exact Hrun|exact Ha].
Qed.

Lemma fold_returns_witness :
  exists t h a,
    train_fold stuck patience_2_config 0 one_train_batch half_right_val
      = Ok (t, h, Some a) /\
    0 <= a <= 1.
Proof.
  apply (@fold_returns stuck patience_2_config 0 one_train_batch
           half_right_val).
  - intros t xs ls _. reflexivity.
  - intros t xs ls H. cbn. now rewrite length_map.
  - intro e. split; [discriminate|repeat constructor].
  - split; [discriminate|repeat constructor].
  - reflexivity.
Defined.

(** ** Losses *)

(** C7, as the code has it.  Nothing in [train_fold] tests a loss.  In every
    epoch whose loaders are not empty and whose batches get one prediction
    per label, whatever the losses that the classifier reports: the training
    pass and the validation pass return; the average training loss is finite
    exactly when the loss of every step was, and the average validation loss
    exactly when the loss of every batch was; the body of the epoch returns,
    appends the two averages to the history, keeps the model that the
    training pass produced, and stops or goes on as the early-stopping call
    on the validation accuracy says.  With at least one epoch to run, the
    fold returns a model and a score. *)
Theorem losses_are_only_recorded (cls : Classifier) (config : Config)
    (fold_no : Z) (train_loader : nat -> list (batch (X cls)))
    (val_loader : list (batch (X cls))) :
  (forall t xs ls, length xs = length ls ->
                   length (snd (train_step cls t xs ls)) = length ls) ->
  (forall t xs ls, length xs = length ls ->
                   length (snd (forward cls t xs ls)) = length ls) ->
  (forall e, train_loader e <> [] /\
             Forall (fun b => length (input_ids b) = length (label b))
                    (train_loader e)) ->
  (val_loader <> [] /\
   Forall (fun b => length (input_ids b) = length (label b)) val_loader) ->
  (forall (e : nat) (st : FoldState cls),
     exists t train_loss train_acc ev st' stop,
       train_epoch cls (model st) (train_loader e)
         = Ok (t, train_loss, train_acc) /\
       evaluate cls config t val_loader = Ok ev /\
       is_finite train_loss
         = forallb is_finite (step_losses cls (model st) (train_loader e)) /\
       is_finite (avg_loss ev)
         = forallb is_finite (batch_losses cls t val_loader) /\
       epoch_body config (train_loader e) val_loader st = Ok (st', stop) /\
       h_train_loss (history st') = h_train_loss (history st) ++ [train_loss] /\
       h_val_loss (history st') = h_val_loss (history st) ++ [avg_loss ev] /\
       model st' = t /\
       EarlyStopping_call (early_stopping st) (accuracy ev) (state_dict cls t)
         = (early_stopping st', stop)) /\
  ((0 < MAX_EPOCHS config)%Z ->
   exists t h a,
     train_fold cls config fold_no train_loader val_loader
       = Ok (t, h, Some a)).
Proof.
  intros Hstep Hfwd Htrain Hval. split.
  - intros e st.
    destruct (Htrain e) as [Hne Hwf]. destruct Hval as [Hvne Hvwf].
    destruct (@train_epoch_returns cls Hstep (model st) (train_loader e)
                Hne Hwf) as ([[t trl] tra] & Htr).
    destruct (@evaluate_returns cls config Hfwd t val_loader Hvne Hvwf)
      as (ev & Hev).
    destruct (EarlyStopping_call (early_stopping st) (accuracy ev)
                                 (state_dict cls t)) as [es stop] eqn:Hcall.
    exists t, trl, tra, ev.
    eexists {| model := t; early_stopping := es; history := _;
               best_val_acc := _ |}.
    exists stop.
    split; [exact Htr|]. split; [exact Hev|].
    split; [apply train_epoch_inv in Htr; apply Htr|].
    split; [apply evaluate_inv in Hev; apply Hev|].
    split.
    { unfold epoch_body. rewrite Htr. cbn [bind]. rewrite Hev. cbn [bind].
      rewrite Hcall. reflexivity. }
    cbn. repeat (split; [reflexivity|]). exact Hcall.
  - intro Hmax.
    destruct (@train_fold_runs cls config fold_no train_loader val_loader
                Hstep Hfwd Htrain Hval Hmax)
      as (t & st & a & _ & Hbest & Hrun & _).
    exists t, (history st), a. now rewrite <- Hbest.
Qed.

Lemma losses_are_only_recorded_witness :
  exists ev st',
    evaluate diverging default_config 1%nat half_right_val = Ok ev /\
    is_finite (avg_loss ev) = false /\
    epoch_body (cls := diverging) default_config (one_train_batch 0)
               half_right_val (fold_start diverging default_config 0)
      = Ok (st', false) /\
    h_val_loss (history st') = [avg_loss ev].
Proof.
  destruct (@losses_are_only_recorded diverging default_config 0
              one_train_batch half_right_val) as [Hepoch _].
  - intros t xs ls _. reflexivity.
  - intros t xs ls H. cbn. now rewrite length_map.
  - intro e. split; [discriminate|repeat constructor].
  - split; [discriminate|repeat constructor].
  - destruct (Hepoch 0%nat (fold_start diverging default_config 0))
      as (t & trl & tra & ev & st' & stop & Htr & Hev & _ & Hfin & Hbody
          & _ & Hval & _ & Hcall).
    vm_compute in Htr. injection Htr as <- _ _.
    cbn in Hcall. injection Hcall as _ <-.
    exists ev, st'. split; [exact Hev|]. split; [exact Hfin|].
    split; [exact Hbody|exact Hval].
Defined.

(** C7 as stated fails: the classifier [diverging] reports a non-finite loss
    in the validation pass of the first epoch and in the training pass of the
    second.  [train_fold] raises nothing: it records both values in the
    history, runs two more epochs and returns a model and a score. *)
Lemma nonfinite_loss_not_fatal :
  exists h,
    train_fold diverging default_config 0 one_train_batch half_right_val
      = Ok (1%nat, h, Some (1 # 2)) /\
    is_finite (nth 0 (h_val_loss h) (Finite 0)) = false /\
    is_finite (nth 1 (h_train_loss h) (Finite 0)) = false /\
    length (h_val_acc h) = 4%nat.
Proof.
  eexists. split; [vm_compute; reflexivity|].
  repeat split.
Qed.

(** ** When a dataset evaluation returns *)

Lemma mapM_returns (A B : Type) (f : A -> res B) (xs : list A) :
  Forall (fun a => exists b, f a = Ok b) xs -> exists ys, mapM f xs = Ok ys.
Proof.
  induction 1 as [|a xs [b Hb] _ [ys IH]]; cbn [mapM].
  - now exists [].
  - rewrite Hb, IH. cbn [bind]. now exists (b :: ys).
Qed.

Lemma id2label_returns (k : Z) :
  (0 <= k < 6)%Z -> exists name, id2label ID2LABEL k = Ok name.
Proof.
  intro H.
  assert (Hk : k = 0%Z \/ k = 1%Z \/ k = 2%Z \/ k = 3%Z \/ k = 4%Z \/ k = 5%Z)
    by lia.
  repeat (destruct Hk as [->|Hk]; [eexists; reflexivity|]).
  subst k. eexists; reflexivity.
Qed.

Lemma error_rows_returns (ts : list string) :
  forall (ls ps : list Z) (cs : list Q),
    Forall (fun l => (0 <= l < 6)%Z) ls ->
    Forall (fun p => (0 <= p < 6)%Z) ps ->
    exists errs, error_rows ts ls ps cs = Ok errs.
Proof.
  induction ts as [|t ts IH]; intros ls ps cs Hls Hps.
  - now exists [].
  - destruct ls as [|l ls]; [now exists []|].
    destruct ps as [|p ps]; [now exists []|].
    destruct cs as [|c cs]; [now exists []|].
    rewrite error_rows_cons.
    inversion Hls as [|? ? Hl Hls']; subst.
    inversion Hps as [|? ? Hp Hps']; subst.
    destruct (IH ls ps cs Hls' Hps') as [rest Hrest].
    destruct (Z.eqb l p); [now exists rest|].
    destruct (id2label_returns Hl) as [tn ->].
    destruct (id2label_returns Hp) as [pn ->].
    cbn [bind]. rewrite Hrest. cbn [bind]. eexists. reflexivity.
Qed.

(** X20. A dataset evaluation returns whenever the dataset has a row, every
    label is one of the six names, and every prediction is one of the six
    ids. *)
Theorem evaluate_dataset_returns (cls : Classifier) (threshold : Q)
    (loaded : T cls) (df : list (string * string)) :
  df <> [] ->
  Forall (fun row => In (snd row) (map fst LABEL2ID)) df ->
  Forall (fun p => (0 <= p < 6)%Z) (fst (predict cls loaded (map fst df))) ->
  exists r, evaluate_dataset cls threshold loaded df = Ok r.
Proof.
  intros Hne Hknown Hpreds. unfold evaluate_dataset.
  destruct (@mapM_returns _ _ (dict_get LABEL2ID) (map snd df)) as [ls Hls].
  { apply Forall_map. eapply Forall_impl; [|exact Hknown].
    intros row Hin. now apply dict_get_known. }
  rewrite Hls. cbn [bind].
  destruct (predict_lengths cls loaded (map fst df)) as [Hp Hc].
  destruct (predict cls loaded (map fst df)) as [ps cs].
  cbn [fst snd] in Hp, Hc, Hpreds. rewrite length_map in Hp, Hc.
  assert (Hlen : length ls = length df).
  { apply mapM_length in Hls. now rewrite length_map in Hls. }
  unfold accuracy_score.
  replace (length ls =? length ps)%nat with true
    by (symmetry; apply Nat.eqb_eq; lia).
  cbn [bind].
  rewrite adjusted_predictions_length by lia.
  replace (length ls =? length ps)%nat with true
    by (symmetry; apply Nat.eqb_eq; lia).
  cbn [bind].
  destruct (@error_rows_returns (map fst df) ls ps cs) as [errs Herr].
  { apply mapM_Forall2 in Hls. clear - Hls.
    induction Hls as [|name l names ls Hl _ IH]; constructor; [|exact IH].
    apply dict_get_In in Hl. cbn in Hl.
    repeat (destruct Hl as [Hl|Hl]; [injection Hl as _ <-; lia|]).
    contradiction. }
  { exact Hpreds. }
  rewrite Herr. cbn [bind]. rewrite length_map.
  destruct df as [|row df]; [contradiction|].
  cbn [length Nat.eqb]. eexists. reflexivity.
Qed.

Lemma evaluate_dataset_returns_witness :
  exists r, evaluate_dataset by_text (7 # 10) 0%nat dataset_B = Ok r.
Proof.
  apply (@evaluate_dataset_returns by_text (7 # 10) 0%nat dataset_B).
  - discriminate.
  - apply Forall_forall. intros row Hin. cbn in Hin.
    repeat (destruct Hin as [<-|Hin]; [cbn; auto 10|]). contradiction.
  - apply Forall_forall. intros p Hin. vm_compute in Hin.
    repeat (destruct Hin as [<-|Hin]; [lia|]). contradiction.
Defined.

(** ** Concrete runs of the dictionaries and of the error breakdown *)

Lemma label_dictionaries_inverse_witness :
  id2label ID2LABEL 5 = Ok "unclear"%string /\
  (0 <= 5 < NUM_LABELS default_config)%Z.
Proof.
  destruct (label_dictionaries_inverse "unclear" 5) as ((H & _) & Hb & _).
  split; [apply H; reflexivity|apply Hb; reflexivity].
Defined.

Lemma error_breakdown_groups_witness :
  map fst (error_breakdown three_errors)
    = ["save -> search"%string; "search -> save"%string] /\
  exists es,
    In ("save -> search"%string, es) (error_breakdown three_errors) /\
    es = filter (fun e => String.eqb (error_key e) "save -> search")
                three_errors /\
    length es = 2%nat.
Proof.
  split; [reflexivity|].
  destruct (error_breakdown_groups three_errors) as (_ & H & _).
  eexists. split; [left; reflexivity|].
  split; [|reflexivity].
  apply (H "save -> search"%string). left. reflexivity.
Defined.
